(** * Video anomaly detection: tracker, activity classifier, anomaly rules

    Shallow embedding of [src/detector.py] (class [ObjectTracker]),
    [src/activity_classifier.py] (class [ActivityClassifier]),
    [src/anomaly_detector.py] (class [AnomalyDetector]) and the
    processing loop of [src/main.py] ([VideoAnalyzer.analyze_video]).

    Conventions of the embedding.
    - Python floats are rationals ([Q]); results that the code compares
      with [==]-like tests are stated up to [Qeq].
    - [np.linalg.norm] and [scipy.euclidean] take a square root.  Every
      use of a norm in the code is a comparison with a non-negative
      constant or with another norm, so the embedding keeps the SQUARED
      norm and compares it with the squared constant
      ([norm v < 2.0] is [normsq v < 4]); a stored norm
      ([max_distance]) is stored squared.
    - Python [dict]s that are iterated in insertion order and whose order
      matters ([ObjectTracker.tracks]) are insertion-ordered association
      lists; dicts only accessed by key are [gmap]s; [set]s are [gset]s.
    - Python integers are [Z]; list positions are [nat].
    - A direction is the angle [degrees(arctan2(dy, dx))] of a
      displacement; the embedding keeps the displacement, and the test
      "the two directions differ by more than 45 degrees" is its exact
      algebraic form on the two displacements.
    - [time.time()] is an input: [detect] takes the wall clock [now] next
      to the [timestamp] its caller passes.
    - The tracks handed to the classifier and to the detector are the
      tracker's [Track] records, so the defaults of
      [track.get('velocity', ...)] are never used.
    - The detection model is outside the embedding: the loop of
      [main.py] takes, for each frame, the detections that
      [detect_and_track] passes to the tracker.
    - A call that raises is [None]. *)

From Stdlib Require Import ZArith QArith Qminmax Qabs Lqa Lia List Bool Sorted.
From stdpp Require Import base gmap list.
Import ListNotations.

#[local] Set Warnings "-clear-no-such-hyp".
Local Open Scope Z_scope.

(** ** Numbers and planar geometry *)

Definition Qltb (a b : Q) : bool := negb (Qle_bool b a).

Definition Vec : Type := (Q * Q)%type.

Definition vsub (a b : Vec) : Vec := ((fst a - fst b)%Q, (snd a - snd b)%Q).

(** [normsq v] is [np.linalg.norm(v) ** 2]. *)
Definition normsq (v : Vec) : Q := (fst v * fst v + snd v * snd v)%Q.

(** [euclidean(a, b) ** 2]. *)
Definition distsq (a b : Vec) : Q := normsq (vsub a b).

Record BBox : Type := mkBBox { bx1 : Q; by1 : Q; bx2 : Q; by2 : Q }.

(** [_bbox_center] / [_get_center] (the three classes carry the same
    static method). *)
Definition bbox_center (b : BBox) : Vec :=
  (((bx1 b + bx2 b) / 2)%Q, ((by1 b + by2 b) / 2)%Q).

(** ** Python containers *)

(** [deque(maxlen=n).append(x)]: drop from the left beyond [n]. *)
Definition deque_append {A} (maxlen : nat) (q : list A) (x : A) : list A :=
  let q' := q ++ [x] in
  skipn (length q' - maxlen)%nat q'.

(** [enumerate(l)]. *)
Definition enumerate {A} (l : list A) : list (nat * A) :=
  combine (seq 0 (length l)) l.

(** ** detector.py: ObjectTracker *)

Module Tracker.

Record Detection : Type := mkDetection {
  det_bbox : BBox;
  det_class_id : Z;
  det_confidence : Q
}.

(** The track dictionary.  The key ['last_seen'] holds [time.time()]; it
    is written and never read by the tracker, and is left out. *)
Record Track : Type := mkTrack {
  id : Z;
  bbox : BBox;
  class_id : Z;
  confidence : Q;
  history : list Vec;
  age : Z;
  hits : Z;
  velocity : Vec
}.

(** [ObjectTracker]: [tracks] is the dict [{track_id: Track}] in
    insertion order. *)
Record ObjectTracker : Type := mkTracker {
  tracks : list (Z * Track);
  next_id : Z;
  max_history : nat;
  max_age : Z
}.

Definition init (mh : nat) : ObjectTracker :=
  {| tracks := []; next_id := 1; max_history := mh; max_age := 30 |}.

(** *** Insertion-ordered dictionary operations *)

Fixpoint dict_get {V} (k : Z) (d : list (Z * V)) : option V :=
  match d with
  | [] => None
  | (k', v) :: d' => if Z.eqb k k' then Some v else dict_get k d'
  end.

(** [d[k] = v]: overwrite in place, or append a new key. *)
Fixpoint dict_set {V} (k : Z) (v : V) (d : list (Z * V)) : list (Z * V) :=
  match d with
  | [] => [(k, v)]
  | (k', v') :: d' =>
      if Z.eqb k k' then (k, v) :: d' else (k', v') :: dict_set k v d'
  end.

(** In-place mutation of the value stored under [k] (no effect when the
    key is absent; the code only mutates keys taken from the dict). *)
Fixpoint dict_alter {V} (f : V -> V) (k : Z) (d : list (Z * V)) : list (Z * V) :=
  match d with
  | [] => []
  | (k', v') :: d' =>
      if Z.eqb k k' then (k', f v') :: d' else (k', v') :: dict_alter f k d'
  end.

Definition dict_keys {V} (d : list (Z * V)) : list Z := map fst d.
Definition dict_values {V} (d : list (Z * V)) : list V := map snd d.

(** *** _calculate_iou *)

Definition _calculate_iou (bbox1 bbox2 : BBox) : Q :=
  let x1_i := Qmax (bx1 bbox1) (bx1 bbox2) in
  let y1_i := Qmax (by1 bbox1) (by1 bbox2) in
  let x2_i := Qmin (bx2 bbox1) (bx2 bbox2) in
  let y2_i := Qmin (by2 bbox1) (by2 bbox2) in
  if Qltb x2_i x1_i || Qltb y2_i y1_i then 0%Q
  else
    let intersection := ((x2_i - x1_i) * (y2_i - y1_i))%Q in
    let area1 := ((bx2 bbox1 - bx1 bbox1) * (by2 bbox1 - by1 bbox1))%Q in
    let area2 := ((bx2 bbox2 - bx1 bbox2) * (by2 bbox2 - by1 bbox2))%Q in
    let union := (area1 + area2 - intersection)%Q in
    if Qltb 0 union then (intersection / union)%Q else 0%Q.

(** *** _create_track, _update_track *)

(** Returns the new tracker and the id it assigned (the method's return
    value). *)
Definition _create_track (st : ObjectTracker) (detection : Detection)
  : ObjectTracker * Z :=
  let track_id := next_id st in
  let t := {| id := track_id;
              bbox := det_bbox detection;
              class_id := det_class_id detection;
              confidence := det_confidence detection;
              history := deque_append (max_history st) [] (bbox_center (det_bbox detection));
              age := 0;
              hits := 1;
              velocity := (0%Q, 0%Q) |} in
  ({| tracks := dict_set track_id t (tracks st);
      next_id := next_id st + 1;
      max_history := max_history st;
      max_age := max_age st |}, track_id).

Definition update_fields (mh : nat) (detection : Detection) (track : Track) : Track :=
  let old_center := bbox_center (bbox track) in
  let new_center := bbox_center (det_bbox detection) in
  {| id := id track;
     bbox := det_bbox detection;
     class_id := class_id track;
     confidence := det_confidence detection;
     history := deque_append mh (history track) new_center;
     age := 0;
     hits := hits track + 1;
     velocity := vsub new_center old_center |}.

Definition _update_track (st : ObjectTracker) (track_id : Z) (detection : Detection)
  : ObjectTracker :=
  {| tracks := dict_alter (update_fields (max_history st) detection) track_id (tracks st);
     next_id := next_id st;
     max_history := max_history st;
     max_age := max_age st |}.

(** *** _associate_detections *)

Definition age_incr (track : Track) : Track :=
  {| id := id track; bbox := bbox track; class_id := class_id track;
     confidence := confidence track; history := history track;
     age := age track + 1; hits := hits track; velocity := velocity track |}.

(** [1 - iou] of a detection against the track stored under [track_id]
    (the key is taken from the dict, the [None] branch is never reached). *)
Definition cost_of (st : ObjectTracker) (det : Detection) (track_id : Z) : Q :=
  match dict_get track_id (tracks st) with
  | Some track => (1 - _calculate_iou (det_bbox det) (bbox track))%Q
  | None => 1%Q
  end.

Definition flat_costs_of (st : ObjectTracker) (detections : list Detection)
  (track_ids : list Z) : list (Q * nat * nat) :=
  flat_map (fun '(i, det) =>
              map (fun '(j, track_id) => (cost_of st det track_id, i, j))
                  (enumerate track_ids))
           (enumerate detections).

(** Python's tuple ordering: lexicographic on [(cost, i, j)]. *)
Definition triple_leb (a b : Q * nat * nat) : bool :=
  let '(c1, i1, j1) := a in
  let '(c2, i2, j2) := b in
  match Qcompare c1 c2 with
  | Lt => true
  | Gt => false
  | Eq => if Nat.ltb i1 i2 then true
          else if Nat.ltb i2 i1 then false
          else Nat.leb j1 j2
  end.

Fixpoint insert_sorted (x : Q * nat * nat) (l : list (Q * nat * nat)) :=
  match l with
  | [] => [x]
  | y :: l' => if triple_leb x y then x :: l else y :: insert_sorted x l'
  end.

(** [flat_costs.sort()]: the keys [(cost, i, j)] are pairwise different,
    so the sorted list does not depend on the sorting algorithm. *)
Definition sort_costs (l : list (Q * nat * nat)) : list (Q * nat * nat) :=
  fold_right insert_sorted [] l.

Record MatchState : Type := mkMatch {
  m_tracker : ObjectTracker;
  matched_tracks : gset nat;
  matched_detections : gset nat
}.

(** One iteration of the loop over the sorted [flat_costs]. *)
Definition match_step (detections : list Detection) (track_ids : list Z)
  (ms : MatchState) (entry : Q * nat * nat) : MatchState :=
  let '(cost, det_idx, track_idx) := entry in
  if bool_decide (det_idx ∈ matched_detections ms)
     || bool_decide (track_idx ∈ matched_tracks ms) then ms
  else if Qltb cost (7 # 10) then
    match track_ids !! track_idx, detections !! det_idx with
    | Some track_id, Some det =>
        {| m_tracker := _update_track (m_tracker ms) track_id det;
           matched_tracks := {[track_idx]} ∪ matched_tracks ms;
           matched_detections := {[det_idx]} ∪ matched_detections ms |}
    | _, _ => ms
    end
  else ms.

(** Creation loop; collects the ids returned by [_create_track]. *)
Definition create_step (matched : gset nat) (acc : ObjectTracker * list Z)
  (e : nat * Detection) : ObjectTracker * list Z :=
  let '(i, det) := e in
  if bool_decide (i ∈ matched) then acc
  else let '(st', tid) := _create_track (fst acc) det in (st', snd acc ++ [tid]).

Definition age_step (matched : gset nat) (st : ObjectTracker) (e : nat * Z)
  : ObjectTracker :=
  let '(j, track_id) := e in
  if bool_decide (j ∈ matched) then st
  else {| tracks := dict_alter age_incr track_id (tracks st);
          next_id := next_id st; max_history := max_history st;
          max_age := max_age st |}.

(** Returns the tracker after the call and the ids of the tracks the
    call created, in creation order. *)
Definition _associate_detections (st : ObjectTracker) (detections : list Detection)
  : ObjectTracker * list Z :=
  match detections with
  | [] =>
      ({| tracks := map (fun kv => (fst kv, age_incr (snd kv))) (tracks st);
          next_id := next_id st; max_history := max_history st;
          max_age := max_age st |}, [])
  | _ =>
      let track_ids := dict_keys (tracks st) in
      let flat_costs := sort_costs (flat_costs_of st detections track_ids) in
      let ms := fold_left (match_step detections track_ids) flat_costs
                  {| m_tracker := st; matched_tracks := ∅; matched_detections := ∅ |} in
      let '(st1, created) :=
        fold_left (create_step (matched_detections ms)) (enumerate detections)
                  (m_tracker ms, []) in
      (fold_left (age_step (matched_tracks ms)) (enumerate track_ids) st1, created)
  end.

(** *** _cleanup_tracks, _get_active_tracks, update *)

Fixpoint dict_del {V} (k : Z) (d : list (Z * V)) : list (Z * V) :=
  match d with
  | [] => []
  | (k', v') :: d' => if Z.eqb k k' then d' else (k', v') :: dict_del k d'
  end.

Definition _cleanup_tracks (st : ObjectTracker) : ObjectTracker :=
  let to_remove :=
    dict_keys (List.filter (fun kv => Z.ltb (max_age st) (age (snd kv))) (tracks st)) in
  {| tracks := fold_left (fun d track_id => dict_del track_id d) to_remove (tracks st);
     next_id := next_id st; max_history := max_history st; max_age := max_age st |}.

Definition _get_active_tracks (st : ObjectTracker) : list Track :=
  List.filter (fun track => Z.leb 3 (hits track)) (dict_values (tracks st)).

(** [update] with the ids created during the call made visible. *)
Definition update_log (st : ObjectTracker) (detections : list Detection)
  : ObjectTracker * list Z * list Track :=
  let '(st1, created) :=
    match tracks st with
    | [] =>
        fold_left (fun acc det =>
                     let '(st', tid) := _create_track (fst acc) det in
                     (st', snd acc ++ [tid]))
                  detections (st, [])
    | _ => _associate_detections st detections
    end in
  let st2 := _cleanup_tracks st1 in
  (st2, created, _get_active_tracks st2).

(** [ObjectTracker.update]: the new tracker and the returned list. *)
Definition update (st : ObjectTracker) (detections : list Detection)
  : ObjectTracker * list Track :=
  let '(st', _, active) := update_log st detections in (st', active).

End Tracker.

(** ** activity_classifier.py: ActivityClassifier *)

Module Classifier.
Import Tracker.

Inductive Activity : Type :=
  | PARADO | CAMINHANDO | CORRENDO | INTERAGINDO | COMPORTAMENTO_ERRATICO.

#[global] Instance Activity_eq_dec : EqDecision Activity.
Proof. solve_decision. Defined.

Record ActivityClassifier : Type := mkClassifier {
  activity_history : gmap Z (list Activity);
  position_history : gmap Z (list Vec);
  history_size : nat
}.

Definition init : ActivityClassifier :=
  {| activity_history := ∅; position_history := ∅; history_size := 30 |}.

(** [self.thresholds]; the speeds are kept squared (see the header). *)
Definition stopped_speed_sq : Q := 4.        (* 2.0 ** 2 *)
Definition walking_speed_sq : Q := 25.       (* 5.0 ** 2 *)
Definition running_speed_sq : Q := 64.       (* 8.0 ** 2 *)
Definition interaction_distance_sq : Q := 10000.  (* 100.0 ** 2 *)
Definition erratic_changes : nat := 3.
Definition window_size : nat := 5.

(** [_calculate_direction].  The code returns
    [degrees(arctan2(dy, dx))] of the displacement [(dx, dy)] from the
    first to the last position; the embedding returns the displacement
    itself, which determines that angle.  [None] is Python's [None]. *)
Definition _calculate_direction (positions : list Vec) : option Vec :=
  if Nat.ltb (length positions) 2 then None
  else
    match head positions, last positions with
    | Some start, Some end_ =>
        let displacement := vsub end_ start in
        if Qltb (normsq displacement) (1 # 1000000000000) then None
        else Some displacement
    | _, _ => None
    end.

Definition dot (a b : Vec) : Q := (fst a * fst b + snd a * snd b)%Q.

(** [abs(_angle_difference(dir1, dir2)) > thresholds['direction_change']]
    with the threshold 45 degrees.  [_angle_difference] is the unsigned
    angle in [0, 180] between the two directions, and for non-zero
    displacements [d1], [d2] that angle exceeds 45 degrees exactly when
    [cos] of it is below [1 / sqrt 2], that is when
    [d1 . d2 < 0] or [2 * (d1 . d2)^2 < |d1|^2 * |d2|^2]. *)
Definition direction_change_exceeded (d1 d2 : Vec) : bool :=
  Qltb (dot d1 d2) 0
  || Qltb (2 * (dot d1 d2 * dot d1 d2)) (normsq d1 * normsq d2).

(** [positions[a:b]]. *)
Definition slice {A} (a b : nat) (l : list A) : list A :=
  firstn (b - a) (skipn a l).

(** Body of the loop of [_is_erratic_behavior] at index [i]: does this
    iteration increment [direction_changes]? *)
Definition window_pair_changes (positions : list Vec) (i : nat) : bool :=
  let dir1 := _calculate_direction (slice i (i + window_size) positions) in
  let dir2 := _calculate_direction
                (slice (i + window_size) (i + window_size * 2) positions) in
  match dir1, dir2 with
  | Some d1, Some d2 => direction_change_exceeded d1 d2
  | _, _ => false
  end.

Definition _is_erratic_behavior (c : ActivityClassifier) (track_id : Z) : bool :=
  match position_history c !! track_id with
  | None => false
  | Some positions =>
      if Nat.ltb (length positions) 10 then false
      else
        let direction_changes :=
          fold_left (fun n i => if window_pair_changes positions i then S n else n)
                    (seq 0 (length positions - window_size * 2)) 0%nat in
        Nat.leb erratic_changes direction_changes
  end.

(** [track.get('velocity', zeros)]: a [Track] always carries a velocity. *)
Definition _classify_individual_activity (c : ActivityClassifier) (track : Track)
  : Activity :=
  let speed_sq := normsq (velocity track) in
  if _is_erratic_behavior c (id track) then COMPORTAMENTO_ERRATICO
  else if Qltb speed_sq stopped_speed_sq then PARADO
  else if Qltb speed_sq walking_speed_sq then CAMINHANDO
  else if Qle_bool running_speed_sq speed_sq then CORRENDO
  else CAMINHANDO.

Definition _check_interactions (track : Track) (all_tracks : list Track) : bool :=
  let track_center := bbox_center (bbox track) in
  existsb (fun other_track =>
             if Z.eqb (id other_track) (id track) then false
             else if negb (Z.eqb (class_id track) 0)
                     || negb (Z.eqb (class_id other_track) 0) then false
             else Qltb (distsq track_center (bbox_center (bbox other_track)))
                       interaction_distance_sq)
          all_tracks.

Definition _update_position_history (c : ActivityClassifier) (tracks : list Track)
  : ActivityClassifier :=
  fold_left (fun c track =>
               let center := bbox_center (bbox track) in
               let old := default [] (position_history c !! id track) in
               {| activity_history := activity_history c;
                  position_history :=
                    <[id track := deque_append (history_size c) old center]>
                      (position_history c);
                  history_size := history_size c |})
            tracks c.

Definition classify_step (tracks : list Track)
  (acc : ActivityClassifier * gmap Z Activity) (track : Track)
  : ActivityClassifier * gmap Z Activity :=
  let '(c, activities) := acc in
  let activity := _classify_individual_activity c track in
  let activity :=
    if bool_decide (activity <> INTERAGINDO) && _check_interactions track tracks
    then INTERAGINDO else activity in
  let old := default [] (activity_history c !! id track) in
  ({| activity_history :=
        <[id track := deque_append (history_size c) old activity]> (activity_history c);
      position_history := position_history c;
      history_size := history_size c |},
   <[id track := activity]> activities).

(** [classify]; [frame_number] is not used by the code. *)
Definition classify (c : ActivityClassifier) (tracks : list Track) (frame_number : Z)
  : ActivityClassifier * gmap Z Activity :=
  fold_left (classify_step tracks) tracks (_update_position_history c tracks, ∅).

End Classifier.

(** ** anomaly_detector.py: AnomalyDetector *)

Module Anomaly.
Import Tracker.
Import Classifier.

Inductive AnomalyType : Type :=
  | MOVIMENTO_SUBITO | VELOCIDADE_ANORMAL | PARADA_PROLONGADA | AGLOMERACAO
  | MOVIMENTO_REVERSO | OBJETO_ABANDONADO | DIRECAO_PROIBIDA.

Inductive Severity : Type := BAIXA | MEDIA | ALTA.

(** [ANOMALY_TYPES[t]['severity']] (the description strings are left out). *)
Definition severity_of (t : AnomalyType) : Severity :=
  match t with
  | MOVIMENTO_SUBITO => MEDIA
  | VELOCIDADE_ANORMAL => ALTA
  | PARADA_PROLONGADA => BAIXA
  | AGLOMERACAO => MEDIA
  | MOVIMENTO_REVERSO => BAIXA
  | OBJETO_ABANDONADO => ALTA
  | DIRECAO_PROIBIDA => MEDIA
  end.

(** The record built by [_create_anomaly]. *)
Record TrackAnomaly : Type := mkTrackAnomaly {
  ta_type : AnomalyType;
  ta_severity : Severity;
  ta_frame : Z;
  ta_timestamp : Q;
  ta_track_id : Z;
  ta_location : Vec;
  ta_bbox : BBox
}.

(** The record built by [_check_crowding]. *)
Record CrowdAnomaly : Type := mkCrowdAnomaly {
  ca_type : AnomalyType;
  ca_severity : Severity;
  ca_frame : Z;
  ca_timestamp : Q;
  ca_location : Vec;
  involved_tracks : list Z;
  ca_count : nat
}.

Inductive AnomalyRecord : Type :=
  | PerTrack (r : TrackAnomaly)
  | Crowd (r : CrowdAnomaly).

(** One entry of [self.track_states].  The keys ['initial_position'],
    ['max_distance'] and ['first_seen'] are set when the entry is made;
    the other keys are set (or deleted) afterwards, hence the options.
    [max_distance] holds the square of the code's value. *)
Record TrackState : Type := mkTrackState {
  initial_position : Vec;
  max_distance : Q;
  first_seen : Q;
  current_position : option Vec;
  last_seen : option Q;
  stopped_since : option Q
}.

Record AnomalyDetector : Type := mkDetector {
  anomalies : list AnomalyRecord;
  track_states : gmap Z TrackState;
  velocity_history : gmap Z (list Vec);
  history_size : nat
}.

Definition init : AnomalyDetector :=
  {| anomalies := []; track_states := ∅; velocity_history := ∅; history_size := 10 |}.

(** [self.thresholds]; speeds, accelerations and distances squared. *)
Definition sudden_acceleration_sq : Q := 100.   (* 10.0 ** 2 *)
Definition high_speed_sq : Q := 64.             (* 8.0 ** 2 *)
Definition stopped_duration : Q := 5.
Definition crowding_distance_sq : Q := 6400.    (* 80.0 ** 2 *)
Definition crowding_count : nat := 3.
Definition return_threshold_sq : Q := 2500.     (* 50.0 ** 2 *)
Definition return_threshold_x2_sq : Q := 10000. (* (50.0 * 2) ** 2 *)
Definition object_abandoned_time : Q := 10.

Definition _create_anomaly (anomaly_type : AnomalyType) (track : Track)
  (frame_number : Z) (timestamp : Q) : TrackAnomaly :=
  {| ta_type := anomaly_type;
     ta_severity := severity_of anomaly_type;
     ta_frame := frame_number;
     ta_timestamp := timestamp;
     ta_track_id := id track;
     ta_location := bbox_center (bbox track);
     ta_bbox := bbox track |}.

(** Consecutive pairs [(l[i], l[i+1])]. *)
Fixpoint consecutive {A} (l : list A) : list (A * A) :=
  match l with
  | a :: ((b :: _) as l') => (a, b) :: consecutive l'
  | _ => []
  end.

Definition _check_sudden_movement (d : AnomalyDetector) (track_id : Z) : bool :=
  match velocity_history d !! track_id with
  | None => false
  | Some velocities =>
      if Nat.ltb (length velocities) 3 then false
      else
        let accelerations :=
          map (fun '(v1, v2) => normsq (vsub v2 v1)) (consecutive velocities) in
        match accelerations with
        | [] => false
        | a :: rest =>
            let max_accel := fold_left Qmax rest a in
            Qltb sudden_acceleration_sq max_accel
        end
  end.

Definition _check_high_speed (track : Track) : bool :=
  Qltb high_speed_sq (normsq (velocity track)).

(** [now] is the value of [time.time()] read by the check. *)
Definition _check_prolonged_stop (d : AnomalyDetector) (now : Q) (track_id : Z)
  (activity : option Activity) : bool :=
  if negb (bool_decide (activity = Some PARADO)) then false
  else
    match track_states d !! track_id with
    | None => false
    | Some state =>
        match stopped_since state with
        | None => false
        | Some since =>
            let stopped := (now - since)%Q in
            Qltb stopped_duration stopped
        end
    end.

Definition _check_reverse_movement (d : AnomalyDetector) (track_id : Z) : bool :=
  match track_states d !! track_id with
  | None => false
  | Some state =>
      match current_position state with
      | None => false
      | Some current =>
          let distance := distsq current (initial_position state) in
          Qltb distance return_threshold_sq
          && Qltb return_threshold_x2_sq (max_distance state)
      end
  end.

Definition _check_abandoned_object (d : AnomalyDetector) (now : Q) (track : Track)
  (activity : option Activity) : bool :=
  if Z.eqb (class_id track) 0 then false
  else if negb (bool_decide (activity = Some PARADO)) then false
  else
    match track_states d !! id track with
    | None => false
    | Some state =>
        match stopped_since state with
        | None => false
        | Some since => Qltb object_abandoned_time (now - since)%Q
        end
    end.

(** [np.mean(centers, axis=0)]. *)
Definition mean_center (centers : list Vec) : Vec :=
  let n := inject_Z (Z.of_nat (length centers)) in
  ((fold_left Qplus (map fst centers) 0 / n)%Q,
   (fold_left Qplus (map snd centers) 0 / n)%Q).

(** The inner loop of [_check_crowding]: the list [nearby] gathered for
    the person at position [i]. *)
Definition nearby_of (people : list Track) (checked : gset Z) (i : nat)
  (person1 : Track) : list Track :=
  let center1 := bbox_center (bbox person1) in
  person1 ::
  map snd
    (List.filter
       (fun '(j, person2) =>
          if Nat.eqb i j || bool_decide (id person2 ∈ checked) then false
          else Qltb (distsq center1 (bbox_center (bbox person2))) crowding_distance_sq)
       (enumerate people)).

(** One iteration of the outer loop of [_check_crowding]. *)
Definition crowd_step (people : list Track) (frame_number : Z) (timestamp : Q)
  (acc : gset Z * list CrowdAnomaly) (e : nat * Track) : gset Z * list CrowdAnomaly :=
  let '(checked, found) := acc in
  let '(i, person1) := e in
  if bool_decide (id person1 ∈ checked) then acc
  else
    let nearby := nearby_of people checked i person1 in
    if Nat.leb crowding_count (length nearby) then
      (fold_left (fun ch person => {[id person]} ∪ ch) nearby checked,
       found ++ [ {| ca_type := AGLOMERACAO;
                     ca_severity := severity_of AGLOMERACAO;
                     ca_frame := frame_number;
                     ca_timestamp := timestamp;
                     ca_location := mean_center (map (fun p => bbox_center (bbox p)) nearby);
                     involved_tracks := map id nearby;
                     ca_count := length nearby |} ])
    else acc.

Definition _check_crowding (tracks : list Track) (frame_number : Z) (timestamp : Q)
  : list CrowdAnomaly :=
  let people := List.filter (fun t => Z.eqb (class_id t) 0) tracks in
  if Nat.ltb (length people) crowding_count then []
  else snd (fold_left (crowd_step people frame_number timestamp)
                      (enumerate people) (∅, [])).

Definition new_state (center : Vec) (timestamp : Q) : TrackState :=
  {| initial_position := center; max_distance := 0; first_seen := timestamp;
     current_position := None; last_seen := None; stopped_since := None |}.

(** Body of the first loop of [_update_track_states]. *)
Definition state_step (timestamp : Q) (d : AnomalyDetector) (track : Track)
  : AnomalyDetector :=
  let track_id := id track in
  let velocity := velocity track in
  let center := bbox_center (bbox track) in
  let vh := default [] (velocity_history d !! track_id) in
  let state := default (new_state center timestamp) (track_states d !! track_id) in
  let distance := distsq center (initial_position state) in
  let state' :=
    {| initial_position := initial_position state;
       max_distance := Qmax (max_distance state) distance;
       first_seen := first_seen state;
       current_position := Some center;
       last_seen := Some timestamp;
       stopped_since :=
         if Qltb (normsq velocity) 4 then
           match stopped_since state with
           | None => Some timestamp
           | Some since => Some since
           end
         else None |} in
  {| anomalies := anomalies d;
     track_states := <[track_id := state']> (track_states d);
     velocity_history :=
       <[track_id := deque_append (history_size d) vh velocity]> (velocity_history d);
     history_size := history_size d |}.

(** Body of the purge loop of [_update_track_states]. *)
Definition purge_step (timestamp : Q) (d : AnomalyDetector) (tid : Z) : AnomalyDetector :=
  match track_states d !! tid with
  | None => d
  | Some state =>
      if Qltb 5 (timestamp - default 0%Q (last_seen state))%Q then
        {| anomalies := anomalies d;
           track_states := delete tid (track_states d);
           velocity_history := delete tid (velocity_history d);
           history_size := history_size d |}
      else d
  end.

Definition _update_track_states (d : AnomalyDetector) (tracks : list Track)
  (timestamp : Q) : AnomalyDetector :=
  let current_ids : gset Z := list_to_set (map id tracks) in
  let d1 := fold_left (state_step timestamp) tracks d in
  let to_remove :=
    List.filter (fun tid => negb (bool_decide (tid ∈ current_ids)))
                (map fst (map_to_list (track_states d1))) in
  fold_left (purge_step timestamp) to_remove d1.

(** The anomalies the loop body of [detect] appends for one track. *)
Definition track_rules (d : AnomalyDetector) (now : Q) (activities : gmap Z Activity)
  (frame_number : Z) (timestamp : Q) (track : Track) : list AnomalyRecord :=
  let track_id := id track in
  let fire (b : bool) (ty : AnomalyType) : list AnomalyRecord :=
    if b then [PerTrack (_create_anomaly ty track frame_number timestamp)] else [] in
  fire (_check_sudden_movement d track_id) MOVIMENTO_SUBITO
  ++ fire (_check_high_speed track) VELOCIDADE_ANORMAL
  ++ fire (_check_prolonged_stop d now track_id (activities !! track_id)) PARADA_PROLONGADA
  ++ fire (_check_reverse_movement d track_id) MOVIMENTO_REVERSO
  ++ fire (_check_abandoned_object d now track (activities !! track_id)) OBJETO_ABANDONADO.

(** [detect].  [now] is the wall clock ([time.time()]) during the call;
    the rules of one call are evaluated against one reading. *)
Definition detect (d : AnomalyDetector) (now : Q) (tracks : list Track)
  (activities : gmap Z Activity) (frame_number : Z) (timestamp : Q)
  : AnomalyDetector * list AnomalyRecord :=
  let d1 := _update_track_states d tracks timestamp in
  let frame_anomalies :=
    flat_map (track_rules d1 now activities frame_number timestamp) tracks
    ++ map Crowd (_check_crowding tracks frame_number timestamp) in
  ({| anomalies := anomalies d1 ++ frame_anomalies;
      track_states := track_states d1;
      velocity_history := velocity_history d1;
      history_size := history_size d1 |}, frame_anomalies).

End Anomaly.

(** ** activity_classifier.py: _angle_difference *)

Module ClassifierAngle.

(** [_angle_difference], on angles in degrees. *)
Definition _angle_difference (angle1 angle2 : Q) : Q :=
  let diff := Qabs (angle1 - angle2) in
  if Qltb 180 diff then (360 - diff)%Q else diff.

End ClassifierAngle.

(** ** anomaly_detector.py: get_statistics *)

Module Statistics.
Import Tracker Classifier Anomaly.

(** The keys ['type'], ['severity'], ['timestamp'] and ['frame'], which
    both kinds of record carry. *)
Definition record_type (a : AnomalyRecord) : AnomalyType :=
  match a with PerTrack r => ta_type r | Crowd r => ca_type r end.

Definition record_severity (a : AnomalyRecord) : Severity :=
  match a with PerTrack r => ta_severity r | Crowd r => ca_severity r end.

Definition record_timestamp (a : AnomalyRecord) : Q :=
  match a with PerTrack r => ta_timestamp r | Crowd r => ca_timestamp r end.

Definition record_frame (a : AnomalyRecord) : Z :=
  match a with PerTrack r => ta_frame r | Crowd r => ca_frame r end.

Definition type_eqb (a b : AnomalyType) : bool :=
  match a, b with
  | MOVIMENTO_SUBITO, MOVIMENTO_SUBITO | VELOCIDADE_ANORMAL, VELOCIDADE_ANORMAL
  | PARADA_PROLONGADA, PARADA_PROLONGADA | AGLOMERACAO, AGLOMERACAO
  | MOVIMENTO_REVERSO, MOVIMENTO_REVERSO | OBJETO_ABANDONADO, OBJETO_ABANDONADO
  | DIRECAO_PROIBIDA, DIRECAO_PROIBIDA => true
  | _, _ => false
  end.

Definition severity_eqb (a b : Severity) : bool :=
  match a, b with
  | BAIXA, BAIXA | MEDIA, MEDIA | ALTA, ALTA => true
  | _, _ => false
  end.

Record Statistics : Type := mkStatistics {
  total_anomalies : nat;
  by_type : AnomalyType -> nat;
  by_severity : Severity -> nat;
  timeline : list (Q * AnomalyType * Severity)
}.

(** [get_statistics].  A [defaultdict(int)] is read as a total map: the
    value of a key, 0 for a key that was never counted.  The timeline
    keeps the order of the log. *)

(** Body of the loop. *)
Definition stats_step (stats : Statistics) (anomaly : AnomalyRecord) : Statistics :=
  {| total_anomalies := total_anomalies stats;
     by_type := fun ty =>
       if type_eqb ty (record_type anomaly) then S (by_type stats ty)
       else by_type stats ty;
     by_severity := fun sv =>
       if severity_eqb sv (record_severity anomaly) then S (by_severity stats sv)
       else by_severity stats sv;
     timeline := timeline stats
       ++ [(record_timestamp anomaly, record_type anomaly, record_severity anomaly)] |}.

Definition get_statistics (d : AnomalyDetector) : Statistics :=
  fold_left stats_step (anomalies d)
    {| total_anomalies := length (anomalies d);
       by_type := fun _ => 0%nat;
       by_severity := fun _ => 0%nat;
       timeline := [] |}.

End Statistics.

(** ** main.py: the processing loop of VideoAnalyzer.analyze_video *)

Module Main.
Import Tracker Classifier Anomaly.

(** The stateful components the loop drives: the tracker of
    [self.detector], [self.classifier] and [self.anomaly_detector]. *)
Record VideoAnalyzer : Type := mkAnalyzer {
  detector : ObjectTracker;
  classifier : ActivityClassifier;
  anomaly_detector : AnomalyDetector
}.

(** What the loop reads for one frame: the detections
    [detect_and_track] extracts from the result of the model, and the
    wall clock during the call of [detect]. *)
Record FrameInput : Type := mkFrameInput {
  in_detections : list Detection;
  in_now : Q
}.

(** What one iteration computes. *)
Record FrameData : Type := mkFrameData {
  fd_frame : Z;
  fd_timestamp : Q;
  fd_tracks : list Track;
  fd_activities : gmap Z Activity;
  fd_anomalies : list AnomalyRecord
}.

(** Steps 1 to 3 of the loop body.  [frame_number / fps] raises
    [ZeroDivisionError] when [fps] is 0: [None]. *)
Definition loop_body (fps : Q) (a : VideoAnalyzer) (frame_number : Z) (i : FrameInput)
  : option (VideoAnalyzer * FrameData) :=
  if Qeq_bool fps 0 then None
  else
    let timestamp := (inject_Z frame_number / fps)%Q in
    let '(tracker, tracks) := update (detector a) (in_detections i) in
    let '(c, activities) := classify (classifier a) tracks frame_number in
    let '(ad, anomalies) :=
      detect (anomaly_detector a) (in_now i) tracks activities frame_number timestamp in
    Some (mkAnalyzer tracker c ad,
          mkFrameData frame_number timestamp tracks activities anomalies).

(** The loop, from frame [frame_number] on. *)
Fixpoint process (fps : Q) (a : VideoAnalyzer) (frame_number : Z)
  (frames : list FrameInput) : option (VideoAnalyzer * list FrameData) :=
  match frames with
  | [] => Some (a, [])
  | i :: rest =>
      match loop_body fps a frame_number i with
      | None => None
      | Some (a', fd) =>
          match process fps a' (frame_number + 1) rest with
          | None => None
          | Some (a'', fds) => Some (a'', fd :: fds)
          end
      end
  end.

(** [analyze_video]: a new classifier and a new anomaly detector, the
    tracker the analyzer already has, frame numbers from 0. *)
Definition analyze_video (fps : Q) (tracker : ObjectTracker) (frames : list FrameInput)
  : option (VideoAnalyzer * list FrameData) :=
  process fps (mkAnalyzer tracker Classifier.init Anomaly.init) 0 frames.

End Main.

(** * Vocabulary of the statements

    Definitions that the theorems below are stated with: invariants,
    sequences of calls, and concrete inputs.  None of them is part of
    the program. *)

Module TrackerSpec.
Import Tracker.

(** Two boxes share a region of positive area. *)
Definition boxes_overlap (A B : BBox) : Prop :=
  (bx1 A < bx2 B /\ bx1 B < bx2 A /\ by1 A < by2 B /\ by1 B < by2 A)%Q.

(** [ids_from s n] is [s, s+1, ..., s+n-1]. *)
Fixpoint ids_from (s : Z) (n : nat) : list Z :=
  match n with
  | O => []
  | S n' => s :: ids_from (s + 1) n'
  end.

(** The dictionary invariant: keys are unique, every track is stored
    under its own id, and every id in use is below [next_id]. *)
Definition wf (st : ObjectTracker) : Prop :=
  List.NoDup (dict_keys (tracks st)) /\
  (forall k t, In (k, t) (tracks st) -> id t = k /\ k < next_id st).

(** The track [_create_track] stores for a detection. *)
Definition fresh_track (mh : nat) (track_id : Z) (detection : Detection) : Track :=
  {| id := track_id;
     bbox := det_bbox detection;
     class_id := det_class_id detection;
     confidence := det_confidence detection;
     history := deque_append mh [] (bbox_center (det_bbox detection));
     age := 0;
     hits := 1;
     velocity := (0%Q, 0%Q) |}.

Fixpoint fresh_entries (mh : nat) (s : Z) (ds : list Detection) : list (Z * Track) :=
  match ds with
  | [] => []
  | det :: ds' => (s, fresh_track mh s det) :: fresh_entries mh (s + 1) ds'
  end.

Definition create_all (st : ObjectTracker) (log : list Z) (ds : list Detection)
  : ObjectTracker * list Z :=
  fold_left (fun acc det =>
               let '(st', tid) := _create_track (fst acc) det in
               (st', snd acc ++ [tid]))
            ds (st, log).

(** What the matching loop maintains, relative to the tracker [st] the
    call started from: the keys stay in place, a track whose position is
    in [matched_tracks] has been updated exactly once, the others are
    untouched. *)
Definition match_inv (st : ObjectTracker) (ms : MatchState) : Prop :=
  next_id (m_tracker ms) = next_id st /\
  max_history (m_tracker ms) = max_history st /\
  max_age (m_tracker ms) = max_age st /\
  dict_keys (tracks (m_tracker ms)) = dict_keys (tracks st) /\
  forall j k t, tracks st !! j = Some (k, t) ->
    exists t', tracks (m_tracker ms) !! j = Some (k, t') /\ id t' = id t /\
      (if bool_decide (j ∈ matched_tracks ms)
       then hits t' = hits t + 1 /\ age t' = 0 else t' = t).

(** The keys the ageing loop touches: those at unmatched positions. *)
Definition aged_keys (matched : gset nat) (es : list (nat * Z)) : list Z :=
  map snd (List.filter (fun e => negb (bool_decide (fst e ∈ matched))) es).

(** What one call does to the dictionary: [created] are the ids handed
    out, consecutive from [next_id]; every entry afterwards is either a
    track created by this call, with one hit, or a track that was there
    before: matched by this call (one more hit, age reset) or not (same
    hits, one frame older). *)
Record call_spec (st st' : ObjectTracker) (created : list Z) : Prop := {
  cs_wf : wf st';
  cs_created : created = ids_from (next_id st) (length created);
  cs_next : next_id st' = next_id st + Z.of_nat (length created);
  cs_max_history : max_history st' = max_history st;
  cs_max_age : max_age st' = max_age st;
  cs_tracks : forall k t', In (k, t') (tracks st') ->
      (In k created /\ hits t' = 1 /\ age t' = 0) \/
      (exists t, In (k, t) (tracks st) /\
         ((hits t' = hits t + 1 /\ age t' = 0) \/
          (hits t' = hits t /\ age t' = age t + 1)))
}.

(** The last tracker of a sequence of calls. *)
Definition final (st : ObjectTracker) (frames : list (list Detection)) : ObjectTracker :=
  fold_left (fun st detections => fst (update st detections)) frames st.

(** The ids [_create_track] hands out over a sequence of calls, in
    order. *)
Fixpoint created_log (st : ObjectTracker) (frames : list (list Detection)) : list Z :=
  match frames with
  | [] => []
  | detections :: rest =>
      snd (fst (update_log st detections))
      ++ created_log (fst (update st detections)) rest
  end.

(** The trackers after each call of a sequence. *)
Fixpoint states (st : ObjectTracker) (frames : list (list Detection))
  : list ObjectTracker :=
  match frames with
  | [] => []
  | detections :: rest =>
      fst (update st detections) :: states (fst (update st detections)) rest
  end.

(** [seen k st]: the call that produced [st] created track [k] or
    matched a detection to it, which is when it leaves the track with
    [age = 0] (an unmatched track comes out with [age >= 1]). *)
Definition seen (k : Z) (st : ObjectTracker) : bool :=
  match dict_get k (tracks st) with
  | Some t => Z.eqb (age t) 0
  | None => false
  end.

Definition count_seen (k : Z) (sts : list ObjectTracker) : Z :=
  Z.of_nat (length (List.filter (seen k) sts)).

(** Hit counts against the history [pre] of trackers produced so far. *)
Definition seen_inv (pre : list ObjectTracker) (st : ObjectTracker) : Prop :=
  (forall k t, In (k, t) (tracks st) -> hits t = count_seen k pre /\ 0 <= age t) /\
  (forall k, next_id st <= k -> count_seen k pre = 0).

End TrackerSpec.

Module ClassifierSpec.
Import Tracker Classifier.

(** The erratic check as the specification words it: the history is cut
    into successive, non-overlapping pairs of windows of size 5 (the
    pair number [j] is [positions[10j : 10j+5]] and
    [positions[10j+5 : 10j+10]]), with one comparison per pair. *)
Definition spec_pair_starts (len : nat) : list nat :=
  map (fun j => (10 * j)%nat) (seq 0 (len / 10)).

Definition is_erratic_as_specified (positions : list Vec) : bool :=
  if Nat.ltb (length positions) 10 then false
  else Nat.leb 3 (length (List.filter (window_pair_changes positions)
                                      (spec_pair_starts (length positions)))).

(** The comparisons the code makes: one per start index
    [0 .. len - 11], each window pair one sample after the previous. *)
Definition count_changes (positions : list Vec) : nat :=
  length (List.filter (window_pair_changes positions)
                      (seq 0 (length positions - window_size * 2))).

(** A classifier holding [ps] as the position history of track 1. *)
Definition with_history (ps : list Vec) : ActivityClassifier :=
  {| activity_history := ∅; position_history := {[1 := ps]}; history_size := 30 |}.

(** Five steps east, then a single turn of about 127 degrees. *)
Definition one_turn : list Vec :=
  [(0, 0); (5, 0); (10, 0); (15, 0); (20, 0); (17, 4); (14, 8); (11, 12);
   (8, 16); (5, 20); (2, 24); (-1, 28); (-4, 32)]%Q.

(** Successive calls of [classify], one per frame. *)
Fixpoint classify_run (c : ActivityClassifier) (n : Z) (frames : list (list Track))
  : list (gmap Z Activity) :=
  match frames with
  | [] => []
  | tracks :: rest =>
      snd (classify c tracks n) :: classify_run (fst (classify c tracks n)) (n + 1) rest
  end.

(** A person moving east at 1 px per frame, as the tracker reports it
    in frame [n]. *)
Definition walker (n : Z) : Track :=
  {| id := 1; bbox := mkBBox (inject_Z n) 0 (inject_Z n + 50) 100; class_id := 0;
     confidence := 9 # 10; history := []; age := 0; hits := 3; velocity := (1, 0)%Q |}.

Definition walk10 : list (list Track) :=
  map (fun n => [walker (Z.of_nat n)]) (seq 0 10).

Definition hist_len (c : ActivityClassifier) (k : Z) : nat :=
  length (default [] (position_history c !! k)).

End ClassifierSpec.

Module AnomalySpec.
Import Tracker Classifier Anomaly.

(** The [AGLOMERACAO] records among the anomalies of a frame. *)
Definition crowd_records (l : list AnomalyRecord) : list CrowdAnomaly :=
  flat_map (fun a => match a with Crowd r => [r] | PerTrack _ => [] end) l.

(** No id is listed by two records. *)
Definition disjoint_records (found : list CrowdAnomaly) : Prop :=
  forall i j r1 r2 k,
    found !! i = Some r1 -> found !! j = Some r2 ->
    In k (involved_tracks r1) -> In k (involved_tracks r2) -> i = j.

(** The invariant of the outer loop of [_check_crowding]. *)
Definition crowd_inv (people : list Track) (acc : gset Z * list CrowdAnomaly) : Prop :=
  (forall r k, In r (snd acc) -> In k (involved_tracks r) -> k ∈ fst acc) /\
  disjoint_records (snd acc) /\
  (List.NoDup (map id people) ->
   forall r, In r (snd acc) -> List.NoDup (involved_tracks r)).

(** Two tracks whose centres are less than 80 px apart. *)
Definition close (a b : Track) : bool :=
  Qltb (distsq (bbox_center (bbox a)) (bbox_center (bbox b))) crowding_distance_sq.

Definition within80 (a b : Track) : Prop :=
  (distsq (bbox_center (bbox a)) (bbox_center (bbox b)) < crowding_distance_sq)%Q.

(** The record [_check_crowding] builds for the group [p, q, r]. *)
Definition crowd_of_three (frame_number : Z) (timestamp : Q) (p q r : Track)
  : CrowdAnomaly :=
  {| ca_type := AGLOMERACAO;
     ca_severity := MEDIA;
     ca_frame := frame_number;
     ca_timestamp := timestamp;
     ca_location :=
       mean_center [bbox_center (bbox p); bbox_center (bbox q); bbox_center (bbox r)];
     involved_tracks := [id p; id q; id r];
     ca_count := 3 |}.

(** A per-track anomaly of type [ty] is among [out] for track id [k]. *)
Definition fires (ty : AnomalyType) (k : Z) (out : list AnomalyRecord) : Prop :=
  exists r, In (PerTrack r) out /\ ta_type r = ty /\ ta_track_id r = k.

(** The check [detect] runs for each per-track anomaly type. *)
Definition rule_check (d : AnomalyDetector) (now : Q) (activities : gmap Z Activity)
  (track : Track) (ty : AnomalyType) : bool :=
  match ty with
  | MOVIMENTO_SUBITO => _check_sudden_movement d (id track)
  | VELOCIDADE_ANORMAL => _check_high_speed track
  | PARADA_PROLONGADA => _check_prolonged_stop d now (id track) (activities !! id track)
  | MOVIMENTO_REVERSO => _check_reverse_movement d (id track)
  | OBJETO_ABANDONADO => _check_abandoned_object d now track (activities !! id track)
  | AGLOMERACAO | DIRECAO_PROIBIDA => false
  end.

(** The arguments of one [detect] call, with the wall clock read during
    the call. *)
Record Frame : Type := mkFrame {
  f_now : Q;
  f_tracks : list Track;
  f_activities : gmap Z Activity;
  f_number : Z;
  f_timestamp : Q
}.

Definition detect_frame (d : AnomalyDetector) (fr : Frame)
  : AnomalyDetector * list AnomalyRecord :=
  detect d (f_now fr) (f_tracks fr) (f_activities fr) (f_number fr) (f_timestamp fr).

(** The detector after a sequence of frames. *)
Definition run_detect (d : AnomalyDetector) (frames : list Frame) : AnomalyDetector :=
  fold_left (fun d fr => fst (detect_frame d fr)) frames d.

(** Every recorded maximum is either the initial 0 or the (squared)
    distance from the entry's origin of a position at which a track with
    that id was seen. *)
Definition excursion_inv (seen : list Track) (m : gmap Z TrackState) : Prop :=
  forall k s, m !! k = Some s ->
    max_distance s = 0%Q \/
    exists t, In t seen /\ id t = k /\
      max_distance s = distsq (bbox_center (bbox t)) (initial_position s).

(** ** Concrete frames *)

(** A confirmed track with centre [(x, y)], a 50 x 100 box and velocity
    [v]. *)
Definition track_at (k cls : Z) (x y : Z) (v : Vec) : Track :=
  {| id := k;
     bbox := mkBBox (inject_Z (x - 25)) (inject_Z (y - 50))
                    (inject_Z (x + 25)) (inject_Z (y + 50));
     class_id := cls; confidence := 9 # 10; history := []; age := 0; hits := 3;
     velocity := v |}.

Definition person_a : Track := track_at 1 0 100 100 (0, 0)%Q.
Definition person_b : Track := track_at 2 0 130 100 (0, 0)%Q.
Definition person_c : Track := track_at 3 0 100 140 (0, 0)%Q.
Definition person_far : Track := track_at 4 0 300 100 (0, 0)%Q.
Definition suitcase : Track := track_at 5 28 110 110 (0, 0)%Q.

Definition crowd_frame : list Track :=
  [person_a; suitcase; person_far; person_b; person_c].

(** A person standing still in the first frame of a video: video time
    0.0, wall clock 1 700 000 000 s (a Unix time). *)
Definition standing : Track := track_at 1 0 125 150 (0, 0)%Q.

Definition first_frame : Frame :=
  {| f_now := 1700000000; f_tracks := [standing];
     f_activities := {[1 := PARADO]}; f_number := 0; f_timestamp := 0 |}.

(** A person who walks 120 px away from where they were first seen and
    comes back within 30 px. *)
Definition out_and_back : list Frame :=
  map (fun '(n, x) =>
         {| f_now := 0; f_tracks := [track_at 1 0 x 100 (10, 0)%Q];
            f_activities := {[1 := CORRENDO]}; f_number := n;
            f_timestamp := inject_Z n / 30 |})
      [(0, 100); (1, 160); (2, 220); (3, 160)].

Definition back_frame : Frame :=
  {| f_now := 0; f_tracks := [track_at 1 0 130 100 (-30, 0)%Q];
     f_activities := {[1 := CORRENDO]}; f_number := 4; f_timestamp := 4 # 30 |}.

(** Three persons standing close together, two of them under the same
    id: a list that [ObjectTracker.update] never returns, but that
    [detect] accepts. *)
Definition twin_frame : list Track :=
  [track_at 1 0 100 100 (0, 0)%Q; track_at 1 0 130 100 (0, 0)%Q;
   track_at 2 0 100 140 (0, 0)%Q].

End AnomalySpec.

(** ** Vocabulary of the further properties *)

Module TrackerLifeSpec.
Import Tracker TrackerSpec.

(** The order [flat_costs.sort()] sorts by. *)
Definition triple_le (a b : Q * nat * nat) : Prop := triple_leb a b = true.

(** How a stored track relates to the tracker [st] and the detections
    of the call that produced it. *)
Inductive track_origin (st : ObjectTracker) (detections : list Detection)
  (k : Z) (t' : Track) : Prop :=
  | origin_created (det : Detection) :
      In det detections -> next_id st <= k ->
      t' = fresh_track (max_history st) k det ->
      track_origin st detections k t'
  | origin_unmatched (t : Track) :
      In (k, t) (tracks st) -> t' = age_incr t ->
      track_origin st detections k t'
  | origin_matched (t : Track) (det : Detection) :
      In (k, t) (tracks st) -> In det detections ->
      (3 # 10 < _calculate_iou (det_bbox det) (bbox t))%Q ->
      t' = update_fields (max_history st) det t ->
      track_origin st detections k t'.

(** The cost carried by an entry of [flat_costs] is the one of the
    detection and the track at its two positions. *)
Definition valid_entry (st : ObjectTracker) (detections : list Detection)
  (e : Q * nat * nat) : Prop :=
  forall det k,
    detections !! snd (fst e) = Some det ->
    dict_keys (tracks st) !! snd e = Some k ->
    fst (fst e) = cost_of st det k.

(** What the matching loop has done at each position of the dictionary
    of [st]: nothing, or one update with a detection of the call that
    passed the cost test. *)
Definition match_shape (st : ObjectTracker) (detections : list Detection)
  (ms : MatchState) : Prop :=
  forall j k t, tracks st !! j = Some (k, t) ->
    exists t', tracks (m_tracker ms) !! j = Some (k, t') /\
      (((j ∉ matched_tracks ms) /\ t' = t) \/
       ((j ∈ matched_tracks ms) /\
        exists det, In det detections /\
          t' = update_fields (max_history st) det t /\
          Qltb (cost_of st det k) (7 # 10) = true)).

(** The pair made of the detection at position [i] and the track at
    position [j], of cost [c], has the least triple [(cost, i, j)]
    among the pairs that share its detection or its track. *)
Definition best_pair (st : ObjectTracker) (detections : list Detection)
  (i j : nat) (c : Q) : Prop :=
  forall i' j' det' k' t',
    detections !! i' = Some det' -> tracks st !! j' = Some (k', t') ->
    i' = i \/ j' = j ->
    triple_le (c, i, j) (cost_of st det' k', i', j').

(** [n] frames older. *)
Definition aged_by (n : Z) (track : Track) : Track :=
  {| id := id track; bbox := bbox track; class_id := class_id track;
     confidence := confidence track; history := history track;
     age := age track + n; hits := hits track; velocity := velocity track |}.

(** Bounds that every stored track satisfies. *)
Definition track_bounds (mh : nat) (t : Track) : Prop :=
  (length (history t) <= mh)%nat /\ (length (history t) = 0%nat -> mh = 0%nat) /\
  0 <= age t <= 30 /\ 1 <= hits t.

(** A tracker with two confirmed tracks, the second unmatched for 30
    frames. *)
Definition two_tracks : ObjectTracker :=
  {| tracks :=
       [(1, {| id := 1; bbox := mkBBox 0 0 10 10; class_id := 0; confidence := 9 # 10;
               history := [(5, 5)%Q]; age := 0; hits := 3; velocity := (0, 0)%Q |});
        (2, {| id := 2; bbox := mkBBox 100 100 110 110; class_id := 24;
               confidence := 8 # 10; history := [(105, 105)%Q]; age := 30; hits := 5;
               velocity := (0, 0)%Q |})];
     next_id := 3; max_history := 30; max_age := 30 |}.

(** A person, and in the next frame a backpack detected almost at the
    same place. *)
Definition person_det : Detection :=
  {| det_bbox := mkBBox 0 0 10 10; det_class_id := 0; det_confidence := 9 # 10 |}.

Definition backpack_det : Detection :=
  {| det_bbox := mkBBox 1 0 11 10; det_class_id := 24; det_confidence := 6 # 10 |}.

(** A second person, far from the first, and the detections of the
    next frame: the second person has moved a little, the first hardly. *)
Definition other_det : Detection :=
  {| det_bbox := mkBBox 100 0 110 10; det_class_id := 0; det_confidence := 8 # 10 |}.

Definition next_dets : list Detection :=
  [ {| det_bbox := mkBBox 102 0 112 10; det_class_id := 0; det_confidence := 8 # 10 |};
    backpack_det ].

End TrackerLifeSpec.

Module LabelSpec.
Import Tracker Classifier.

(** The label [classify] stores for a track: the loop body of
    [classify] once the position histories are updated ([c] is the
    classifier after [_update_position_history]). *)
Definition label_of (c : ActivityClassifier) (tracks : list Track) (track : Track)
  : Activity :=
  let activity := _classify_individual_activity c track in
  if bool_decide (activity <> INTERAGINDO) && _check_interactions track tracks
  then INTERAGINDO else activity.

(** The classifier after the calls of [classify] on successive frames,
    numbered from [n]. *)
Fixpoint classifier_after (c : ActivityClassifier) (n : Z) (frames : list (list Track))
  : ActivityClassifier :=
  match frames with
  | [] => c
  | tracks :: rest => classifier_after (fst (classify c tracks n)) (n + 1) rest
  end.

(** Every recorded history has between 1 and [history_size] entries. *)
Definition histories_bounded (c : ActivityClassifier) : Prop :=
  (forall k ps, position_history c !! k = Some ps ->
     (1 <= length ps <= history_size c)%nat) /\
  (forall k acts, activity_history c !! k = Some acts ->
     (1 <= length acts <= history_size c)%nat).

(** All steps of a path are the same vector [v]. *)
Definition constant_step (v : Vec) (ps : list Vec) : Prop :=
  forall i a b, ps !! i = Some a -> ps !! S i = Some b ->
    (fst b - fst a == fst v)%Q /\ (snd b - snd a == snd v)%Q.

(** Twenty positions on a straight line, 3 px right and 1 px down per
    frame. *)
Definition straight_path : list Vec :=
  map (fun i => (inject_Z (3 * Z.of_nat i), inject_Z (Z.of_nat i))) (seq 0 20).

Definition person_at (k : Z) (x y : Z) (v : Vec) : Track :=
  {| id := k;
     bbox := mkBBox (inject_Z (x - 25)) (inject_Z (y - 50))
                    (inject_Z (x + 25)) (inject_Z (y + 50));
     class_id := 0; confidence := 9 # 10; history := []; age := 0; hits := 3;
     velocity := v |}.

Definition near_pair : list Track :=
  [person_at 1 100 100 (0, 0)%Q; person_at 2 150 100 (3, 0)%Q].

End LabelSpec.

Module AnomalyStateSpec.
Import Tracker Classifier Anomaly AnomalySpec Statistics.

(** The entry [state_step] leaves for a track, given the entry [old]
    the id had before (if any). *)
Definition refreshed (timestamp : Q) (track : Track) (old : option TrackState)
  : TrackState :=
  let center := bbox_center (bbox track) in
  let state := default (new_state center timestamp) old in
  {| initial_position := initial_position state;
     max_distance :=
       Qmax (max_distance state) (distsq center (initial_position state));
     first_seen := first_seen state;
     current_position := Some center;
     last_seen := Some timestamp;
     stopped_since :=
       if Qltb (normsq (velocity track)) 4 then
         match stopped_since state with
         | None => Some timestamp
         | Some since => Some since
         end
       else None |}.

(** An entry is stale at [timestamp]. *)
Definition stale (timestamp : Q) (s : TrackState) : bool :=
  Qltb 5 (timestamp - default 0%Q (last_seen s))%Q.

(** The record [_check_crowding] builds for the group [nearby]. *)
Definition crowd_record (frame_number : Z) (timestamp : Q) (nearby : list Track)
  : CrowdAnomaly :=
  {| ca_type := AGLOMERACAO;
     ca_severity := MEDIA;
     ca_frame := frame_number;
     ca_timestamp := timestamp;
     ca_location := mean_center (map (fun p => bbox_center (bbox p)) nearby);
     involved_tracks := map id nearby;
     ca_count := length nearby |}.

(** A well-formed group: at least three persons of the frame, all
    less than 80 px from the first. *)
Definition crowd_group (tracks : list Track) (nearby : list Track) : Prop :=
  (3 <= length nearby)%nat /\
  forall p, In p nearby ->
    In p tracks /\ class_id p = 0 /\
    exists seed, head nearby = Some seed /\ (p = seed \/ within80 seed p).

(** The two history maps cover the same ids, and no velocity history
    is longer than [history_size]. *)
Definition detector_inv (d : AnomalyDetector) : Prop :=
  history_size d = 10%nat /\
  (forall k, is_Some (track_states d !! k) <-> is_Some (velocity_history d !! k)) /\
  (forall k vs, velocity_history d !! k = Some vs -> (1 <= length vs <= 10)%nat).

(** Every logged record carries the severity of its type, and none has
    the type [DIRECAO_PROIBIDA]. *)
Definition severities_fixed (log : list AnomalyRecord) : Prop :=
  forall a, In a log ->
    record_severity a = severity_of (record_type a) /\
    record_type a <> DIRECAO_PROIBIDA.

Definition count_type (ty : AnomalyType) (log : list AnomalyRecord) : nat :=
  length (List.filter (fun a => type_eqb ty (record_type a)) log).

Definition count_severity (sv : Severity) (log : list AnomalyRecord) : nat :=
  length (List.filter (fun a => severity_eqb sv (record_severity a)) log).

(** What a record of the frame [tracks] looks like. *)
Definition record_of_frame (tracks : list Track) (frame_number : Z) (timestamp : Q)
  (a : AnomalyRecord) : Prop :=
  record_frame a = frame_number /\ record_timestamp a = timestamp /\
  record_severity a = severity_of (record_type a) /\
  record_type a <> DIRECAO_PROIBIDA /\
  match a with
  | PerTrack r =>
      ta_type r <> AGLOMERACAO /\
      exists track, In track tracks /\
        r = _create_anomaly (ta_type r) track frame_number timestamp
  | Crowd r =>
      exists nearby, r = crowd_record frame_number timestamp nearby /\
        crowd_group tracks nearby
  end.

(** The anomalies returned by the successive calls. *)
Fixpoint outputs (d : AnomalyDetector) (frames : list Frame) : list (list AnomalyRecord) :=
  match frames with
  | [] => []
  | fr :: frames' => snd (detect_frame d fr) :: outputs (fst (detect_frame d fr)) frames'
  end.

Definition all_types : list AnomalyType :=
  [MOVIMENTO_SUBITO; VELOCIDADE_ANORMAL; PARADA_PROLONGADA; AGLOMERACAO;
   MOVIMENTO_REVERSO; OBJETO_ABANDONADO; DIRECAO_PROIBIDA].

Definition all_severities : list Severity := [BAIXA; MEDIA; ALTA].

Definition sum_over {A} (l : list A) (f : A -> nat) : nat :=
  fold_right (fun x n => (f x + n)%nat) 0%nat l.

(** A suitcase seen standing at video time 0 and again at 11 s, the
    wall clock running with the video. *)
Definition luggage_frames : list Frame :=
  [ {| f_now := 0; f_tracks := [suitcase]; f_activities := {[5 := PARADO]};
       f_number := 0; f_timestamp := 0 |} ].

Definition luggage_later : Frame :=
  {| f_now := 11; f_tracks := [suitcase]; f_activities := {[5 := PARADO]};
     f_number := 330; f_timestamp := 11 |}.

End AnomalyStateSpec.

Module MainSpec.
Import Tracker Classifier Anomaly TrackerSpec AnomalySpec Statistics AnomalyStateSpec Main.

(** The data of a frame fit together. *)
Definition frame_consistent (fps : Q) (fd : FrameData) : Prop :=
  fd_timestamp fd = (inject_Z (fd_frame fd) / fps)%Q /\
  List.NoDup (map id (fd_tracks fd)) /\
  Forall (fun t => 3 <= hits t) (fd_tracks fd) /\
  (forall k, is_Some (fd_activities fd !! k) <-> In k (map id (fd_tracks fd))) /\
  Forall (record_of_frame (fd_tracks fd) (fd_frame fd) (fd_timestamp fd))
         (fd_anomalies fd).

(** Every member of a reported crowd is labelled [INTERAGINDO], and no
    prolonged stop is reported for it. *)
Definition crowd_labelled (fd : FrameData) : Prop :=
  forall r k, In (Crowd r) (fd_anomalies fd) -> In k (involved_tracks r) ->
    fd_activities fd !! k = Some INTERAGINDO /\
    ~ fires PARADA_PROLONGADA k (fd_anomalies fd).

(** The labels and the speed anomalies of a frame agree. *)
Definition speed_consistent (fd : FrameData) : Prop :=
  forall k,
    (fires VELOCIDADE_ANORMAL k (fd_anomalies fd) ->
     fd_activities fd !! k = Some CORRENDO \/
     fd_activities fd !! k = Some COMPORTAMENTO_ERRATICO \/
     fd_activities fd !! k = Some INTERAGINDO) /\
    (fires PARADA_PROLONGADA k (fd_anomalies fd) ->
     fd_activities fd !! k = Some PARADO /\
     (exists track, In track (fd_tracks fd) /\ id track = k /\
                    (normsq (velocity track) < 4)%Q) /\
     ~ fires VELOCIDADE_ANORMAL k (fd_anomalies fd)).

End MainSpec.

(** * Comparisons on rationals *)

Lemma Qltb_lt (a b : Q) : Qltb a b = true <-> (a < b)%Q.
Proof.
  unfold Qltb. rewrite negb_true_iff, <- not_true_iff_false, Qle_bool_iff.
  split; [apply Qnot_le_lt | apply Qlt_not_le].
Qed.

Lemma Qltb_ge (a b : Q) : Qltb a b = false <-> (b <= a)%Q.
Proof.
  unfold Qltb. rewrite negb_false_iff. apply Qle_bool_iff.
Qed.

(** * Properties of the tracker *)

Module TrackerFacts.
Import Tracker TrackerSpec.

(** ** Intersection over union *)

Section IoU.
Local Open Scope Q_scope.

Lemma iou_cases (A B : BBox) :
  let x1_i := Qmax (bx1 A) (bx1 B) in
  let y1_i := Qmax (by1 A) (by1 B) in
  let x2_i := Qmin (bx2 A) (bx2 B) in
  let y2_i := Qmin (by2 A) (by2 B) in
  let inter := (x2_i - x1_i) * (y2_i - y1_i) in
  let union := (bx2 A - bx1 A) * (by2 A - by1 A)
               + (bx2 B - bx1 B) * (by2 B - by1 B) - inter in
  ((x2_i < x1_i \/ y2_i < y1_i) /\ _calculate_iou A B = 0)
  \/ (x1_i <= x2_i /\ y1_i <= y2_i /\ union <= 0 /\ _calculate_iou A B = 0)
  \/ (x1_i <= x2_i /\ y1_i <= y2_i /\ 0 < union /\ _calculate_iou A B = inter / union).
Proof.
  intros. unfold _calculate_iou. fold x1_i y1_i x2_i y2_i. cbv zeta. fold inter. fold union.
  destruct (Qltb x2_i x1_i) eqn:E1; [left; split; auto; left; now apply Qltb_lt|].
  destruct (Qltb y2_i y1_i) eqn:E2; [left; split; auto; right; now apply Qltb_lt|].
  apply Qltb_ge in E1, E2. simpl.
  destruct (Qltb 0 union) eqn:E3.
  - right; right. apply Qltb_lt in E3. auto.
  - right; left. apply Qltb_ge in E3. auto.
Qed.

Lemma Qmax_bounds (a b : Q) : a <= Qmax a b /\ b <= Qmax a b /\ (Qmax a b == a \/ Qmax a b == b).
Proof.
  destruct (Q.max_spec a b) as [[H1 H2]|[H1 H2]]; rewrite H2; repeat split; try lra.
Qed.

Lemma Qmin_bounds (a b : Q) : Qmin a b <= a /\ Qmin a b <= b /\ (Qmin a b == a \/ Qmin a b == b).
Proof.
  destruct (Q.min_spec a b) as [[H1 H2]|[H1 H2]]; rewrite H2; repeat split; try lra.
Qed.

Lemma iou_range (A B : BBox) : 0 <= _calculate_iou A B <= 1.
Proof.
  pose proof (iou_cases A B) as H. cbv zeta in H.
  destruct (Qmax_bounds (bx1 A) (bx1 B)) as (X1 & X2 & _).
  destruct (Qmax_bounds (by1 A) (by1 B)) as (Y1 & Y2 & _).
  destruct (Qmin_bounds (bx2 A) (bx2 B)) as (X3 & X4 & _).
  destruct (Qmin_bounds (by2 A) (by2 B)) as (Y3 & Y4 & _).
  set (x1_i := Qmax (bx1 A) (bx1 B)) in *. set (y1_i := Qmax (by1 A) (by1 B)) in *.
  set (x2_i := Qmin (bx2 A) (bx2 B)) in *. set (y2_i := Qmin (by2 A) (by2 B)) in *.
  destruct H as [[_ ->]|[(_ & _ & _ & ->)|(Hx & Hy & Hu & ->)]]; try (split; lra).
  assert (0 <= (x2_i - x1_i) * (y2_i - y1_i)) by nra.
  assert ((x2_i - x1_i) * (y2_i - y1_i) <= (bx2 A - bx1 A) * (by2 A - by1 A)) by nra.
  assert ((x2_i - x1_i) * (y2_i - y1_i) <= (bx2 B - bx1 B) * (by2 B - by1 B)) by nra.
  split.
  - apply Qle_shift_div_l; [assumption | lra].
  - apply Qle_shift_div_r; [assumption | lra].
Qed.

Lemma iou_sym (A B : BBox) : _calculate_iou A B == _calculate_iou B A.
Proof.
  pose proof (iou_cases A B) as H. pose proof (iou_cases B A) as H'. cbv zeta in H, H'.
  pose proof (Q.max_comm (bx1 A) (bx1 B)) as Cx1.
  pose proof (Q.max_comm (by1 A) (by1 B)) as Cy1.
  pose proof (Q.min_comm (bx2 A) (bx2 B)) as Cx2.
  pose proof (Q.min_comm (by2 A) (by2 B)) as Cy2.
  set (x1_i := Qmax (bx1 A) (bx1 B)) in *. set (y1_i := Qmax (by1 A) (by1 B)) in *.
  set (x2_i := Qmin (bx2 A) (bx2 B)) in *. set (y2_i := Qmin (by2 A) (by2 B)) in *.
  set (x1_j := Qmax (bx1 B) (bx1 A)) in *. set (y1_j := Qmax (by1 B) (by1 A)) in *.
  set (x2_j := Qmin (bx2 B) (bx2 A)) in *. set (y2_j := Qmin (by2 B) (by2 A)) in *.
  destruct H as [[G ->]|[(Gx & Gy & Gu & ->)|(Gx & Gy & Gu & ->)]];
  destruct H' as [[G' ->]|[(Gx' & Gy' & Gu' & ->)|(Gx' & Gy' & Gu' & ->)]];
    try reflexivity; try (exfalso; rewrite Cx1, Cy1, Cx2, Cy2 in *; lra).
  rewrite Cx1, Cy1, Cx2, Cy2.
  apply Qdiv_comp; [reflexivity | ring].
Qed.

Lemma iou_self (A : BBox) : bx1 A < bx2 A -> by1 A < by2 A -> _calculate_iou A A == 1.
Proof.
  intros Hx Hy. pose proof (iou_cases A A) as H. cbv zeta in H.
  pose proof (Q.max_id (bx1 A)) as Ex1. pose proof (Q.max_id (by1 A)) as Ey1.
  pose proof (Q.min_id (bx2 A)) as Ex2. pose proof (Q.min_id (by2 A)) as Ey2.
  set (x1_i := Qmax (bx1 A) (bx1 A)) in *. set (y1_i := Qmax (by1 A) (by1 A)) in *.
  set (x2_i := Qmin (bx2 A) (bx2 A)) in *. set (y2_i := Qmin (by2 A) (by2 A)) in *.
  assert (0 < (bx2 A - bx1 A) * (by2 A - by1 A)) by nra.
  destruct H as [[G _]|[(Gx & Gy & Gu & _)|(Gx & Gy & Gu & ->)]].
  - exfalso. lra.
  - exfalso. rewrite Ex1, Ey1, Ex2, Ey2 in Gu. lra.
  - rewrite Ex1, Ey1, Ex2, Ey2 in *. field. lra.
Qed.

Lemma iou_disjoint (A B : BBox) : ~ boxes_overlap A B -> _calculate_iou A B == 0.
Proof.
  intros Hno. pose proof (iou_cases A B) as H. cbv zeta in H.
  destruct (Qmax_bounds (bx1 A) (bx1 B)) as (X1 & X2 & _).
  destruct (Qmax_bounds (by1 A) (by1 B)) as (Y1 & Y2 & _).
  destruct (Qmin_bounds (bx2 A) (bx2 B)) as (X3 & X4 & _).
  destruct (Qmin_bounds (by2 A) (by2 B)) as (Y3 & Y4 & _).
  set (x1_i := Qmax (bx1 A) (bx1 B)) in *. set (y1_i := Qmax (by1 A) (by1 B)) in *.
  set (x2_i := Qmin (bx2 A) (bx2 B)) in *. set (y2_i := Qmin (by2 A) (by2 B)) in *.
  destruct H as [[_ ->]|[(_ & _ & _ & ->)|(Hx & Hy & Hu & ->)]]; try reflexivity.
  assert (Hz : x2_i - x1_i == 0 \/ y2_i - y1_i == 0).
  { destruct (Qlt_le_dec x1_i x2_i) as [Lx|Lx]; [|left; lra].
    destruct (Qlt_le_dec y1_i y2_i) as [Ly|Ly]; [|right; lra].
    exfalso. apply Hno. unfold boxes_overlap. repeat split; lra. }
  assert (Hi : (x2_i - x1_i) * (y2_i - y1_i) == 0) by (destruct Hz as [-> | ->]; ring).
  rewrite Hi. field. lra.
Qed.
(** C7 (amended).  [_calculate_iou] is symmetric and lies in [0, 1] for
    every pair of boxes; it is 1 on identical boxes of positive width and
    height; it is 0 on boxes that do not overlap. *)
Theorem iou_properties (A B : BBox) :
  _calculate_iou A B == _calculate_iou B A /\
  0 <= _calculate_iou A B <= 1 /\
  (bx1 A < bx2 A -> by1 A < by2 A -> _calculate_iou A A == 1) /\
  (~ boxes_overlap A B -> _calculate_iou A B == 0).
Proof.
  split; [apply iou_sym|]. split; [apply iou_range|].
  split; [apply iou_self | apply iou_disjoint].
Qed.

Lemma iou_properties_witness :
  _calculate_iou (mkBBox 0 0 10 10) (mkBBox 0 0 10 10) == 1 /\
  _calculate_iou (mkBBox 0 0 10 10) (mkBBox 20 20 30 30) == 0.
Proof.
  destruct (iou_properties (mkBBox 0 0 10 10) (mkBBox 20 20 30 30)) as (_ & _ & Hself & Hdis).
  split.
  - apply Hself; reflexivity.
  - apply Hdis. unfold boxes_overlap. simpl. intros (_ & H & _). discriminate H.
Defined.

(** C7, as stated, fails on a box without area: the guard [union > 0]
    sends [IoU(A, A)] to 0. *)
Lemma iou_degenerate_box :
  _calculate_iou (mkBBox 3 4 3 9) (mkBBox 3 4 3 9) == 0 /\
  ~ _calculate_iou (mkBBox 3 4 3 9) (mkBBox 3 4 3 9) == 1.
Proof. split; [reflexivity | discriminate]. Qed.

End IoU.

(** ** Identifiers *)

Lemma ids_from_app (s : Z) (n m : nat) :
  ids_from s (n + m) = ids_from s n ++ ids_from (s + Z.of_nat n) m.
Proof.
  revert s. induction n as [|n IH]; intros s; simpl.
  - now rewrite Z.add_0_r.
  - rewrite IH. do 3 f_equal. lia.
Qed.

Lemma ids_from_bounds (s : Z) (n : nat) (k : Z) :
  In k (ids_from s n) <-> s <= k < s + Z.of_nat n.
Proof.
  revert s. induction n as [|n IH]; intros s; simpl.
  - lia.
  - rewrite IH. lia.
Qed.

Lemma ids_from_sorted (s : Z) (n : nat) : StronglySorted Z.lt (ids_from s n).
Proof.
  revert s. induction n as [|n IH]; intros s; simpl; constructor.
  - apply IH.
  - apply List.Forall_forall. intros k Hk. apply ids_from_bounds in Hk. lia.
Qed.

Lemma ids_from_length (s : Z) (n : nat) : length (ids_from s n) = n.
Proof. revert s. induction n as [|n IH]; intros s; simpl; auto. Qed.

(** ** Dictionary lemmas *)

Lemma dict_set_fresh {V} (k : Z) (v : V) (d : list (Z * V)) :
  ~ In k (dict_keys d) -> dict_set k v d = d ++ [(k, v)].
Proof.
  induction d as [|[k' v'] d IH]; simpl; intros Hk; [reflexivity|].
  destruct (Z.eqb_spec k k') as [->|Hne]; [tauto|].
  rewrite IH; tauto.
Qed.

Lemma dict_alter_keys {V} (f : V -> V) (k : Z) (d : list (Z * V)) :
  dict_keys (dict_alter f k d) = dict_keys d.
Proof.
  induction d as [|[k' v'] d IH]; simpl; [reflexivity|].
  destruct (Z.eqb k k'); simpl; [reflexivity|]. now rewrite IH.
Qed.

Lemma dict_alter_insert {V} (f : V -> V) (k : Z) (v : V) (d : list (Z * V)) (j : nat) :
  List.NoDup (dict_keys d) -> d !! j = Some (k, v) ->
  dict_alter f k d = <[j := (k, f v)]> d.
Proof.
  revert j. induction d as [|[k' v'] d IH]; intros j Hnd Hj; [discriminate|].
  simpl in Hnd. apply List.NoDup_cons_iff in Hnd as [Hk' Hnd].
  destruct j as [|j]; simpl in *.
  - injection Hj as -> ->. now rewrite Z.eqb_refl.
  - destruct (Z.eqb_spec k k') as [->|Hne].
    + exfalso. apply Hk'. apply list_elem_of_lookup_2, list_elem_of_In in Hj.
      apply (in_map fst) in Hj. exact Hj.
    + f_equal. now apply IH.
Qed.

Lemma dict_del_incl {V} (k : Z) (d : list (Z * V)) (e : Z * V) :
  In e (dict_del k d) -> In e d.
Proof.
  induction d as [|[k' v'] d IH]; simpl; [tauto|].
  destruct (Z.eqb k k'); simpl; tauto.
Qed.

(** ** Well-formed trackers *)

Lemma wf_fresh (st : ObjectTracker) (k : Z) :
  wf st -> next_id st <= k -> ~ In k (dict_keys (tracks st)).
Proof.
  intros [_ Hlt] Hk Hin. apply in_map_iff in Hin as [[k' t] [<- Hin]].
  apply Hlt in Hin. simpl in *. lia.
Qed.

Lemma fresh_entries_keys (mh : nat) (s : Z) (ds : list Detection) :
  dict_keys (fresh_entries mh s ds) = ids_from s (length ds).
Proof.
  revert s. induction ds as [|det ds IH]; intros s; simpl; [reflexivity|].
  now rewrite IH.
Qed.

Lemma fresh_entries_In (mh : nat) (s : Z) (ds : list Detection) (k : Z) (t : Track) :
  In (k, t) (fresh_entries mh s ds) ->
  id t = k /\ hits t = 1 /\ age t = 0 /\ s <= k < s + Z.of_nat (length ds).
Proof.
  revert s. induction ds as [|det ds IH]; intros s; simpl; [tauto|].
  intros [Heq|Hin].
  - injection Heq as <- <-. simpl. repeat split; lia.
  - apply IH in Hin. intuition lia.
Qed.

Lemma wf_app_fresh (st : ObjectTracker) (news : list (Z * Track)) (n : Z) :
  wf st -> next_id st <= n ->
  List.NoDup (dict_keys news) ->
  (forall k t, In (k, t) news -> id t = k /\ next_id st <= k < n) ->
  wf {| tracks := tracks st ++ news; next_id := n;
        max_history := max_history st; max_age := max_age st |}.
Proof.
  intros Hwf Hn Hnd Hnew. split; simpl.
  - unfold dict_keys. rewrite map_app. apply List.NoDup_app.
    + apply Hwf.
    + exact Hnd.
    + intros k Hk Hk'. apply in_map_iff in Hk' as [[k' t] [<- Hin]].
      apply Hnew in Hin. revert Hk. apply wf_fresh; [exact Hwf | simpl; lia].
  - intros k t Hin. apply in_app_iff in Hin as [Hin|Hin].
    + destruct Hwf as [_ Hlt]. pose proof (Hlt _ _ Hin) as [? ?]. split; [assumption|lia].
    + apply Hnew in Hin. intuition lia.
Qed.

Lemma ids_from_NoDup (s : Z) (n : nat) : List.NoDup (ids_from s n).
Proof.
  revert s. induction n as [|n IH]; intros s; simpl; constructor; [|apply IH].
  intros Hin. apply ids_from_bounds in Hin. lia.
Qed.

Lemma create_track_fresh (st : ObjectTracker) (det : Detection) :
  wf st ->
  _create_track st det =
    ({| tracks := tracks st ++ [(next_id st, fresh_track (max_history st) (next_id st) det)];
        next_id := next_id st + 1;
        max_history := max_history st; max_age := max_age st |}, next_id st).
Proof.
  intros Hwf. unfold _create_track.
  rewrite dict_set_fresh by (apply wf_fresh; [exact Hwf | lia]). reflexivity.
Qed.

Lemma create_all_cons (st : ObjectTracker) (log : list Z) (det : Detection)
  (ds : list Detection) :
  create_all st log (det :: ds) =
    create_all (fst (_create_track st det)) (log ++ [snd (_create_track st det)]) ds.
Proof. unfold create_all. simpl. now destruct (_create_track st det). Qed.

Lemma create_all_spec (ds : list Detection) (st : ObjectTracker) (log : list Z) :
  wf st ->
  create_all st log ds =
    ({| tracks := tracks st ++ fresh_entries (max_history st) (next_id st) ds;
        next_id := next_id st + Z.of_nat (length ds);
        max_history := max_history st; max_age := max_age st |},
     log ++ ids_from (next_id st) (length ds)).
Proof.
  revert st log. induction ds as [|det ds IH]; intros st log Hwf.
  - unfold create_all. simpl. rewrite !app_nil_r, Z.add_0_r. now destruct st.
  - rewrite create_all_cons, create_track_fresh by exact Hwf. cbn [fst snd].
    rewrite IH.
    + cbn [tracks next_id max_history max_age length fresh_entries ids_from].
      rewrite <- !app_assoc, Nat2Z.inj_succ. cbn [app].
      replace (next_id st + 1 + Z.of_nat (length ds))
        with (next_id st + Z.succ (Z.of_nat (length ds))) by lia.
      reflexivity.
    + apply (wf_app_fresh st [(next_id st, _)] (next_id st + 1)); [exact Hwf | lia | |].
      * simpl. constructor; [simpl; tauto | constructor].
      * intros k t [Heq|[]]. injection Heq as <- <-. simpl. lia.
Qed.

Lemma create_all_wf (ds : list Detection) (st : ObjectTracker) (log : list Z) :
  wf st -> wf (fst (create_all st log ds)).
Proof.
  intros Hwf. rewrite create_all_spec by exact Hwf. cbn [fst].
  apply wf_app_fresh; [exact Hwf | lia | |].
  - rewrite fresh_entries_keys. apply ids_from_NoDup.
  - intros k t Hin. apply fresh_entries_In in Hin. intuition lia.
Qed.

(** ** The matching loop *)

Lemma lookup_map {A B} (f : A -> B) (l : list A) (i : nat) :
  map f l !! i = option_map f (l !! i).
Proof.
  revert i. induction l as [|a l IH]; intros [|i]; simpl; auto.
Qed.

Lemma In_lookup {A} (l : list A) (x : A) : In x l <-> exists i, l !! i = Some x.
Proof. rewrite <- list_elem_of_In. apply list_elem_of_lookup. Qed.

Lemma match_step_inv (st : ObjectTracker) (detections : list Detection)
  (ms : MatchState) (entry : Q * nat * nat) :
  List.NoDup (dict_keys (tracks st)) ->
  match_inv st ms ->
  match_inv st (match_step detections (dict_keys (tracks st)) ms entry).
Proof.
  intros Hnd Hinv. destruct entry as [[cost det_idx] track_idx]. unfold match_step.
  destruct (bool_decide (det_idx ∈ matched_detections ms)
            || bool_decide (track_idx ∈ matched_tracks ms)) eqn:Hseen; [exact Hinv|].
  destruct (Qltb cost (7 # 10)); [|exact Hinv].
  destruct (dict_keys (tracks st) !! track_idx) as [track_id|] eqn:Hid; [|exact Hinv].
  destruct (detections !! det_idx) as [det|]; [|exact Hinv].
  apply orb_false_iff in Hseen as [_ Hnot]. apply bool_decide_eq_false in Hnot.
  unfold dict_keys in Hid. rewrite lookup_map in Hid.
  destruct (tracks st !! track_idx) as [[k t]|] eqn:Hst; [|discriminate].
  simpl in Hid. injection Hid as ->.
  destruct Hinv as (Hn & Hmh & Hma & Hkeys & Hall).
  destruct (Hall _ _ _ Hst) as (t' & Hms & Hidt & Hsame).
  rewrite bool_decide_eq_false_2 in Hsame by exact Hnot. subst t'.
  assert (Halter : dict_alter (update_fields (max_history (m_tracker ms)) det) track_id
                     (tracks (m_tracker ms))
                   = <[track_idx := (track_id, update_fields (max_history (m_tracker ms)) det t)]>
                       (tracks (m_tracker ms))).
  { apply dict_alter_insert; [now rewrite Hkeys | exact Hms]. }
  unfold match_inv, _update_track. cbn [m_tracker matched_tracks tracks next_id max_history max_age].
  rewrite dict_alter_keys. repeat split; try assumption.
  intros j k' t0 Hj. rewrite Halter.
  destruct (Nat.eq_dec j track_idx) as [->|Hne].
  - rewrite Hst in Hj. injection Hj as <- <-.
    exists (update_fields (max_history (m_tracker ms)) det t). split; [|split].
    + apply list_lookup_insert_eq. eapply lookup_lt_Some. exact Hms.
    + reflexivity.
    + rewrite bool_decide_eq_true_2 by set_solver. split; reflexivity.
  - destruct (Hall _ _ _ Hj) as (t1 & Hj1 & Hid1 & Hs1).
    exists t1. split; [|split].
    + rewrite list_lookup_insert_ne by congruence. exact Hj1.
    + exact Hid1.
    + destruct (bool_decide (j ∈ matched_tracks ms)) eqn:Hm.
      * apply bool_decide_eq_true in Hm.
        rewrite bool_decide_eq_true_2 by set_solver. exact Hs1.
      * apply bool_decide_eq_false in Hm.
        rewrite bool_decide_eq_false_2 by set_solver. exact Hs1.
Qed.

Lemma match_loop_inv (st : ObjectTracker) (detections : list Detection)
  (entries : list (Q * nat * nat)) (ms : MatchState) :
  List.NoDup (dict_keys (tracks st)) ->
  match_inv st ms ->
  match_inv st (fold_left (match_step detections (dict_keys (tracks st))) entries ms).
Proof.
  intros Hnd. revert ms. induction entries as [|e entries IH]; intros ms Hinv; simpl.
  - exact Hinv.
  - apply IH. now apply match_step_inv.
Qed.

Lemma match_inv_init (st : ObjectTracker) :
  match_inv st {| m_tracker := st; matched_tracks := ∅; matched_detections := ∅ |}.
Proof.
  unfold match_inv. simpl. repeat split; try reflexivity.
  intros j k t Hj. exists t. rewrite bool_decide_eq_false_2 by set_solver. auto.
Qed.

(** Consequence for the entries: each one sits at the position of an
    entry of [st] with the same key. *)
Lemma match_inv_In (st : ObjectTracker) (ms : MatchState) (k : Z) (t' : Track) :
  match_inv st ms -> In (k, t') (tracks (m_tracker ms)) ->
  exists j t, tracks st !! j = Some (k, t) /\ id t' = id t /\
    (((j ∈ matched_tracks ms) /\ hits t' = hits t + 1 /\ age t' = 0)
     \/ ((j ∉ matched_tracks ms) /\ t' = t)).
Proof.
  intros (_ & _ & _ & Hkeys & Hall) Hin.
  apply In_lookup in Hin as [j Hj].
  assert (Hlen : (j < length (tracks st))%nat).
  { apply lookup_lt_Some in Hj. apply (f_equal (@length Z)) in Hkeys.
    unfold dict_keys in Hkeys. rewrite !length_map in Hkeys. lia. }
  apply lookup_lt_is_Some in Hlen as [[k0 t0] H0].
  destruct (Hall _ _ _ H0) as (t1 & Hj1 & Hid1 & Hs1).
  rewrite Hj in Hj1. injection Hj1 as -> ->.
  exists j, t0. split; [exact H0|]. split; [exact Hid1|].
  destruct (bool_decide (j ∈ matched_tracks ms)) eqn:Hm.
  - left. apply bool_decide_eq_true in Hm. tauto.
  - right. apply bool_decide_eq_false in Hm. tauto.
Qed.

(** ** The creation and ageing loops, the cleanup *)

Lemma create_step_fold (matched : gset nat) (es : list (nat * Detection))
  (st : ObjectTracker) (log : list Z) :
  fold_left (create_step matched) es (st, log) =
    create_all st log
      (map snd (List.filter (fun e => negb (bool_decide (fst e ∈ matched))) es)).
Proof.
  revert st log. induction es as [|[i det] es IH]; intros st log; [reflexivity|].
  cbn [fold_left List.filter fst]. unfold create_step at 2.
  destruct (bool_decide (i ∈ matched)); cbn [negb map snd fst].
  - apply IH.
  - rewrite create_all_cons. destruct (_create_track st det) as [st' tid]. apply IH.
Qed.

Lemma dict_alter_In {V} (f : V -> V) (k0 : Z) (d : list (Z * V)) (k : Z) (v' : V) :
  List.NoDup (dict_keys d) -> In (k, v') (dict_alter f k0 d) ->
  exists v, In (k, v) d /\ v' = if Z.eqb k k0 then f v else v.
Proof.
  induction d as [|[k1 v1] d IH]; simpl; intros Hnd Hin; [tauto|].
  apply List.NoDup_cons_iff in Hnd as [Hk1 Hnd].
  destruct (Z.eqb_spec k0 k1) as [->|Hne]; simpl in Hin.
  - destruct Hin as [Heq|Hin].
    + injection Heq as <- <-. exists v1. rewrite Z.eqb_refl. auto.
    + exists v'. split; [now right|].
      destruct (Z.eqb_spec k k1) as [->|_]; [|reflexivity].
      exfalso. apply Hk1. apply in_map_iff. exists (k1, v'). auto.
  - destruct Hin as [Heq|Hin].
    + injection Heq as <- <-. exists v1. split; [now left|].
      destruct (Z.eqb_spec k1 k0); [congruence | reflexivity].
    + destruct (IH Hnd Hin) as (v & Hv & Heq). exists v. split; [now right | exact Heq].
Qed.

Lemma age_loop_keys (matched : gset nat) (es : list (nat * Z)) (st : ObjectTracker) :
  fold_left (age_step matched) es st =
    {| tracks := fold_left (fun d k => dict_alter age_incr k d) (aged_keys matched es) (tracks st);
       next_id := next_id st; max_history := max_history st; max_age := max_age st |}.
Proof.
  revert st. induction es as [|[j track_id] es IH]; intros st.
  - simpl. now destruct st.
  - unfold aged_keys in *. cbn [fold_left List.filter fst age_step].
    destruct (bool_decide (j ∈ matched)); cbn [negb map snd fold_left]; rewrite IH; reflexivity.
Qed.

Lemma age_many (ks : list Z) (d : list (Z * Track)) (k : Z) (t' : Track) :
  List.NoDup ks -> List.NoDup (dict_keys d) ->
  In (k, t') (fold_left (fun d k => dict_alter age_incr k d) ks d) ->
  exists t, In (k, t) d /\
    ((In k ks /\ t' = age_incr t) \/ (~ In k ks /\ t' = t)).
Proof.
  revert d. induction ks as [|k0 ks IH]; intros d Hks Hnd Hin; simpl in *.
  - exists t'. tauto.
  - apply List.NoDup_cons_iff in Hks as [Hk0 Hks].
    apply IH in Hin; [|exact Hks | now rewrite dict_alter_keys].
    destruct Hin as (t1 & Hin1 & Hcase).
    apply dict_alter_In in Hin1 as (t & Hin0 & Heq); [|exact Hnd].
    exists t. split; [exact Hin0|].
    destruct (Z.eqb_spec k k0) as [->|Hne].
    + left. split; [now left|]. destruct Hcase as [[Hin _]|[_ ->]]; [tauto | exact Heq].
    + subst t1. destruct Hcase as [[Hin ->]|[Hnin ->]]; [left | right]; split; auto.
      intros [Heq|Hin]; [congruence | tauto].
Qed.

Lemma age_many_keys (ks : list Z) (d : list (Z * Track)) :
  dict_keys (fold_left (fun d k => dict_alter age_incr k d) ks d) = dict_keys d.
Proof.
  revert d. induction ks as [|k0 ks IH]; intros d; simpl; [reflexivity|].
  now rewrite IH, dict_alter_keys.
Qed.

Lemma combine_seq_In {A} (l : list A) (s j : nat) (x : A) :
  In (j, x) (combine (seq s (length l)) l)
  <-> (s <= j)%nat /\ l !! (j - s)%nat = Some x.
Proof.
  revert s. induction l as [|a l IH]; intros s; simpl.
  - split; [tauto | intros [_ H]; discriminate].
  - rewrite IH. split.
    + intros [Heq|[Hle Hl]].
      * injection Heq as -> ->. rewrite Nat.sub_diag. auto.
      * split; [lia|]. replace (j - s)%nat with (S (j - S s)) by lia. exact Hl.
    + intros [Hle Hl]. destruct (Nat.eq_dec s j) as [->|Hne].
      * rewrite Nat.sub_diag in Hl. simpl in Hl. injection Hl as ->. now left.
      * right. split; [lia|]. replace (j - s)%nat with (S (j - S s)) in Hl by lia.
        exact Hl.
Qed.

Lemma enumerate_In {A} (l : list A) (j : nat) (x : A) :
  In (j, x) (enumerate l) <-> l !! j = Some x.
Proof.
  unfold enumerate. rewrite combine_seq_In, Nat.sub_0_r. intuition lia.
Qed.

Lemma combine_seq_snd {A} (l : list A) (s : nat) :
  map snd (combine (seq s (length l)) l) = l.
Proof.
  revert s. induction l as [|a l IH]; intros s; simpl; [reflexivity|]. now rewrite IH.
Qed.

Lemma filter_snd_NoDup {A B} (p : A * B -> bool) (es : list (A * B)) :
  List.NoDup (map snd es) -> List.NoDup (map snd (List.filter p es)).
Proof.
  induction es as [|e es IH]; simpl; intros Hnd; [constructor|].
  apply List.NoDup_cons_iff in Hnd as [He Hnd].
  destruct (p e); simpl; [|now apply IH].
  constructor; [|now apply IH].
  intros Hin. apply He. apply in_map_iff in Hin as [e' [Heq Hin]].
  apply filter_In in Hin as [Hin _]. apply in_map_iff. eauto.
Qed.

Lemma aged_keys_NoDup (matched : gset nat) (l : list Z) :
  List.NoDup l -> List.NoDup (aged_keys matched (enumerate l)).
Proof.
  intros Hnd. apply filter_snd_NoDup. unfold enumerate. now rewrite combine_seq_snd.
Qed.

Lemma aged_keys_In (matched : gset nat) (l : list Z) (k : Z) :
  In k (aged_keys matched (enumerate l)) <-> exists j, l !! j = Some k /\ j ∉ matched.
Proof.
  unfold aged_keys. rewrite in_map_iff. split.
  - intros [[j k'] [Heq Hin]]. simpl in Heq. subst k'.
    apply filter_In in Hin as [Hin Hm]. apply enumerate_In in Hin.
    simpl in Hm. apply negb_true_iff, bool_decide_eq_false in Hm. eauto.
  - intros (j & Hj & Hm). exists (j, k). split; [reflexivity|].
    apply filter_In. split; [now apply enumerate_In|].
    simpl. now apply negb_true_iff, bool_decide_eq_false.
Qed.

Lemma NoDup_lookup_inj {A} (l : list A) (i j : nat) (x : A) :
  List.NoDup l -> l !! i = Some x -> l !! j = Some x -> i = j.
Proof.
  intros Hnd. apply NoDup_ListNoDup in Hnd. now apply NoDup_lookup.
Qed.

Lemma dict_del_keys_incl {V} (k k0 : Z) (d : list (Z * V)) :
  In k0 (dict_keys (dict_del k d)) -> In k0 (dict_keys d).
Proof.
  induction d as [|[k' v'] d IH]; simpl; [tauto|].
  destruct (Z.eqb k k'); simpl; tauto.
Qed.

Lemma dict_del_NoDup {V} (k : Z) (d : list (Z * V)) :
  List.NoDup (dict_keys d) -> List.NoDup (dict_keys (dict_del k d)).
Proof.
  induction d as [|[k' v'] d IH]; simpl; intros Hnd; [constructor|].
  apply List.NoDup_cons_iff in Hnd as [Hk Hnd].
  destruct (Z.eqb k k'); simpl; [exact Hnd|].
  constructor; [|now apply IH].
  intros Hin. apply Hk. eapply dict_del_keys_incl. exact Hin.
Qed.

Lemma cleanup_spec (st : ObjectTracker) :
  let st' := _cleanup_tracks st in
  next_id st' = next_id st /\ max_history st' = max_history st /\
  max_age st' = max_age st /\
  (forall e, In e (tracks st') -> In e (tracks st)) /\
  (List.NoDup (dict_keys (tracks st)) -> List.NoDup (dict_keys (tracks st'))).
Proof.
  unfold _cleanup_tracks. cbn [tracks next_id max_history max_age].
  repeat split.
  - generalize (dict_keys (List.filter (fun kv => max_age st <? age (snd kv)) (tracks st))).
    intros l. generalize (tracks st). induction l as [|k l IH]; intros d e; simpl; [tauto|].
    intros Hin. apply IH in Hin. eapply dict_del_incl. exact Hin.
  - generalize (dict_keys (List.filter (fun kv => max_age st <? age (snd kv)) (tracks st))).
    intros l. generalize (tracks st). induction l as [|k l IH]; intros d Hnd; simpl; [exact Hnd|].
    apply IH. now apply dict_del_NoDup.
Qed.

Lemma cleanup_wf (st : ObjectTracker) : wf st -> wf (_cleanup_tracks st).
Proof.
  intros [Hnd Hlt]. destruct (cleanup_spec st) as (Hn & _ & _ & Hincl & Hnd').
  split; [now apply Hnd'|]. intros k t Hin. rewrite Hn. apply Hlt. now apply Hincl.
Qed.

Lemma cleanup_young (st : ObjectTracker) :
  (forall k t, In (k, t) (tracks st) -> age t <= max_age st) ->
  _cleanup_tracks st = st.
Proof.
  intros Hyoung. unfold _cleanup_tracks.
  replace (List.filter (fun kv => max_age st <? age (snd kv)) (tracks st)) with (@nil (Z * Track)).
  - simpl. now destruct st.
  - symmetry. induction (tracks st) as [|[k t] d IH]; [reflexivity|]. simpl.
    destruct (Z.ltb_spec (max_age st) (age t)) as [Hlt|Hge].
    + specialize (Hyoung k t (or_introl eq_refl)). lia.
    + apply IH. intros k' t' Hin. apply (Hyoung k' t'). now right.
Qed.

(** ** One call of [update] *)

Lemma match_inv_wf (st : ObjectTracker) (ms : MatchState) :
  wf st -> match_inv st ms -> wf (m_tracker ms).
Proof.
  intros Hwf Hinv. pose proof Hinv as (Hn & _ & _ & Hkeys & _). split.
  - rewrite Hkeys. apply Hwf.
  - intros k t' Hin. destruct (match_inv_In _ _ _ _ Hinv Hin) as (j & t & Hj & Hid & _).
    assert (Hin0 : In (k, t) (tracks st)) by (apply In_lookup; eauto).
    apply Hwf in Hin0. rewrite Hid, Hn. exact Hin0.
Qed.

Lemma aged_wf (st : ObjectTracker) (ks : list Z) :
  wf st -> List.NoDup ks ->
  wf {| tracks := fold_left (fun d k => dict_alter age_incr k d) ks (tracks st);
        next_id := next_id st; max_history := max_history st; max_age := max_age st |}.
Proof.
  intros [Hnd Hlt] Hks. split; cbn [tracks next_id].
  - now rewrite age_many_keys.
  - intros k t' Hin. apply age_many in Hin as (t & Hin & Hcase); [|exact Hks|exact Hnd].
    apply Hlt in Hin. destruct Hcase as [[_ ->]|[_ ->]]; exact Hin.
Qed.

Lemma associate_spec (st : ObjectTracker) (detections : list Detection) :
  wf st ->
  call_spec st (fst (_associate_detections st detections))
               (snd (_associate_detections st detections)).
Proof.
  intros Hwf. unfold _associate_detections.
  destruct detections as [|det0 dets0].
  - cbn [fst snd]. constructor; cbn [tracks next_id max_history max_age length]; try reflexivity.
    + destruct Hwf as [Hnd Hlt]. split; cbn [tracks next_id].
      * unfold dict_keys in *. rewrite map_map. exact Hnd.
      * intros k t' Hin. apply in_map_iff in Hin as [[k0 t0] [Heq Hin]].
        simpl in Heq. injection Heq as <- <-. apply Hlt in Hin. exact Hin.
    + lia.
    + intros k t' Hin. right. apply in_map_iff in Hin as [[k0 t0] [Heq Hin]].
      simpl in Heq. injection Heq as <- <-. exists t0. split; [exact Hin|]. right. simpl. lia.
  - set (detections := det0 :: dets0).
    set (ms := fold_left (match_step _ _) _ _).
    assert (Hinv : match_inv st ms).
    { apply match_loop_inv; [apply Hwf | apply match_inv_init]. }
    pose proof (match_inv_wf _ _ Hwf Hinv) as Hwf1.
    pose proof Hinv as (Hn & Hmh & Hma & _).
    rewrite create_step_fold.
    set (ds := map snd _).
    pose proof (create_all_wf ds _ [] Hwf1) as Hwf2.
    rewrite create_all_spec in * by exact Hwf1. cbn [fst snd] in *.
    set (st1 := {| tracks := _ ++ _ |}) in *.
    rewrite age_loop_keys.
    assert (Hks : List.NoDup (aged_keys (matched_tracks ms) (enumerate (dict_keys (tracks st)))))
      by (apply aged_keys_NoDup, Hwf).
    constructor; cbn [tracks next_id max_history max_age].
    + now apply aged_wf.
    + simpl. rewrite ids_from_length, Hn. reflexivity.
    + simpl. rewrite ids_from_length. subst st1. simpl. lia.
    + subst st1. simpl. exact Hmh.
    + subst st1. simpl. exact Hma.
    + intros k t' Hin.
      apply age_many in Hin as (t1 & Hin1 & Hcase); [|exact Hks|apply Hwf2].
      subst st1. cbn [tracks] in Hin1. apply in_app_iff in Hin1 as [Hin1|Hin1].
      * right. destruct (match_inv_In _ _ _ _ Hinv Hin1) as (j & t & Hj & _ & Hm).
        exists t. split; [apply In_lookup; eauto|].
        assert (Hkj : dict_keys (tracks st) !! j = Some k).
        { unfold dict_keys. rewrite lookup_map, Hj. reflexivity. }
        destruct Hm as [(Hm & Hh & Ha)|[Hm ->]].
        -- left. destruct Hcase as [[Hin _]|[_ ->]]; [|auto].
           apply aged_keys_In in Hin as (j' & Hj' & Hm').
           assert (j' = j) by (eapply NoDup_lookup_inj; [apply Hwf | exact Hj' | exact Hkj]).
           subst j'. tauto.
        -- right. destruct Hcase as [[_ ->]|[Hnin _]]; [simpl; lia|].
           exfalso. apply Hnin. apply aged_keys_In. eauto.
      * left. pose proof (fresh_entries_In _ _ _ _ _ Hin1) as (_ & Hh1 & Ha1 & Hb).
        assert (Hnew : t' = t1).
        { destruct Hcase as [[Hin _]|[_ ->]]; [|reflexivity].
          apply aged_keys_In in Hin as (j & Hj & _).
          apply list_elem_of_lookup_2, list_elem_of_In in Hj.
          exfalso. revert Hj. apply wf_fresh; [exact Hwf | lia]. }
        subst t'. split; [|auto].
        simpl. apply ids_from_bounds. exact Hb.
Qed.

Lemma update_log_spec (st : ObjectTracker) (detections : list Detection) :
  wf st ->
  call_spec st (fst (fst (update_log st detections)))
               (snd (fst (update_log st detections))).
Proof.
  intros Hwf. unfold update_log.
  assert (Hpre : exists st1 created,
             match tracks st with
             | [] => create_all st [] detections
             | _ :: _ => _associate_detections st detections
             end = (st1, created) /\ call_spec st st1 created).
  { destruct (tracks st) as [|e d] eqn:Htr.
    - eexists _, _. split; [apply create_all_spec; exact Hwf|].
      pose proof (create_all_wf detections st [] Hwf) as Hwf1.
      rewrite create_all_spec in Hwf1 by exact Hwf. cbn [fst] in Hwf1.
      constructor; cbn [tracks next_id max_history max_age app]; try reflexivity.
      + exact Hwf1.
      + now rewrite ids_from_length.
      + now rewrite ids_from_length.
      + rewrite Htr. intros k t' Hin. left.
        apply fresh_entries_In in Hin as (_ & Hh & Ha & Hb).
        split; [|auto]. now apply ids_from_bounds.
    - pose proof (associate_spec st detections Hwf) as Hs.
      destruct (_associate_detections _ _) as [st1 created]. eauto. }
  destruct Hpre as (st1 & created & Heq & Hs). unfold create_all in Heq.
  rewrite Heq. cbn [fst snd].
  destruct (cleanup_spec st1) as (Hn & Hmh & Hma & Hincl & _).
  destruct Hs as [Hwf1 Hc Hnx Hmh1 Hma1 Htr].
  constructor.
  - now apply cleanup_wf.
  - exact Hc.
  - now rewrite Hn.
  - now rewrite Hmh.
  - now rewrite Hma.
  - intros k t' Hin. apply Htr. now apply Hincl.
Qed.

Lemma update_log_active (st : ObjectTracker) (detections : list Detection) :
  snd (update_log st detections)
  = _get_active_tracks (fst (fst (update_log st detections))).
Proof.
  unfold update_log.
  destruct (match tracks st with [] => _ | _ :: _ => _ end) as [st1 created].
  reflexivity.
Qed.

Lemma active_In (st : ObjectTracker) (t : Track) :
  In t (_get_active_tracks st) <->
  (exists k, In (k, t) (tracks st)) /\ 3 <= hits t.
Proof.
  unfold _get_active_tracks, dict_values. rewrite filter_In, in_map_iff.
  rewrite Z.leb_le. split.
  - intros [[[k t'] [Heq Hin]] Hh]. simpl in Heq. subst t'. eauto.
  - intros [[k Hin] Hh]. split; [|exact Hh]. exists (k, t). auto.
Qed.

Lemma update_fst (st : ObjectTracker) (detections : list Detection) :
  update st detections
  = (fst (fst (update_log st detections)), snd (update_log st detections)).
Proof. unfold update. now destruct (update_log st detections) as [[st' created] active]. Qed.

(** ** Sequences of calls *)

Lemma wf_init (mh : nat) : wf (init mh).
Proof. split; simpl; [constructor | tauto]. Qed.

Lemma created_log_spec (frames : list (list Detection)) (st : ObjectTracker) :
  wf st ->
  wf (final st frames) /\
  created_log st frames = ids_from (next_id st) (length (created_log st frames)) /\
  next_id (final st frames)
    = next_id st + Z.of_nat (length (created_log st frames)) /\
  (forall k, In k (dict_keys (tracks (final st frames))) ->
     In k (dict_keys (tracks st)) \/ In k (created_log st frames)).
Proof.
  revert st. induction frames as [|dets frames IH]; intros st Hwf.
  - simpl. rewrite Z.add_0_r. auto.
  - cbn [created_log final fold_left]. rewrite update_fst. cbn [fst].
    destruct (update_log_spec st dets Hwf) as [Hwf1 Hc Hn _ _ Htr].
    set (st1 := fst (fst (update_log st dets))) in *.
    set (created := snd (fst (update_log st dets))) in *.
    destruct (IH st1 Hwf1) as (Hwf2 & Hc2 & Hn2 & Hk2). unfold final in *.
    rewrite length_app.
    split; [exact Hwf2|]. split; [|split].
    + rewrite ids_from_app, <- Hc, <- Hn, <- Hc2. reflexivity.
    + rewrite Hn2, Hn. lia.
    + intros k Hk. apply Hk2 in Hk as [Hk|Hk]; [|right; apply in_app_iff; now right].
      apply in_map_iff in Hk as [[k' t'] [<- Hin]].
      apply Htr in Hin as [[Hin _]|(t & Hin & _)].
      * right. apply in_app_iff. now left.
      * left. apply in_map_iff. exists (k', t). auto.
Qed.

Lemma dict_get_In {V} (k : Z) (v : V) (d : list (Z * V)) :
  List.NoDup (dict_keys d) -> In (k, v) d -> dict_get k d = Some v.
Proof.
  induction d as [|[k' v'] d IH]; simpl; intros Hnd Hin; [tauto|].
  apply List.NoDup_cons_iff in Hnd as [Hk' Hnd].
  destruct Hin as [Heq|Hin].
  - injection Heq as -> ->. now rewrite Z.eqb_refl.
  - destruct (Z.eqb_spec k k') as [->|_]; [|now apply IH].
    exfalso. apply Hk'. apply in_map_iff. exists (k', v). auto.
Qed.

Lemma dict_get_None {V} (k : Z) (d : list (Z * V)) :
  ~ In k (dict_keys d) -> dict_get k d = None.
Proof.
  induction d as [|[k' v'] d IH]; simpl; intros Hk; [reflexivity|].
  destruct (Z.eqb_spec k k') as [->|_]; [tauto|]. apply IH. tauto.
Qed.

Lemma count_seen_snoc (k : Z) (sts : list ObjectTracker) (st : ObjectTracker) :
  count_seen k (sts ++ [st]) = count_seen k sts + (if seen k st then 1 else 0).
Proof.
  unfold count_seen. rewrite List.filter_app, length_app. simpl.
  destruct (seen k st); simpl; lia.
Qed.

Lemma seen_inv_step (pre : list ObjectTracker) (st : ObjectTracker)
  (detections : list Detection) :
  wf st -> seen_inv pre st ->
  seen_inv (pre ++ [fst (update st detections)]) (fst (update st detections)).
Proof.
  intros Hwf [Hold Hnew]. rewrite update_fst. cbn [fst].
  destruct (update_log_spec st detections Hwf) as [Hwf1 Hc Hn _ _ Htr].
  set (st1 := fst (fst (update_log st detections))) in *.
  set (created := snd (fst (update_log st detections))) in *.
  split.
  - intros k t' Hin. rewrite count_seen_snoc. unfold seen.
    rewrite (dict_get_In k t') by (apply Hwf1 || exact Hin).
    apply Htr in Hin as [(Hk & Hh & Ha)|(t & Hin & Hcase)].
    + rewrite Hc in Hk. apply ids_from_bounds in Hk.
      rewrite Hnew by lia. rewrite Ha, Hh. simpl. lia.
    + destruct (Hold _ _ Hin) as [Hh Ha].
      destruct Hcase as [[Hh' Ha']|[Hh' Ha']]; rewrite Ha'.
      * simpl. lia.
      * destruct (Z.eqb_spec (age t + 1) 0); lia.
  - intros k Hk. rewrite count_seen_snoc, Hnew by lia. unfold seen.
    rewrite dict_get_None; [reflexivity|]. apply wf_fresh; [exact Hwf1 | exact Hk].
Qed.

Lemma states_snoc (frames : list (list Detection)) (st : ObjectTracker)
  (detections : list Detection) :
  states st (frames ++ [detections])
  = states st frames ++ [fst (update (final st frames) detections)].
Proof.
  revert st. induction frames as [|d frames IH]; intros st; simpl; [reflexivity|].
  now rewrite IH.
Qed.

Lemma final_snoc (frames : list (list Detection)) (st : ObjectTracker)
  (detections : list Detection) :
  final st (frames ++ [detections]) = fst (update (final st frames) detections).
Proof. unfold final. now rewrite fold_left_app. Qed.

Lemma final_wf_seen (mh : nat) (frames : list (list Detection)) :
  wf (final (init mh) frames) /\
  seen_inv (states (init mh) frames) (final (init mh) frames).
Proof.
  induction frames as [|detections frames IH] using rev_ind.
  - split; [apply wf_init|]. split; simpl; [tauto | reflexivity].
  - destruct IH as [Hwf Hinv]. rewrite states_snoc, final_snoc. split.
    + rewrite update_fst. apply update_log_spec. exact Hwf.
    + now apply seen_inv_step.
Qed.

(** ** The claims on the tracker *)

Lemma filter_map_NoDup {A B} (f : A -> B) (p : A -> bool) (l : list A) :
  List.NoDup (map f l) -> List.NoDup (map f (List.filter p l)).
Proof.
  induction l as [|a l IH]; simpl; intros Hnd; [constructor|].
  apply List.NoDup_cons_iff in Hnd as [Ha Hnd].
  destruct (p a); simpl; [|now apply IH].
  constructor; [|now apply IH].
  intros Hin. apply Ha. apply in_map_iff in Hin as [a' [Heq Hin]].
  apply filter_In in Hin as [Hin _]. apply in_map_iff. eauto.
Qed.

(** The tracks [update] returns have pairwise different ids. *)
Lemma returned_ids_distinct (mh : nat) (frames : list (list Detection))
  (detections : list Detection) :
  List.NoDup (map id (snd (update (final (init mh) frames) detections))).
Proof.
  destruct (final_wf_seen mh frames) as [Hwf _].
  rewrite update_fst. cbn [snd]. rewrite update_log_active.
  destruct (update_log_spec _ detections Hwf) as [[Hnd Hid] _ _ _ _ _].
  set (st' := fst (fst (update_log (final (init mh) frames) detections))) in *.
  unfold _get_active_tracks, dict_values. apply filter_map_NoDup.
  replace (map id (map snd (tracks st'))) with (dict_keys (tracks st')); [exact Hnd|].
  unfold dict_keys. rewrite map_map. apply map_ext_in. intros [k t] Hin.
  simpl. symmetry. now apply Hid.
Qed.

Lemma active_empty (st : ObjectTracker) :
  (forall k t, In (k, t) (tracks st) -> hits t < 3) -> _get_active_tracks st = [].
Proof.
  intros Hlow. destruct (_get_active_tracks st) as [|t l] eqn:Hact; [reflexivity|].
  assert (Hin : In t (_get_active_tracks st)) by (rewrite Hact; now left).
  apply active_In in Hin as [[k Hin] Hh]. apply Hlow in Hin. lia.
Qed.

(** C9.  The first call of [update] on a new tracker stores one track per
    detection, in order, under the ids 1, 2, ..., each with one hit; no
    detection is compared with another, so equal detections get
    different tracks; the call returns the empty list. *)
Theorem first_update_creates_all (mh : nat) (detections : list Detection) :
  tracks (fst (update (init mh) detections)) = fresh_entries mh 1 detections /\
  dict_keys (tracks (fst (update (init mh) detections)))
    = ids_from 1 (length detections) /\
  length (tracks (fst (update (init mh) detections))) = length detections /\
  List.NoDup (dict_keys (tracks (fst (update (init mh) detections)))) /\
  (forall k t, In (k, t) (tracks (fst (update (init mh) detections))) -> hits t = 1) /\
  snd (update (init mh) detections) = [].
Proof.
  rewrite update_fst. cbn [fst snd]. rewrite update_log_active.
  assert (Hst : fst (fst (update_log (init mh) detections))
                = {| tracks := fresh_entries mh 1 detections;
                     next_id := 1 + Z.of_nat (length detections);
                     max_history := mh; max_age := 30 |}).
  { unfold update_log. cbn [tracks init].
    change (fold_left _ detections (_, [])) with (create_all (init mh) [] detections).
    rewrite create_all_spec by apply wf_init. cbn [fst snd tracks init app next_id max_history max_age].
    apply cleanup_young. cbn [tracks max_age]. intros k t Hin.
    apply fresh_entries_In in Hin as (_ & _ & -> & _). lia. }
  rewrite Hst. cbn [tracks].
  split; [reflexivity|]. split; [apply fresh_entries_keys|].
  split; [|split; [|split]].
  - rewrite <- (length_map fst). fold (@dict_keys Track (fresh_entries mh 1 detections)).
    rewrite fresh_entries_keys. apply ids_from_length.
  - rewrite fresh_entries_keys. apply ids_from_NoDup.
  - intros k t Hin. now apply fresh_entries_In in Hin.
  - apply active_empty. cbn [tracks]. intros k t Hin.
    apply fresh_entries_In in Hin as (_ & -> & _). lia.
Qed.

(** C6.  Over any sequence of calls of [update] on a new tracker, the
    ids handed out to new tracks are strictly increasing, hence never
    repeated, whatever was deleted in between; every live track carries
    one of them, and all are below [next_id]. *)
Theorem track_ids_increasing (mh : nat) (frames : list (list Detection)) :
  StronglySorted Z.lt (created_log (init mh) frames) /\
  List.NoDup (created_log (init mh) frames) /\
  (forall k, In k (dict_keys (tracks (final (init mh) frames))) ->
     In k (created_log (init mh) frames)) /\
  (forall k, In k (created_log (init mh) frames) ->
     1 <= k < next_id (final (init mh) frames)).
Proof.
  destruct (created_log_spec frames (init mh) (wf_init mh)) as (Hwf & Hc & Hn & Hk).
  split; [rewrite Hc; apply ids_from_sorted|].
  split; [rewrite Hc; apply ids_from_NoDup|].
  split.
  - intros k Hin. apply Hk in Hin as [Hin|Hin]; [destruct Hin | exact Hin].
  - intros k Hin. rewrite Hc in Hin. apply ids_from_bounds in Hin.
    rewrite Hn. exact Hin.
Qed.

(** C5.  After any sequence of calls, [update] returns exactly the live
    tracks with at least 3 hits; the hit count of a live track is the
    number of calls, over the whole sequence, that created it or matched
    a detection to it; a track created by the call has one hit and is not
    returned by that call. *)
Theorem returned_iff_three_hits (mh : nat) (frames : list (list Detection))
  (detections : list Detection) :
  let st := final (init mh) frames in
  (forall t, In t (snd (update st detections))
             <-> In (id t, t) (tracks (fst (update st detections))) /\ 3 <= hits t) /\
  (forall k t, In (k, t) (tracks (fst (update st detections))) ->
     hits t = count_seen k (states (init mh) (frames ++ [detections]))) /\
  (forall k t, In (k, t) (tracks (fst (update st detections))) ->
     In k (snd (fst (update_log st detections))) ->
     hits t = 1 /\ ~ In t (snd (update st detections))).
Proof.
  intros st. destruct (final_wf_seen mh frames) as [Hwf Hseen]. fold st in Hwf, Hseen.
  pose proof (seen_inv_step _ _ detections Hwf Hseen) as [Hcount _].
  rewrite <- states_snoc in Hcount.
  destruct (update_log_spec st detections Hwf) as [Hwf1 Hc Hn _ _ Htr].
  rewrite update_fst in *. cbn [fst snd] in *. rewrite update_log_active.
  assert (Hiff : forall t, In t (_get_active_tracks (fst (fst (update_log st detections))))
             <-> In (id t, t) (tracks (fst (fst (update_log st detections)))) /\ 3 <= hits t).
  { intros t. rewrite active_In. split.
    - intros [[k Hin] Hh]. split; [|exact Hh].
      destruct Hwf1 as [_ Hid]. destruct (Hid _ _ Hin) as [-> _]. exact Hin.
    - intros [Hin Hh]. eauto. }
  split; [exact Hiff|]. split.
  - intros k t Hin. now apply Hcount.
  - intros k t Hin Hk.
    assert (Hh : hits t = 1).
    { apply Htr in Hin as [(_ & Hh & _)|(t0 & Hin0 & _)]; [exact Hh|].
      rewrite Hc in Hk. apply ids_from_bounds in Hk.
      destruct Hwf as [_ Hlt]. apply Hlt in Hin0. lia. }
    split; [exact Hh|]. rewrite Hiff. lia.
Qed.

End TrackerFacts.

(** * Properties of the anomaly rules *)

Module AnomalyFacts.
Import Tracker Classifier Anomaly TrackerSpec TrackerFacts AnomalySpec.

(** ** Crowding *)

Lemma crowd_records_app (l1 l2 : list AnomalyRecord) :
  crowd_records (l1 ++ l2) = crowd_records l1 ++ crowd_records l2.
Proof. unfold crowd_records. apply flat_map_app. Qed.

Lemma crowd_records_Crowd (l : list CrowdAnomaly) : crowd_records (map Crowd l) = l.
Proof. induction l as [|r l IH]; simpl; [reflexivity | now rewrite IH]. Qed.

Lemma crowd_records_rules (d : AnomalyDetector) (now : Q) (activities : gmap Z Activity)
  (frame_number : Z) (timestamp : Q) (tracks : list Track) :
  crowd_records (flat_map (track_rules d now activities frame_number timestamp) tracks) = [].
Proof.
  induction tracks as [|t tracks IH]; simpl; [reflexivity|].
  rewrite crowd_records_app, IH, app_nil_r. unfold track_rules.
  repeat (rewrite crowd_records_app);
  repeat match goal with |- context [if ?b then _ else _] => destruct b end; reflexivity.
Qed.

Lemma detect_crowd_records (d : AnomalyDetector) (now : Q) (tracks : list Track)
  (activities : gmap Z Activity) (frame_number : Z) (timestamp : Q) :
  crowd_records (snd (detect d now tracks activities frame_number timestamp))
  = _check_crowding tracks frame_number timestamp.
Proof.
  unfold detect. cbn [snd].
  now rewrite crowd_records_app, crowd_records_rules, crowd_records_Crowd.
Qed.

Lemma checked_fold (nearby : list Track) (checked : gset Z) (k : Z) :
  k ∈ fold_left (fun ch person => {[id person]} ∪ ch) nearby checked
  <-> k ∈ checked \/ In k (map id nearby).
Proof.
  revert checked. induction nearby as [|p nearby IH]; intros checked; simpl.
  - tauto.
  - rewrite IH. rewrite elem_of_union, elem_of_singleton. intuition congruence.
Qed.


(** The ids gathered around an unchecked person: none of them checked,
    and pairwise different when the input ids are. *)
Lemma nearby_unchecked (people : list Track) (checked : gset Z) (i : nat) (person1 : Track) :
  id person1 ∉ checked ->
  forall k, In k (map id (nearby_of people checked i person1)) -> k ∉ checked.
Proof.
  intros Hun k. unfold nearby_of. cbn [map].
  set (pred := fun '(j, person2) => _).
  intros [<-|Hin]; [exact Hun|].
  rewrite map_map in Hin. apply in_map_iff in Hin as [[j p2] [Heq Hin]].
  apply filter_In in Hin as [_ Hp]. unfold pred in Hp. simpl in Heq. subst k.
  destruct (Nat.eqb i j); [discriminate|]. simpl in Hp.
  destruct (bool_decide (id p2 ∈ checked)) eqn:Hc; [discriminate|].
  now apply bool_decide_eq_false in Hc.
Qed.

Lemma nearby_NoDup (people : list Track) (checked : gset Z) (i : nat) (person1 : Track) :
  List.NoDup (map id people) -> people !! i = Some person1 ->
  List.NoDup (map id (nearby_of people checked i person1)).
Proof.
  intros Hnd Hi. unfold nearby_of. cbn [map].
  set (pred := fun '(j, person2) => _).
  constructor.
  - rewrite map_map. intros Hin. apply in_map_iff in Hin as [[j p2] [Heq Hin]].
    apply filter_In in Hin as [Hin Hp]. apply enumerate_In in Hin.
    unfold pred in Hp. simpl in Heq.
    destruct (Nat.eqb_spec i j) as [->|Hne]; [discriminate|].
    apply Hne. eapply (NoDup_lookup_inj (map id people)); [exact Hnd | |].
    + rewrite lookup_map, Hi. reflexivity.
    + rewrite lookup_map, Hin. simpl. now rewrite Heq.
  - rewrite map_map. apply filter_map_NoDup.
    rewrite <- map_map. unfold enumerate. now rewrite combine_seq_snd.
Qed.

Lemma crowd_step_inv (people : list Track) (frame_number : Z) (timestamp : Q)
  (acc : gset Z * list CrowdAnomaly) (e : nat * Track) :
  people !! fst e = Some (snd e) ->
  crowd_inv people acc -> crowd_inv people (crowd_step people frame_number timestamp acc e).
Proof.
  intros He (Hch & Hdis & Hnd). destruct acc as [checked found], e as [i person1].
  cbn [fst snd] in *. unfold crowd_step.
  destruct (bool_decide (id person1 ∈ checked)) eqn:Hc; [repeat split; assumption|].
  apply bool_decide_eq_false in Hc.
  pose proof (nearby_unchecked people checked i person1 Hc) as Hnc.
  destruct (Nat.leb crowding_count _); [|repeat split; assumption].
  set (rec := {| ca_type := AGLOMERACAO |}).
  split; [|split]; cbn [fst snd].
  - intros r k Hr Hk. apply checked_fold. apply in_app_iff in Hr as [Hr|[<-|[]]].
    + left. eapply Hch; eauto.
    + right. exact Hk.
  - intros a b r1 r2 k Ha Hb Hk1 Hk2.
    assert (Hold : forall c r, (found ++ [rec]) !! c = Some r -> In k (involved_tracks r) ->
                     (c < length found)%nat /\ found !! c = Some r /\ k ∈ checked
                     \/ c = length found /\ k ∉ checked).
    { intros c r Hc' Hk. destruct (Nat.lt_ge_cases c (length found)) as [Hlt|Hge].
      - left. rewrite lookup_app_l in Hc' by exact Hlt. repeat split; try assumption.
        apply (Hch r k); [|exact Hk]. apply In_lookup. eauto.
      - right. rewrite lookup_app_r in Hc' by exact Hge.
        destruct (c - length found)%nat as [|n] eqn:Hn; [|destruct n; discriminate].
        injection Hc' as <-. split; [lia|]. now apply Hnc. }
    destruct (Hold _ _ Ha Hk1) as [(_ & Ha' & Hka)|[-> Hka]];
    destruct (Hold _ _ Hb Hk2) as [(_ & Hb' & Hkb)|[-> Hkb]];
      try contradiction; [|reflexivity].
    eapply Hdis; eauto.
  - intros Hp r Hr. apply in_app_iff in Hr as [Hr|[<-|[]]]; [now apply Hnd|].
    now apply nearby_NoDup.
Qed.

Lemma crowding_inv (tracks : list Track) (frame_number : Z) (timestamp : Q) :
  let found := _check_crowding tracks frame_number timestamp in
  disjoint_records found /\
  (List.NoDup (map id tracks) -> forall r, In r found -> List.NoDup (involved_tracks r)).
Proof.
  unfold _check_crowding.
  set (people := List.filter _ tracks).
  destruct (Nat.ltb (length people) crowding_count).
  { split; [intros i j r1 r2 k Hi; destruct i; discriminate | intros _ r []]. }
  assert (Hgen : forall es acc,
             (forall e, In e es -> people !! fst e = Some (snd e)) -> crowd_inv people acc ->
             crowd_inv people (fold_left (crowd_step people frame_number timestamp) es acc)).
  { induction es as [|e es IH]; intros acc Hes Hinv; simpl; [exact Hinv|].
    apply IH; [intros e' He'; apply Hes; now right|].
    apply crowd_step_inv; [apply Hes; now left | exact Hinv]. }
  destruct (Hgen (enumerate people) (∅, [])) as (_ & Hdis & Hnd).
  - intros [i p] Hin. now apply enumerate_In.
  - split; [|split]; simpl; [tauto | intros i j r1 r2 k Hi; destruct i; discriminate | tauto].
  - split; [exact Hdis|]. intros Hids. apply Hnd. now apply filter_map_NoDup.
Qed.

(** C10.  In the anomalies of one [detect] call no track id is listed by
    two [AGLOMERACAO] records, and, the ids of the input tracks being
    pairwise different (as they are in the list [update] returns), no
    record lists an id twice. *)
Theorem crowd_records_disjoint (d : AnomalyDetector) (now : Q) (tracks : list Track)
  (activities : gmap Z Activity) (frame_number : Z) (timestamp : Q) :
  (forall i j r1 r2 k,
     crowd_records (snd (detect d now tracks activities frame_number timestamp)) !! i
       = Some r1 ->
     crowd_records (snd (detect d now tracks activities frame_number timestamp)) !! j
       = Some r2 ->
     In k (involved_tracks r1) -> In k (involved_tracks r2) -> i = j) /\
  (List.NoDup (map id tracks) ->
   forall r,
     In r (crowd_records (snd (detect d now tracks activities frame_number timestamp))) ->
     List.NoDup (involved_tracks r)).
Proof.
  rewrite detect_crowd_records.
  destruct (crowding_inv tracks frame_number timestamp) as [Hdis Hnd]. auto.
Qed.

Lemma distsq_sym (a b : Vec) : (distsq a b == distsq b a)%Q.
Proof. unfold distsq, normsq, vsub. simpl. ring. Qed.

Lemma close_true (a b : Track) : within80 a b -> close a b = true /\ close b a = true.
Proof.
  unfold within80, close. intros H. split; apply Qltb_lt; [exact H|].
  now rewrite distsq_sym.
Qed.

Lemma close_false (a b : Track) : ~ within80 a b -> close a b = false /\ close b a = false.
Proof.
  unfold within80, close. intros H. apply Qnot_lt_le in H.
  split; apply Qltb_ge; [exact H|]. now rewrite distsq_sym.
Qed.

Lemma nearby_of_eq (people : list Track) (checked : gset Z) (i : nat) (person1 : Track) :
  nearby_of people checked i person1 =
  person1 :: map snd (List.filter
     (fun e => negb (Nat.eqb i (fst e)) && negb (bool_decide (id (snd e) ∈ checked))
               && close person1 (snd e)) (enumerate people)).
Proof.
  unfold nearby_of. do 2 f_equal. apply List.filter_ext. intros [j p2]. simpl.
  destruct (Nat.eqb i j); simpl; [reflexivity|].
  destruct (bool_decide _); reflexivity.
Qed.

Ltac crowd_sets :=
  repeat match goal with
  | |- context [bool_decide (?k ∈ ?s)] =>
      first [ rewrite (bool_decide_eq_true_2 (k ∈ s)) by set_solver
            | rewrite (bool_decide_eq_false_2 (k ∈ s)) by set_solver ]
  end.

Lemma crowd_step_unfold (people : list Track) (frame_number : Z) (timestamp : Q)
  (checked : gset Z) (found : list CrowdAnomaly) (i : nat) (person1 : Track) :
  crowd_step people frame_number timestamp (checked, found) (i, person1) =
  if bool_decide (id person1 ∈ checked) then (checked, found)
  else
    let nearby := nearby_of people checked i person1 in
    if Nat.leb crowding_count (length nearby) then
      (fold_left (fun ch person => {[id person]} ∪ ch) nearby checked,
       found ++ [ {| ca_type := AGLOMERACAO;
                     ca_severity := severity_of AGLOMERACAO;
                     ca_frame := frame_number;
                     ca_timestamp := timestamp;
                     ca_location := mean_center (map (fun p => bbox_center (bbox p)) nearby);
                     involved_tracks := map id nearby;
                     ca_count := length nearby |} ])
    else (checked, found).
Proof. reflexivity. Qed.

(** Evaluate the innermost iteration of the outer loop: decide the set
    memberships, then the closeness tests from the hypotheses. *)
Ltac crowd_one :=
  match goal with
  | |- context [crowd_step ?people ?fr ?ts (?ch, ?found) (?i, ?x)] =>
      rewrite (crowd_step_unfold people fr ts ch found i x);
      cbv zeta; rewrite ?nearby_of_eq; unfold enumerate;
      cbn [length seq combine List.filter fst snd Nat.eqb negb andb map];
      crowd_sets;
      repeat match goal with
             | |- context [bool_decide (?k ∈ ?s)] => destruct (bool_decide (k ∈ s))
             end;
      cbn [negb andb];
      repeat match goal with
             | H : close _ _ = _ |- _ => rewrite H
             end;
      cbn [length seq combine List.filter fst snd Nat.eqb negb andb map Nat.leb
           crowding_count fold_left app]
  end.

Lemma crowding_four (frame_number : Z) (timestamp : Q) (p q r f : Track)
  (l1 l2 : list Track) :
  l1 ++ l2 = [p; q; r] ->
  within80 p q -> within80 p r -> within80 q r ->
  ~ within80 f p -> ~ within80 f q -> ~ within80 f r ->
  snd (fold_left (crowd_step (l1 ++ f :: l2) frame_number timestamp)
                 (enumerate (l1 ++ f :: l2)) (∅, []))
  = [crowd_of_three frame_number timestamp p q r].
Proof.
  intros Hl Hpq Hpr Hqr Hfp Hfq Hfr.
  apply close_true in Hpq as [Hpq Hqp], Hpr as [Hpr Hrp], Hqr as [Hqr Hrq].
  apply close_false in Hfp as [Hfp Hpf], Hfq as [Hfq Hqf], Hfr as [Hfr Hrf].
  assert (Hcases : (l1 = [] /\ l2 = [p; q; r]) \/ (l1 = [p] /\ l2 = [q; r])
                   \/ (l1 = [p; q] /\ l2 = [r]) \/ (l1 = [p; q; r] /\ l2 = [])).
  { destruct l1 as [|a [|b [|c [|x l1]]]]; simpl in Hl.
    - auto.
    - injection Hl as -> ->. auto.
    - injection Hl as -> -> ->. auto.
    - injection Hl as -> -> -> ->. auto 6.
    - discriminate. }
  destruct Hcases as [[-> ->]|[[-> ->]|[[-> ->]|[-> ->]]]];
    cbn [app]; unfold enumerate at 1; cbn [length seq combine fold_left];
    repeat crowd_one; reflexivity.
Qed.

(** C4.  When the person tracks of a frame are three tracks [p], [q],
    [r] pairwise less than 80 px apart and a fourth [f] at 80 px or more
    from each of them, in any order and among any other tracks, [detect]
    emits exactly one [AGLOMERACAO] record, listing [p], [q], [r]; and
    whatever the input, no id is listed by two records of a frame. *)
Theorem crowding_three_close_one_far (d : AnomalyDetector) (now : Q)
  (tracks : list Track) (activities : gmap Z Activity) (frame_number : Z)
  (timestamp : Q) (p q r f : Track) (l1 l2 : list Track) :
  List.filter (fun t => Z.eqb (class_id t) 0) tracks = l1 ++ f :: l2 ->
  l1 ++ l2 = [p; q; r] ->
  within80 p q -> within80 p r -> within80 q r ->
  ~ within80 f p -> ~ within80 f q -> ~ within80 f r ->
  crowd_records (snd (detect d now tracks activities frame_number timestamp))
    = [crowd_of_three frame_number timestamp p q r] /\
  (forall tracks',
     disjoint_records
       (crowd_records (snd (detect d now tracks' activities frame_number timestamp)))).
Proof.
  intros Hpeople Hl Hpq Hpr Hqr Hfp Hfq Hfr. split.
  - rewrite detect_crowd_records. unfold _check_crowding. rewrite Hpeople.
    assert (Hlen : length (l1 ++ f :: l2) = 4%nat).
    { apply (f_equal (@length Track)) in Hl. rewrite length_app in *. simpl in *. lia. }
    rewrite Hlen. cbn [Nat.ltb Nat.leb crowding_count].
    now apply crowding_four.
  - intros tracks'. rewrite detect_crowd_records. apply crowding_inv.
Qed.

(** ** Per-track rules *)

Lemma track_rules_In (d : AnomalyDetector) (now : Q) (activities : gmap Z Activity)
  (frame_number : Z) (timestamp : Q) (track : Track) (r : TrackAnomaly) :
  In (PerTrack r) (track_rules d now activities frame_number timestamp track) <->
  r = _create_anomaly (ta_type r) track frame_number timestamp /\
  rule_check d now activities track (ta_type r) = true.
Proof.
  unfold track_rules. rewrite !in_app_iff. split.
  - intros H. repeat destruct H as [H|H];
      match type of H with In _ (if ?b then _ else _) => destruct b eqn:Hb end;
      simpl in H; try tauto; destruct H as [H|[]]; injection H as <-; simpl; auto.
  - intros [Hr Hc]. destruct (ta_type r) eqn:Hty; simpl in Hc; try discriminate;
      rewrite Hc, Hr; simpl; auto 6.
Qed.

Lemma fires_detect (ty : AnomalyType) (k : Z) (d : AnomalyDetector) (now : Q)
  (tracks : list Track) (activities : gmap Z Activity) (frame_number : Z)
  (timestamp : Q) :
  fires ty k (snd (detect d now tracks activities frame_number timestamp)) <->
  exists track, In track tracks /\ id track = k /\
    rule_check (_update_track_states d tracks timestamp) now activities track ty = true.
Proof.
  unfold fires, detect. cbn [snd]. split.
  - intros (r & Hin & Hty & Hk). apply in_app_iff in Hin as [Hin|Hin].
    + apply in_flat_map in Hin as (track & Htr & Hin).
      apply track_rules_In in Hin as [Hr Hc]. exists track.
      split; [exact Htr|]. split; [|now rewrite <- Hty].
      rewrite <- Hk, Hr. reflexivity.
    + apply in_map_iff in Hin as (c & Hc & _). discriminate.
  - intros (track & Htr & Hk & Hc).
    exists (_create_anomaly ty track frame_number timestamp).
    split; [|split; [reflexivity | exact Hk]].
    apply in_app_iff. left. apply in_flat_map. exists track. split; [exact Htr|].
    apply track_rules_In. simpl. auto.
Qed.

(** ** Track states over a sequence of frames *)

Lemma Qmax_cases (a b : Q) : Qmax a b = a \/ Qmax a b = b.
Proof. unfold Qmax, GenericMinMax.gmax. destruct (a ?= b)%Q; auto. Qed.

Lemma state_step_inv (seen : list Track) (timestamp : Q) (d : AnomalyDetector)
  (track : Track) :
  In track seen -> excursion_inv seen (track_states d) ->
  excursion_inv seen (track_states (state_step timestamp d track)).
Proof.
  intros Hseen Hinv k s. unfold state_step. cbn [track_states].
  destruct (decide (id track = k)) as [<-|Hne].
  - rewrite lookup_insert_eq. intros [= <-]. cbn [max_distance initial_position].
    set (state := default _ _).
    assert (Hst : max_distance state = 0%Q \/
                  exists t, In t seen /\ id t = id track /\
                    max_distance state = distsq (bbox_center (bbox t)) (initial_position state)).
    { subst state. destruct (track_states d !! id track) as [s0|] eqn:Hs0; simpl.
      - now apply Hinv.
      - now left. }
    destruct (Qmax_cases (max_distance state)
                (distsq (bbox_center (bbox track)) (initial_position state))) as [-> | ->].
    + exact Hst.
    + right. exists track. auto.
  - rewrite lookup_insert_ne by exact Hne. apply Hinv.
Qed.

Lemma purge_step_inv (seen : list Track) (timestamp : Q) (d : AnomalyDetector) (tid : Z) :
  excursion_inv seen (track_states d) ->
  excursion_inv seen (track_states (purge_step timestamp d tid)).
Proof.
  intros Hinv. unfold purge_step.
  destruct (track_states d !! tid) as [state|]; [|exact Hinv].
  destruct (Qltb 5 _); [|exact Hinv]. cbn [track_states].
  intros k s Hk. apply lookup_delete_Some in Hk as [_ Hk]. now apply Hinv.
Qed.

Lemma update_states_inv (seen : list Track) (d : AnomalyDetector) (tracks : list Track)
  (timestamp : Q) :
  (forall t, In t tracks -> In t seen) ->
  excursion_inv seen (track_states d) ->
  excursion_inv seen (track_states (_update_track_states d tracks timestamp)).
Proof.
  intros Hsub Hinv. unfold _update_track_states.
  set (d1 := fold_left (state_step timestamp) tracks d).
  assert (H1 : excursion_inv seen (track_states d1)).
  { subst d1. revert d Hinv. induction tracks as [|t tracks IH]; intros d Hinv; simpl.
    - exact Hinv.
    - apply IH; [intros t' Ht'; apply Hsub; now right|].
      apply state_step_inv; [apply Hsub; now left | exact Hinv]. }
  generalize (List.filter (fun tid => negb (bool_decide (tid ∈ (list_to_set (map id tracks) : gset Z))))
                (map fst (map_to_list (track_states d1)))).
  intros l. revert H1. generalize d1. induction l as [|tid l IH]; intros d2 H2; simpl.
  - exact H2.
  - apply IH. now apply purge_step_inv.
Qed.

Lemma excursion_inv_mono (seen seen' : list Track) (m : gmap Z TrackState) :
  (forall t, In t seen -> In t seen') -> excursion_inv seen m -> excursion_inv seen' m.
Proof.
  intros Hsub Hinv k s Hk. destruct (Hinv k s Hk) as [H0|(t & Ht & Hid & Hm)]; [now left|].
  right. exists t. auto.
Qed.

Lemma run_detect_inv (frames : list Frame) :
  excursion_inv (concat (map f_tracks frames)) (track_states (run_detect init frames)).
Proof.
  induction frames as [|fr frames IH] using rev_ind.
  - intros k s Hk. simpl in Hk. rewrite lookup_empty in Hk. discriminate.
  - unfold run_detect in *. rewrite fold_left_app. cbn [fold_left].
    unfold detect_frame at 1, detect. cbn [fst track_states].
    rewrite map_app, concat_app. cbn [map concat]. rewrite app_nil_r.
    apply update_states_inv.
    + intros t Ht. apply in_app_iff. now right.
    + eapply excursion_inv_mono; [|exact IH]. intros t Ht. apply in_app_iff. now left.
Qed.

(** *** The entry of a track present in the frame *)

Lemma state_step_other (timestamp : Q) (d : AnomalyDetector) (track : Track) (k : Z) :
  k <> id track ->
  track_states (state_step timestamp d track) !! k = track_states d !! k.
Proof. intros Hne. unfold state_step. cbn [track_states]. now rewrite lookup_insert_ne. Qed.

Lemma state_step_self (timestamp : Q) (d : AnomalyDetector) (track : Track) :
  exists s, track_states (state_step timestamp d track) !! id track = Some s /\
            current_position s = Some (bbox_center (bbox track)).
Proof.
  unfold state_step. cbn [track_states]. rewrite lookup_insert_eq.
  eexists. split; reflexivity.
Qed.

Lemma state_fold_other (timestamp : Q) (tracks : list Track) (d : AnomalyDetector) (k : Z) :
  ~ In k (map id tracks) ->
  track_states (fold_left (state_step timestamp) tracks d) !! k = track_states d !! k.
Proof.
  revert d. induction tracks as [|t tracks IH]; intros d Hk; simpl in *; [reflexivity|].
  rewrite IH by tauto. apply state_step_other. intros ->. tauto.
Qed.

Lemma state_fold_current (timestamp : Q) (tracks : list Track) (d : AnomalyDetector)
  (track : Track) :
  List.NoDup (map id tracks) -> In track tracks ->
  exists s, track_states (fold_left (state_step timestamp) tracks d) !! id track = Some s /\
            current_position s = Some (bbox_center (bbox track)).
Proof.
  revert d. induction tracks as [|t tracks IH]; intros d Hnd Hin; [destruct Hin|].
  simpl in Hnd. apply List.NoDup_cons_iff in Hnd as [Ht Hnd]. simpl.
  destruct Hin as [->|Hin].
  - rewrite state_fold_other by exact Ht. apply state_step_self.
  - now apply IH.
Qed.

Lemma purge_step_other (timestamp : Q) (d : AnomalyDetector) (tid k : Z) :
  k <> tid -> track_states (purge_step timestamp d tid) !! k = track_states d !! k.
Proof.
  intros Hne. unfold purge_step. destruct (track_states d !! tid); [|reflexivity].
  destruct (Qltb 5 _); [|reflexivity]. cbn [track_states]. now rewrite lookup_delete_ne.
Qed.

Lemma purge_fold_other (timestamp : Q) (l : list Z) (d : AnomalyDetector) (k : Z) :
  ~ In k l ->
  track_states (fold_left (purge_step timestamp) l d) !! k = track_states d !! k.
Proof.
  revert d. induction l as [|tid l IH]; intros d Hk; simpl in *; [reflexivity|].
  rewrite IH by tauto. apply purge_step_other. intros ->. tauto.
Qed.

(** After the state refresh, the entry of a track of the frame holds
    the track's centre as current position (ids pairwise different). *)
Lemma update_states_current (d : AnomalyDetector) (tracks : list Track) (timestamp : Q)
  (track : Track) :
  List.NoDup (map id tracks) -> In track tracks ->
  exists s, track_states (_update_track_states d tracks timestamp) !! id track = Some s /\
            current_position s = Some (bbox_center (bbox track)).
Proof.
  intros Hnd Hin. unfold _update_track_states.
  rewrite purge_fold_other; [now apply state_fold_current|].
  intros Hrm. apply filter_In in Hrm as [_ Hrm].
  apply negb_true_iff, bool_decide_eq_false in Hrm. apply Hrm.
  apply elem_of_list_to_set, list_elem_of_In, in_map. exact Hin.
Qed.

Lemma detect_states (d : AnomalyDetector) (now : Q) (tracks : list Track)
  (activities : gmap Z Activity) (frame_number : Z) (timestamp : Q) :
  track_states (fst (detect d now tracks activities frame_number timestamp))
  = track_states (_update_track_states d tracks timestamp).
Proof. reflexivity. Qed.

(** *** Reverse movement *)

Lemma reverse_check_iff (d : AnomalyDetector) (k : Z) :
  _check_reverse_movement d k = true <->
  exists s c, track_states d !! k = Some s /\ current_position s = Some c /\
    (distsq c (initial_position s) < return_threshold_sq)%Q /\
    (return_threshold_x2_sq < max_distance s)%Q.
Proof.
  unfold _check_reverse_movement. split.
  - destruct (track_states d !! k) as [s|]; [|discriminate].
    destruct (current_position s) as [c|] eqn:Hc; [|discriminate].
    intros H. apply andb_true_iff in H as [H1 H2]. apply Qltb_lt in H1, H2.
    exists s, c. auto.
  - intros (s & c & -> & -> & H1 & H2). apply andb_true_iff.
    split; now apply Qltb_lt.
Qed.

(** C8.  Over any sequence of [detect] calls on a new detector,
    [MOVIMENTO_REVERSO] fires for a track id exactly when the id is in
    the frame and its entry has a recorded maximum distance above 100 px
    and a current distance from the initial position below 50 px (both
    squared here); the current position is the centre of the track in
    the frame; and when the rule fires, some frame up to this one showed
    the track more than 100 px away from the initial position. *)
Theorem reverse_movement_rule (frames : list Frame) (fr : Frame) (k : Z) :
  (fires MOVIMENTO_REVERSO k (snd (detect_frame (run_detect init frames) fr)) <->
     (exists track, In track (f_tracks fr) /\ id track = k) /\
     exists s c,
       track_states (run_detect init (frames ++ [fr])) !! k = Some s /\
       current_position s = Some c /\
       (distsq c (initial_position s) < return_threshold_sq)%Q /\
       (return_threshold_x2_sq < max_distance s)%Q) /\
  (forall track, List.NoDup (map id (f_tracks fr)) -> In track (f_tracks fr) ->
     exists s, track_states (run_detect init (frames ++ [fr])) !! id track = Some s /\
               current_position s = Some (bbox_center (bbox track))) /\
  (fires MOVIMENTO_REVERSO k (snd (detect_frame (run_detect init frames) fr)) ->
     exists s fr' t,
       track_states (run_detect init (frames ++ [fr])) !! k = Some s /\
       In fr' (frames ++ [fr]) /\ In t (f_tracks fr') /\ id t = k /\
       (return_threshold_x2_sq
        < distsq (bbox_center (bbox t)) (initial_position s))%Q).
Proof.
  assert (Hrun : track_states (run_detect init (frames ++ [fr]))
                 = track_states (_update_track_states (run_detect init frames)
                                   (f_tracks fr) (f_timestamp fr))).
  { unfold run_detect. rewrite fold_left_app. reflexivity. }
  assert (Hiff : fires MOVIMENTO_REVERSO k (snd (detect_frame (run_detect init frames) fr)) <->
     (exists track, In track (f_tracks fr) /\ id track = k) /\
     exists s c,
       track_states (run_detect init (frames ++ [fr])) !! k = Some s /\
       current_position s = Some c /\
       (distsq c (initial_position s) < return_threshold_sq)%Q /\
       (return_threshold_x2_sq < max_distance s)%Q).
  { unfold detect_frame. rewrite fires_detect, Hrun. cbn [rule_check]. split.
    - intros (track & Hin & <- & Hc). split; [eauto|]. now apply reverse_check_iff.
    - intros [(track & Hin & <-) Hc]. exists track.
      split; [exact Hin|]. split; [reflexivity|]. now apply reverse_check_iff. }
  split; [exact Hiff|]. split.
  - intros track Hnd Hin. rewrite Hrun. now apply update_states_current.
  - intros Hf. apply Hiff in Hf as [_ (s & c & Hs & _ & _ & Hmax)].
    destruct (run_detect_inv (frames ++ [fr]) k s Hs) as [H0|(t & Ht & Hid & Hm)].
    + rewrite H0 in Hmax. discriminate Hmax.
    + apply in_concat in Ht as (l & Hl & Ht). apply in_map_iff in Hl as (fr' & <- & Hfr').
      exists s, fr', t. rewrite <- Hm. auto 6.
Qed.

(** *** Prolonged stop *)

Lemma prolonged_check_iff (d : AnomalyDetector) (now : Q) (k : Z)
  (activity : option Activity) :
  _check_prolonged_stop d now k activity = true <->
  activity = Some PARADO /\
  exists s since, track_states d !! k = Some s /\ stopped_since s = Some since /\
    (stopped_duration < now - since)%Q.
Proof.
  unfold _check_prolonged_stop. split.
  - destruct (bool_decide (activity = Some PARADO)) eqn:Ha; [|discriminate].
    apply bool_decide_eq_true in Ha. simpl.
    destruct (track_states d !! k) as [s|]; [|discriminate].
    destruct (stopped_since s) as [since|] eqn:Hs; [|discriminate].
    intros H. apply Qltb_lt in H. split; [exact Ha|]. exists s, since. auto.
  - intros (-> & s & since & -> & -> & H).
    rewrite bool_decide_eq_true_2 by reflexivity. simpl. now apply Qltb_lt.
Qed.

(** What [detect] does for [PARADA_PROLONGADA]: the rule compares the
    wall clock [now] with the value stored in [stopped_since]. *)
Lemma prolonged_stop_fires_iff (d : AnomalyDetector) (fr : Frame) (k : Z) :
  fires PARADA_PROLONGADA k (snd (detect_frame d fr)) <->
  (exists track, In track (f_tracks fr) /\ id track = k) /\
  f_activities fr !! k = Some PARADO /\
  exists s since,
    track_states (fst (detect_frame d fr)) !! k = Some s /\
    stopped_since s = Some since /\ (stopped_duration < f_now fr - since)%Q.
Proof.
  unfold detect_frame. rewrite fires_detect, detect_states. cbn [rule_check]. split.
  - intros (track & Hin & <- & Hc). apply prolonged_check_iff in Hc as [Ha Hs]. eauto.
  - intros ((track & Hin & <-) & Ha & Hs). exists track.
    split; [exact Hin|]. split; [reflexivity|]. now apply prolonged_check_iff.
Qed.

End AnomalyFacts.

(** * Properties of the activity classifier *)

Module ClassifierFacts.
Import Tracker Classifier ClassifierSpec.

(** ** The erratic check *)

Lemma count_fold (P : nat -> bool) (l : list nat) (a : nat) :
  fold_left (fun n i => if P i then S n else n) l a
  = (a + length (List.filter P l))%nat.
Proof.
  revert a. induction l as [|i l IH]; intros a; simpl; [lia|].
  rewrite IH. destruct (P i); simpl; lia.
Qed.

Lemma erratic_iff (c : ActivityClassifier) (k : Z) :
  _is_erratic_behavior c k = true <->
  exists positions, position_history c !! k = Some positions /\
    (10 <= length positions)%nat /\ (3 <= count_changes positions)%nat.
Proof.
  unfold _is_erratic_behavior, count_changes.
  destruct (position_history c !! k) as [ps|].
  - rewrite count_fold. cbn [Nat.add]. split.
    + destruct (Nat.ltb_spec (length ps) 10); [discriminate|].
      intros Hc. apply Nat.leb_le in Hc. eauto.
    + intros (ps' & [= <-] & Hlen & Hc).
      destruct (Nat.ltb_spec (length ps) 10); [lia|]. now apply Nat.leb_le.
  - split; [discriminate | intros (ps & H & _); discriminate].
Qed.

Lemma filter_length_le {A} (P : A -> bool) (l : list A) :
  (length (List.filter P l) <= length l)%nat.
Proof. induction l as [|a l IH]; simpl; [lia|]. destruct (P a); simpl; lia. Qed.

Lemma erratic_needs_13 (c : ActivityClassifier) (k : Z) :
  (length (default [] (position_history c !! k)) < 13)%nat ->
  _is_erratic_behavior c k = false.
Proof.
  intros Hlen. apply not_true_iff_false. intros H.
  apply erratic_iff in H as (ps & Hps & _ & Hc). rewrite Hps in Hlen. simpl in Hlen.
  unfold count_changes in Hc.
  pose proof (filter_length_le (window_pair_changes ps)
                (seq 0 (length ps - window_size * 2))) as Hle.
  rewrite length_seq in Hle. unfold window_size in *. lia.
Qed.

Lemma direction_of_window (ps : list Vec) (i : nat) (a b : Vec) :
  ps !! i = Some a -> ps !! (i + 4)%nat = Some b ->
  _calculate_direction (slice i (i + window_size) ps)
  = if Qltb (normsq (vsub b a)) (1 # 1000000000000) then None else Some (vsub b a).
Proof.
  intros Ha Hb. unfold _calculate_direction, slice, window_size.
  replace (i + 5 - i)%nat with 5%nat by lia.
  assert (Hlen : length (take 5 (drop i ps)) = 5%nat).
  { apply lookup_lt_Some in Hb. rewrite length_take, length_drop. lia. }
  rewrite Hlen. cbn [Nat.ltb Nat.leb].
  rewrite head_lookup, last_lookup, Hlen. cbn [Nat.pred].
  rewrite !lookup_take_lt, !lookup_drop by lia.
  rewrite Nat.add_0_r, Ha, Hb. reflexivity.
Qed.

Lemma window_pair_spec (ps : list Vec) (i : nat) (a b c d : Vec) :
  ps !! i = Some a -> ps !! (i + 4)%nat = Some b ->
  ps !! (i + 5)%nat = Some c -> ps !! (i + 9)%nat = Some d ->
  window_pair_changes ps i
  = negb (Qltb (normsq (vsub b a)) (1 # 1000000000000))
    && negb (Qltb (normsq (vsub d c)) (1 # 1000000000000))
    && direction_change_exceeded (vsub b a) (vsub d c).
Proof.
  intros Ha Hb Hc Hd. unfold window_pair_changes.
  rewrite (direction_of_window ps i a b Ha Hb).
  replace (i + window_size * 2)%nat with (i + window_size + window_size)%nat
    by (unfold window_size; lia).
  rewrite (direction_of_window ps (i + window_size) c d).
  - destruct (Qltb (normsq (vsub b a)) _), (Qltb (normsq (vsub d c)) _); reflexivity.
  - exact Hc.
  - unfold window_size. now replace (i + 5 + 4)%nat with (i + 9)%nat by lia.
Qed.

(** The 45-degree test on a few directions: 44.7 and 45 degrees do not
    exceed it, 45.3 and 90 degrees do, whatever the lengths. *)
Example direction_change_samples :
  direction_change_exceeded (1, 0)%Q (101, 100)%Q = false /\
  direction_change_exceeded (1, 0)%Q (1, 1)%Q = false /\
  direction_change_exceeded (3, 0)%Q (100, 101)%Q = true /\
  direction_change_exceeded (1, 0)%Q (0, 7)%Q = true /\
  direction_change_exceeded (1, 0)%Q (-1, 0)%Q = true.
Proof. repeat split. Qed.

(** C3 (amended).  [_is_erratic_behavior] answers true exactly when the
    track has at least 10 recorded positions and at least 3 of the
    comparisons at start indices [0 .. len - 11] exceed 45 degrees; the
    comparison at [i] is between the displacement over
    [positions[i : i+5]] and the one over [positions[i+5 : i+10]], and
    is skipped when either is shorter than 1e-6; with fewer than 13
    positions the answer is false. *)
Theorem erratic_sliding_windows (c : ActivityClassifier) (k : Z) :
  (_is_erratic_behavior c k = true <->
     exists positions, position_history c !! k = Some positions /\
       (10 <= length positions)%nat /\ (3 <= count_changes positions)%nat) /\
  (forall (ps : list Vec) (i : nat) (a b c' d : Vec),
     ps !! i = Some a -> ps !! (i + 4)%nat = Some b ->
     ps !! (i + 5)%nat = Some c' -> ps !! (i + 9)%nat = Some d ->
     window_pair_changes ps i
     = negb (Qltb (normsq (vsub b a)) (1 # 1000000000000))
       && negb (Qltb (normsq (vsub d c')) (1 # 1000000000000))
       && direction_change_exceeded (vsub b a) (vsub d c')) /\
  ((length (default [] (position_history c !! k)) < 13)%nat ->
   _is_erratic_behavior c k = false).
Proof.
  split; [apply erratic_iff|]. split; [apply window_pair_spec | apply erratic_needs_13].
Qed.

Lemma erratic_sliding_windows_witness :
  (length (default [] (position_history (with_history (firstn 12 one_turn)) !! 1%Z)) < 13)%nat /\
  _is_erratic_behavior (with_history (firstn 12 one_turn)) 1 = false.
Proof.
  assert (H : (length (default [] (position_history (with_history (firstn 12 one_turn)) !! 1%Z)) < 13)%nat)
    by (vm_compute; lia).
  split; [exact H|].
  exact (proj2 (proj2 (erratic_sliding_windows (with_history (firstn 12 one_turn)) 1)) H).
Defined.

(** C3, as stated, fails: on 13 positions with a single turn the code
    counts three comparisons above 45 degrees (start indices 0, 1, 2)
    and answers true, while 13 positions hold only one pair of
    non-overlapping windows. *)
Lemma erratic_not_partitioned :
  _is_erratic_behavior (with_history one_turn) 1 = true /\
  map (window_pair_changes one_turn) [0; 1; 2]%nat = [true; true; true] /\
  is_erratic_as_specified one_turn = false.
Proof. vm_compute. repeat split. Qed.

(** ** Classification by speed *)

Lemma classify_speed_one (c : ActivityClassifier) (t : Track) :
  (normsq (velocity t) == 1)%Q ->
  _classify_individual_activity c t
  = if _is_erratic_behavior c (id t) then COMPORTAMENTO_ERRATICO else PARADO.
Proof.
  intros Hv. unfold _classify_individual_activity.
  destruct (_is_erratic_behavior c (id t)); [reflexivity|].
  replace (Qltb (normsq (velocity t)) stopped_speed_sq) with true; [reflexivity|].
  symmetry. apply Qltb_lt. rewrite Hv. reflexivity.
Qed.

Lemma check_interactions_self (t : Track) : _check_interactions t [t] = false.
Proof. unfold _check_interactions. simpl. now rewrite Z.eqb_refl. Qed.

Lemma deque_append_length {A} (m : nat) (q : list A) (x : A) :
  (length (deque_append m q x) <= length q + 1)%nat.
Proof. unfold deque_append. rewrite length_skipn, length_app. simpl. lia. Qed.

Lemma classify_single (c : ActivityClassifier) (t : Track) (n : Z) :
  (normsq (velocity t) == 1)%Q -> (hist_len c (id t) < 12)%nat ->
  snd (classify c [t] n) = {[id t := PARADO]} /\
  (hist_len (fst (classify c [t] n)) (id t) <= hist_len c (id t) + 1)%nat.
Proof.
  intros Hv Hlen. unfold classify. cbn [fold_left _update_position_history].
  set (c1 := {| activity_history := activity_history c |}).
  assert (Hh : (hist_len c1 (id t) <= hist_len c (id t) + 1)%nat).
  { unfold hist_len, c1. cbn [position_history]. rewrite lookup_insert_eq. simpl.
    apply deque_append_length. }
  unfold classify_step. rewrite classify_speed_one by exact Hv.
  rewrite erratic_needs_13 by (fold (hist_len c1 (id t)); lia).
  rewrite check_interactions_self, andb_false_r. cbn [fst snd].
  split; [apply insert_empty | exact Hh].
Qed.

Lemma classify_run_speed_one (k : Z) (ts : list Track) (c : ActivityClassifier) (n : Z) :
  List.Forall (fun t => id t = k /\ (normsq (velocity t) == 1)%Q) ts ->
  (hist_len c k + length ts <= 12)%nat ->
  classify_run c n (map (fun t => [t]) ts) = map (fun _ => {[k := PARADO]}) ts.
Proof.
  revert c n. induction ts as [|t ts IH]; intros c n Hts Hlen; [reflexivity|].
  apply List.Forall_cons_iff in Hts as [[Hid Hv] Hts]. simpl in Hlen.
  cbn [map classify_run]. subst k.
  destruct (classify_single c t n Hv) as [Hacts Hh]; [lia|].
  rewrite Hacts. f_equal. apply IH; [exact Hts | lia].
Qed.

(** C2 (amended).  A track whose velocity has magnitude 1.0 px/frame is
    classified [PARADO] by [_classify_individual_activity] unless the
    erratic check fires, never [CAMINHANDO]; and a track seen alone at
    that speed for its first frames (10, and up to 12) is labelled
    [PARADO] by [classify] on every one of them. *)
Theorem unit_speed_is_stationary (k : Z) (ts : list Track) :
  List.Forall (fun t => id t = k /\ (normsq (velocity t) == 1)%Q) ts ->
  (length ts <= 12)%nat ->
  (forall c t, In t ts ->
     _classify_individual_activity c t
     = (if _is_erratic_behavior c (id t) then COMPORTAMENTO_ERRATICO else PARADO) /\
     _classify_individual_activity c t <> CAMINHANDO) /\
  classify_run init 0 (map (fun t => [t]) ts) = map (fun _ => {[k := PARADO]}) ts.
Proof.
  intros Hts Hlen. split.
  - intros c t Hin. rewrite List.Forall_forall in Hts. destruct (Hts t Hin) as [_ Hv].
    rewrite classify_speed_one by exact Hv.
    split; [reflexivity|]. destruct (_is_erratic_behavior c (id t)); discriminate.
  - apply classify_run_speed_one; [exact Hts|]. unfold hist_len. simpl. exact Hlen.
Qed.

Lemma unit_speed_is_stationary_witness :
  List.Forall (fun t => id t = 1 /\ (normsq (velocity t) == 1)%Q)
    (map (fun n => walker (Z.of_nat n)) (seq 0 10)) /\
  (length (map (fun n => walker (Z.of_nat n)) (seq 0 10)) <= 12)%nat /\
  classify_run init 0 walk10 = repeat {[1 := PARADO]} 10.
Proof.
  assert (H1 : List.Forall (fun t => id t = 1 /\ (normsq (velocity t) == 1)%Q)
                 (map (fun n => walker (Z.of_nat n)) (seq 0 10)))
    by (repeat constructor).
  assert (H2 : (length (map (fun n => walker (Z.of_nat n)) (seq 0 10)) <= 12)%nat)
    by (simpl; lia).
  split; [exact H1|]. split; [exact H2|].
  exact (proj2 (unit_speed_is_stationary 1 _ H1 H2)).
Defined.

(** C2, as stated, fails: a person moving at 1 px per frame for 10
    frames is labelled [PARADO] on each of them, never [CAMINHANDO]. *)
Lemma unit_speed_not_walking :
  map (fun acts : gmap Z Activity => acts !! 1) (classify_run init 0 walk10)
    = repeat (Some PARADO) 10 /\
  ~ In (Some CAMINHANDO)
       (map (fun acts : gmap Z Activity => acts !! 1) (classify_run init 0 walk10)).
Proof.
  assert (H : map (fun acts : gmap Z Activity => acts !! 1) (classify_run init 0 walk10)
              = repeat (Some PARADO) 10) by (vm_compute; reflexivity).
  split; [exact H|]. rewrite H. simpl. intuition discriminate.
Qed.

End ClassifierFacts.

(** * The rules on concrete frames *)

Module AnomalyInstances.
Import Tracker Classifier Anomaly AnomalySpec AnomalyFacts.

Lemma crowding_three_close_one_far_witness :
  List.filter (fun t => Z.eqb (class_id t) 0) crowd_frame
    = [person_a] ++ person_far :: [person_b; person_c] /\
  within80 person_a person_b /\ within80 person_a person_c /\
  within80 person_b person_c /\
  ~ within80 person_far person_a /\ ~ within80 person_far person_b /\
  ~ within80 person_far person_c /\
  crowd_records (snd (detect init 0 crowd_frame ∅ 7 (7 # 30)))
    = [crowd_of_three 7 (7 # 30) person_a person_b person_c].
Proof.
  assert (H1 : List.filter (fun t => Z.eqb (class_id t) 0) crowd_frame
               = [person_a] ++ person_far :: [person_b; person_c]) by reflexivity.
  assert (Hab : within80 person_a person_b) by reflexivity.
  assert (Hac : within80 person_a person_c) by reflexivity.
  assert (Hbc : within80 person_b person_c) by reflexivity.
  assert (Hfa : ~ within80 person_far person_a) by (intros H; discriminate H).
  assert (Hfb : ~ within80 person_far person_b) by (intros H; discriminate H).
  assert (Hfc : ~ within80 person_far person_c) by (intros H; discriminate H).
  repeat (split; [assumption|]).
  exact (proj1 (crowding_three_close_one_far init 0 crowd_frame ∅ 7 (7 # 30)
                  person_a person_b person_c person_far [person_a] [person_b; person_c]
                  H1 eq_refl Hab Hac Hbc Hfa Hfb Hfc)).
Defined.

Lemma crowd_records_disjoint_witness :
  List.NoDup (map id crowd_frame) /\
  (forall r, In r (crowd_records (snd (detect init 0 crowd_frame ∅ 7 (7 # 30)))) ->
     List.NoDup (involved_tracks r)).
Proof.
  assert (H : List.NoDup (map id crowd_frame)).
  { repeat constructor; simpl; intuition discriminate. }
  split; [exact H|].
  exact (proj2 (crowd_records_disjoint init 0 crowd_frame ∅ 7 (7 # 30)) H).
Defined.

(** C10, as stated, fails when two tracks of the call carry the same
    id: the second loop of [_check_crowding] skips a person by position
    ([i == j]), not by id, and the record lists the id twice. *)
Lemma crowd_record_repeats_id :
  map involved_tracks (crowd_records (snd (detect init 0 twin_frame ∅ 0 0)))
    = [[1; 1; 2]] /\
  ~ List.NoDup [1; 1; 2].
Proof.
  split; [vm_compute; reflexivity|].
  intros H. apply List.NoDup_cons_iff in H as [H _]. apply H. now left.
Qed.

(** C1 (code defect).  [stopped_since] is set from the video timestamp
    of the frame and compared with [time.time()]: on the first frame of
    a video the rule fires for a person who has been still for no time
    at all. *)
Theorem prolonged_stop_fires_at_once :
  snd (detect_frame init first_frame)
    = [PerTrack (_create_anomaly PARADA_PROLONGADA standing 0 0)] /\
  (stopped_since <$> track_states (fst (detect_frame init first_frame)) !! 1)
    = Some (Some 0%Q) /\
  fires PARADA_PROLONGADA 1 (snd (detect_frame init first_frame)).
Proof.
  assert (H : snd (detect_frame init first_frame)
              = [PerTrack (_create_anomaly PARADA_PROLONGADA standing 0 0)])
    by (vm_compute; reflexivity).
  split; [exact H|]. split; [vm_compute; reflexivity|].
  rewrite H. eexists. split; [left; reflexivity|]. split; reflexivity.
Qed.

Lemma reverse_movement_rule_witness :
  fires MOVIMENTO_REVERSO 1 (snd (detect_frame (run_detect init out_and_back) back_frame)) /\
  exists s fr' t,
    track_states (run_detect init (out_and_back ++ [back_frame])) !! 1 = Some s /\
    In fr' (out_and_back ++ [back_frame]) /\ In t (f_tracks fr') /\ id t = 1 /\
    (return_threshold_x2_sq < distsq (bbox_center (bbox t)) (initial_position s))%Q.
Proof.
  assert (H : fires MOVIMENTO_REVERSO 1
                (snd (detect_frame (run_detect init out_and_back) back_frame))).
  { eexists. split; [|split].
    - vm_compute. right. right. left. reflexivity.
    - reflexivity.
    - reflexivity. }
  split; [exact H|].
  exact (proj2 (proj2 (reverse_movement_rule out_and_back back_frame 1)) H).
Defined.

End AnomalyInstances.

(** * Further properties *)

(** ** Deques and filters *)

Lemma deque_append_len {A} (m : nat) (q : list A) (x : A) :
  length (deque_append m q x) = Nat.min (length q + 1) m.
Proof. unfold deque_append. rewrite length_skipn, length_app. simpl. lia. Qed.

Lemma filter_none {A} (p : A -> bool) (l : list A) :
  (forall x, In x l -> p x = false) -> List.filter p l = [].
Proof.
  induction l as [|a l IH]; intros H; [reflexivity|]. simpl.
  rewrite (H a) by now left. apply IH. intros x Hx. apply H. now right.
Qed.


(** ** The life of a track *)

Module TrackerLifeFacts.
Import Tracker TrackerSpec TrackerFacts TrackerLifeSpec.

(** *** Sorting the costs *)

Lemma triple_leb_total (a b : Q * nat * nat) :
  triple_leb a b = false -> triple_leb b a = true.
Proof.
  destruct a as [[c1 i1] j1], b as [[c2 i2] j2]. unfold triple_leb.
  rewrite <- (Qcompare_antisym c1 c2).
  destruct (c1 ?= c2)%Q; simpl; try discriminate; [|reflexivity].
  destruct (Nat.ltb_spec i1 i2); [discriminate|].
  destruct (Nat.ltb_spec i2 i1); [reflexivity|].
  intros Hj. apply Nat.leb_gt in Hj. apply Nat.leb_le. lia.
Qed.

Lemma triple_leb_trans (a b c : Q * nat * nat) :
  triple_leb a b = true -> triple_leb b c = true -> triple_leb a c = true.
Proof.
  destruct a as [[c1 i1] j1], b as [[c2 i2] j2], c as [[c3 i3] j3]. unfold triple_leb.
  destruct (Qcompare_spec c1 c2) as [E12|L12|G12]; try discriminate;
  destruct (Qcompare_spec c2 c3) as [E23|L23|G23]; try discriminate;
  destruct (Qcompare_spec c1 c3) as [E13|L13|G13]; try reflexivity;
    try (exfalso; lra).
  destruct (Nat.ltb_spec i1 i2), (Nat.ltb_spec i2 i1), (Nat.ltb_spec i2 i3),
    (Nat.ltb_spec i3 i2), (Nat.ltb_spec i1 i3), (Nat.ltb_spec i3 i1);
    try discriminate; try reflexivity; try lia.
  rewrite !Nat.leb_le. lia.
Qed.

Lemma insert_sorted_perm (x : Q * nat * nat) (l : list (Q * nat * nat)) :
  Permutation (insert_sorted x l) (x :: l).
Proof.
  induction l as [|y l IH]; simpl; [reflexivity|].
  destruct (triple_leb x y); [reflexivity|].
  rewrite IH. apply perm_swap.
Qed.

Lemma insert_sorted_sorted (x : Q * nat * nat) (l : list (Q * nat * nat)) :
  StronglySorted triple_le l -> StronglySorted triple_le (insert_sorted x l).
Proof.
  induction l as [|y l IH]; simpl; intros Hs.
  - repeat constructor.
  - apply StronglySorted_inv in Hs as [Hs Hy].
    destruct (triple_leb x y) eqn:Hxy.
    + constructor; [constructor; assumption|].
      constructor; [exact Hxy|].
      rewrite List.Forall_forall in *. intros z Hz.
      eapply triple_leb_trans; [exact Hxy | now apply Hy].
    + constructor; [now apply IH|].
      rewrite List.Forall_forall in *. intros z Hz.
      apply (Permutation_in _ (insert_sorted_perm x l)) in Hz as [<-|Hz].
      * now apply triple_leb_total.
      * now apply Hy.
Qed.

Lemma sort_costs_perm (l : list (Q * nat * nat)) : Permutation (sort_costs l) l.
Proof.
  unfold sort_costs. induction l as [|x l IH]; simpl; [constructor|].
  rewrite insert_sorted_perm. now constructor.
Qed.

Lemma sort_costs_sorted (l : list (Q * nat * nat)) :
  Permutation (sort_costs l) l /\ StronglySorted triple_le (sort_costs l).
Proof.
  split; [apply sort_costs_perm|].
  unfold sort_costs. induction l as [|x l IH]; simpl; [constructor|].
  now apply insert_sorted_sorted.
Qed.

(** *** Where a stored track comes from *)

Lemma flat_costs_valid (st : ObjectTracker) (detections : list Detection)
  (e : Q * nat * nat) :
  In e (sort_costs (flat_costs_of st detections (dict_keys (tracks st)))) ->
  valid_entry st detections e.
Proof.
  intros Hin. apply (Permutation_in _ (sort_costs_perm _)) in Hin.
  unfold flat_costs_of in Hin. apply in_flat_map in Hin as [[i det] [Hi Hin]].
  apply in_map_iff in Hin as [[j tid] [<- Hj]].
  apply enumerate_In in Hi, Hj. intros det' k Hd Hk. cbn [fst snd] in *.
  congruence.
Qed.

Lemma match_step_shape (st : ObjectTracker) (detections : list Detection)
  (ms : MatchState) (entry : Q * nat * nat) :
  List.NoDup (dict_keys (tracks st)) -> valid_entry st detections entry ->
  match_inv st ms -> match_shape st detections ms ->
  match_shape st detections (match_step detections (dict_keys (tracks st)) ms entry).
Proof.
  intros Hnd Hval Hinv Hsh. destruct entry as [[cost det_idx] track_idx]. unfold match_step.
  destruct (bool_decide (det_idx ∈ matched_detections ms)
            || bool_decide (track_idx ∈ matched_tracks ms)) eqn:Hseen; [exact Hsh|].
  destruct (Qltb cost (7 # 10)) eqn:Hcost; [|exact Hsh].
  destruct (dict_keys (tracks st) !! track_idx) as [track_id|] eqn:Hid; [|exact Hsh].
  destruct (detections !! det_idx) as [det|] eqn:Hdet; [|exact Hsh].
  apply orb_false_iff in Hseen as [_ Hnot]. apply bool_decide_eq_false in Hnot.
  pose proof (Hval det track_id Hdet Hid) as Hc. cbn [fst snd] in Hc.
  unfold dict_keys in Hid. rewrite lookup_map in Hid.
  destruct (tracks st !! track_idx) as [[k t]|] eqn:Hst; [|discriminate].
  simpl in Hid. injection Hid as ->.
  destruct Hinv as (_ & Hmh & _ & Hkeys & _).
  destruct (Hsh _ _ _ Hst) as (t0 & Hms & [[_ ->]|[Hin _]]); [|contradiction].
  assert (Halter : dict_alter (update_fields (max_history (m_tracker ms)) det) track_id
                     (tracks (m_tracker ms))
                   = <[track_idx := (track_id, update_fields (max_history (m_tracker ms)) det t)]>
                       (tracks (m_tracker ms))).
  { apply dict_alter_insert; [now rewrite Hkeys | exact Hms]. }
  intros j k' t1 Hj. unfold _update_track. cbn [m_tracker matched_tracks tracks].
  rewrite Halter.
  destruct (Nat.eq_dec j track_idx) as [->|Hne].
  - rewrite Hst in Hj. injection Hj as <- <-.
    exists (update_fields (max_history (m_tracker ms)) det t). split.
    + apply list_lookup_insert_eq. eapply lookup_lt_Some. exact Hms.
    + right. split; [set_solver|]. exists det.
      split; [apply In_lookup; eauto|]. rewrite Hmh. split; [reflexivity|].
      now rewrite <- Hc.
  - destruct (Hsh _ _ _ Hj) as (t2 & Hj2 & Hcase). exists t2. split.
    + rewrite list_lookup_insert_ne by congruence. exact Hj2.
    + destruct Hcase as [[Hm ->]|[Hm Hex]]; [left | right]; (split; [set_solver|]); auto.
Qed.

Lemma match_loop_shape (st : ObjectTracker) (detections : list Detection)
  (entries : list (Q * nat * nat)) (ms : MatchState) :
  List.NoDup (dict_keys (tracks st)) ->
  (forall e, In e entries -> valid_entry st detections e) ->
  match_inv st ms -> match_shape st detections ms ->
  match_shape st detections
    (fold_left (match_step detections (dict_keys (tracks st))) entries ms).
Proof.
  intros Hnd. revert ms. induction entries as [|e entries IH]; intros ms Hval Hinv Hsh; simpl.
  - exact Hsh.
  - apply IH.
    + intros e' He'. apply Hval. now right.
    + now apply match_step_inv.
    + apply match_step_shape; auto. apply Hval. now left.
Qed.

Lemma fresh_entries_shape (mh : nat) (s : Z) (ds : list Detection) (k : Z) (t : Track) :
  In (k, t) (fresh_entries mh s ds) ->
  exists det, In det ds /\ t = fresh_track mh k det /\ s <= k.
Proof.
  revert s. induction ds as [|det ds IH]; intros s; simpl; [tauto|].
  intros [Heq|Hin].
  - injection Heq as <- <-. exists det. split; [now left|]. split; [reflexivity | lia].
  - apply IH in Hin as (det' & Hin & Ht & Hs). exists det'.
    split; [now right|]. split; [exact Ht | lia].
Qed.

Lemma cost_iou (st : ObjectTracker) (det : Detection) (k : Z) (t : Track) :
  wf st -> In (k, t) (tracks st) -> Qltb (cost_of st det k) (7 # 10) = true ->
  (3 # 10 < _calculate_iou (det_bbox det) (bbox t))%Q.
Proof.
  intros [Hnd _] Hin Hc. unfold cost_of in Hc. rewrite (dict_get_In k t) in Hc by assumption.
  apply Qltb_lt in Hc. lra.
Qed.

Lemma associate_origin (st : ObjectTracker) (detections : list Detection) (k : Z)
  (t' : Track) :
  wf st -> In (k, t') (tracks (fst (_associate_detections st detections))) ->
  track_origin st detections k t'.
Proof.
  intros Hwf. unfold _associate_detections.
  destruct detections as [|det0 dets0].
  - cbn [fst tracks]. intros Hin. apply in_map_iff in Hin as [[k0 t0] [Heq Hin]].
    simpl in Heq. injection Heq as <- <-. now apply (origin_unmatched _ _ _ _ t0).
  - set (detections := det0 :: dets0).
    set (ms := fold_left (match_step _ _) _ _).
    assert (Hinv : match_inv st ms).
    { apply match_loop_inv; [apply Hwf | apply match_inv_init]. }
    assert (Hsh : match_shape st detections ms).
    { apply match_loop_shape; [apply Hwf | apply flat_costs_valid | apply match_inv_init |].
      intros j k0 t0 Hj. exists t0. split; [exact Hj|]. left. split; [set_solver | reflexivity]. }
    pose proof (match_inv_wf _ _ Hwf Hinv) as Hwf1.
    pose proof Hinv as (Hn & Hmh & Hma & Hkeys & _).
    rewrite create_step_fold.
    set (ds := map snd _).
    assert (Hds : forall det', In det' ds -> In det' detections).
    { intros det' Hd. subst ds. apply in_map_iff in Hd as [[i d] [<- Hd]].
      apply filter_In in Hd as [Hd _]. apply enumerate_In in Hd.
      apply In_lookup. eauto. }
    pose proof (create_all_wf ds _ [] Hwf1) as Hwf2.
    rewrite create_all_spec in * by exact Hwf1. cbn [fst snd] in *.
    set (st1 := {| tracks := _ ++ _ |}) in *.
    rewrite age_loop_keys. cbn [tracks].
    assert (Hks : List.NoDup (aged_keys (matched_tracks ms) (enumerate (dict_keys (tracks st)))))
      by (apply aged_keys_NoDup, Hwf).
    intros Hin.
    apply age_many in Hin as (t1 & Hin1 & Hcase); [|exact Hks|apply Hwf2].
    subst st1. cbn [tracks] in Hin1. apply in_app_iff in Hin1 as [Hin1|Hin1].
    + apply In_lookup in Hin1 as [j Hj1].
      assert (Hlen : (j < length (tracks st))%nat).
      { apply lookup_lt_Some in Hj1. apply (f_equal (@length Z)) in Hkeys.
        unfold dict_keys in Hkeys. rewrite !length_map in Hkeys. lia. }
      apply lookup_lt_is_Some in Hlen as [[k0 t0] H0].
      destruct (Hsh _ _ _ H0) as (t2 & Hj2 & Hm). rewrite Hj1 in Hj2.
      injection Hj2 as <- <-.
      assert (Hin0 : In (k, t0) (tracks st)) by (apply In_lookup; eauto).
      assert (Hkj : dict_keys (tracks st) !! j = Some k).
      { unfold dict_keys. rewrite lookup_map, H0. reflexivity. }
      destruct Hm as [[Hm ->]|[Hm (det & Hdet & -> & Hc)]].
      * destruct Hcase as [[_ ->]|[Hnin _]]; [now apply (origin_unmatched _ _ _ _ t0)|].
        exfalso. apply Hnin. apply aged_keys_In. eauto.
      * assert (Hsame : t' = update_fields (max_history st) det t0).
        { destruct Hcase as [[Hin _]|[_ ->]]; [|reflexivity].
          apply aged_keys_In in Hin as (j' & Hj' & Hm').
          assert (j' = j) by (eapply NoDup_lookup_inj; [apply Hwf | exact Hj' | exact Hkj]).
          subst j'. contradiction. }
        apply (origin_matched _ _ _ _ t0 det); [exact Hin0 | exact Hdet | | exact Hsame].
        exact (cost_iou st det k t0 Hwf Hin0 Hc).
    + pose proof (fresh_entries_shape _ _ _ _ _ Hin1) as (det & Hdet & Ht1 & Hk).
      assert (Hnew : t' = t1).
      { destruct Hcase as [[Hin _]|[_ ->]]; [|reflexivity].
        apply aged_keys_In in Hin as (j & Hj & _).
        apply list_elem_of_lookup_2, list_elem_of_In in Hj.
        exfalso. revert Hj. apply wf_fresh; [exact Hwf | lia]. }
      subst t' t1. apply (origin_created _ _ _ _ det); [auto | lia | now rewrite Hmh].
Qed.

Lemma update_origin (st : ObjectTracker) (detections : list Detection) (k : Z)
  (t' : Track) :
  wf st -> In (k, t') (tracks (fst (update st detections))) ->
  track_origin st detections k t'.
Proof.
  intros Hwf Hin. rewrite update_fst in Hin. cbn [fst] in Hin. unfold update_log in Hin.
  destruct (tracks st) as [|e d] eqn:Htr.
  - change (fold_left _ detections (st, [])) with (create_all st [] detections) in Hin.
    rewrite create_all_spec in Hin by exact Hwf. cbn [fst] in Hin.
    apply cleanup_spec in Hin. cbn [tracks] in Hin. rewrite Htr in Hin.
    apply fresh_entries_shape in Hin as (det & Hdet & Ht & Hk).
    now apply (origin_created _ _ _ _ det).
  - destruct (_associate_detections st detections) as [st1 created] eqn:Ha.
    cbn [fst] in Hin. apply cleanup_spec in Hin.
    apply associate_origin; [exact Hwf|]. now rewrite Ha.
Qed.

(** X2.  After any call of [update], every stored track is a track the call
    created from one of its detections, or a track that was there
    before and either aged by one frame or was updated once, with a
    detection of the call whose IoU with the track's previous box
    exceeds 0.3. *)
Theorem stored_track_origin (mh : nat) (frames : list (list Detection))
  (detections : list Detection) :
  List.Forall (fun kv => track_origin (final (init mh) frames) detections (fst kv) (snd kv))
              (tracks (final (init mh) (frames ++ [detections]))).
Proof.
  rewrite final_snoc. destruct (final_wf_seen mh frames) as [Hwf _].
  apply List.Forall_forall. intros [k t'] Hin. cbn [fst snd].
  now apply update_origin.
Qed.

(** *** Cleanup and ageing *)

Lemma dict_del_many_cons {V} (ks : list Z) (k : Z) (v : V) (d : list (Z * V)) :
  ~ In k ks ->
  fold_left (fun d k' => dict_del k' d) ks ((k, v) :: d)
  = (k, v) :: fold_left (fun d k' => dict_del k' d) ks d.
Proof.
  revert d. induction ks as [|k0 ks IH]; intros d Hk; simpl; [reflexivity|].
  destruct (Z.eqb_spec k0 k) as [->|Hne]; [exfalso; apply Hk; now left|].
  apply IH. intros Hin. apply Hk. now right.
Qed.

Lemma dict_del_filter {V} (p : Z * V -> bool) (d : list (Z * V)) :
  List.NoDup (dict_keys d) ->
  fold_left (fun d k => dict_del k d) (dict_keys (List.filter p d)) d
  = List.filter (fun kv => negb (p kv)) d.
Proof.
  induction d as [|[k v] d IH]; intros Hnd; [reflexivity|].
  simpl in Hnd. apply List.NoDup_cons_iff in Hnd as [Hk Hnd].
  cbn [List.filter]. destruct (p (k, v)); cbn [negb dict_keys map fst fold_left dict_del].
  - rewrite Z.eqb_refl. now apply IH.
  - rewrite dict_del_many_cons; [f_equal; now apply IH|].
    intros Hin. apply Hk. apply in_map_iff in Hin as [kv [<- Hin]].
    apply filter_In in Hin as [Hin _]. apply in_map_iff. eauto.
Qed.

Lemma cleanup_filter (st : ObjectTracker) :
  List.NoDup (dict_keys (tracks st)) ->
  tracks (_cleanup_tracks st)
  = List.filter (fun kv => Z.leb (age (snd kv)) (max_age st)) (tracks st).
Proof.
  intros Hnd. unfold _cleanup_tracks. cbn [tracks]. rewrite dict_del_filter by exact Hnd.
  apply List.filter_ext. intros kv. now rewrite Z.leb_antisym.
Qed.

(** X3.  [_cleanup_tracks] removes exactly the tracks whose age exceeds
    [max_age] and keeps the others, in order; the ids of the removed
    tracks are not handed out again. *)
Theorem cleanup_removes_old (st : ObjectTracker) :
  List.NoDup (dict_keys (tracks st)) ->
  tracks (_cleanup_tracks st)
    = List.filter (fun kv => Z.leb (age (snd kv)) (max_age st)) (tracks st) /\
  (forall k t, In (k, t) (tracks (_cleanup_tracks st)) <->
               In (k, t) (tracks st) /\ age t <= max_age st) /\
  next_id (_cleanup_tracks st) = next_id st.
Proof.
  intros Hnd. rewrite cleanup_filter by exact Hnd. split; [reflexivity|]. split.
  - intros k t. rewrite filter_In. cbn [snd]. now rewrite Z.leb_le.
  - reflexivity.
Qed.

Lemma cleanup_removes_old_witness :
  List.NoDup (dict_keys (tracks two_tracks)) /\
  dict_keys (tracks (_cleanup_tracks (fst (_associate_detections two_tracks [])))) = [1].
Proof.
  assert (H : List.NoDup (dict_keys (tracks two_tracks))).
  { repeat constructor; simpl; intuition discriminate. }
  split; [exact H|].
  assert (H' : List.NoDup (dict_keys (tracks (fst (_associate_detections two_tracks []))))) by exact H.
  rewrite (proj1 (cleanup_removes_old _ H')). reflexivity.
Defined.

Lemma update_nil (st : ObjectTracker) :
  List.NoDup (dict_keys (tracks st)) ->
  tracks (fst (update st []))
    = List.filter (fun kv => Z.leb (age (snd kv)) (max_age st))
        (map (fun kv => (fst kv, aged_by 1 (snd kv))) (tracks st)).
Proof.
  intros Hnd. rewrite update_fst. cbn [fst]. unfold update_log.
  destruct (tracks st) as [|e d] eqn:Htr.
  - cbn [fold_left fst snd]. rewrite cleanup_filter by now rewrite Htr.
    rewrite Htr. auto.
  - unfold _associate_detections. cbn [fst snd]. rewrite cleanup_filter.
    + cbn [tracks max_age next_id]. rewrite Htr. auto.
    + cbn [tracks]. unfold dict_keys in *. rewrite map_map. cbn [fst]. rewrite Htr. exact Hnd.
Qed.

(** X4.  With no detection, [update] creates nothing: every track gets one
    frame older, those beyond [max_age] are dropped, and [next_id] is
    unchanged. *)
Theorem update_without_detections (st : ObjectTracker) :
  List.NoDup (dict_keys (tracks st)) ->
  tracks (fst (update st []))
    = List.filter (fun kv => Z.leb (age (snd kv)) (max_age st))
        (map (fun kv => (fst kv, aged_by 1 (snd kv))) (tracks st)) /\
  next_id (fst (update st [])) = next_id st /\
  snd (fst (update_log st [])) = [].
Proof.
  intros Hnd. split; [now apply update_nil|].
  rewrite update_fst. cbn [fst]. unfold update_log.
  destruct (tracks st) as [|e d] eqn:Htr.
  - cbn [fold_left fst snd]. split; [apply cleanup_spec | reflexivity].
  - unfold _associate_detections. cbn [fst snd].
    split; [|reflexivity]. now rewrite (proj1 (cleanup_spec _)).
Qed.

Lemma update_without_detections_witness :
  List.NoDup (dict_keys (tracks two_tracks)) /\
  map (fun kv => (fst kv, age (snd kv))) (tracks (fst (update two_tracks []))) = [(1, 1)].
Proof.
  assert (H : List.NoDup (dict_keys (tracks two_tracks))).
  { repeat constructor; simpl; intuition discriminate. }
  split; [exact H|].
  rewrite (proj1 (update_without_detections two_tracks H)). reflexivity.
Defined.

(** *** Invariants over sequences of calls *)

Lemma final_params (mh : nat) (frames : list (list Detection)) :
  max_history (final (init mh) frames) = mh /\ max_age (final (init mh) frames) = 30.
Proof.
  induction frames as [|dets frames IH] using rev_ind; [auto|].
  rewrite final_snoc, update_fst. cbn [fst].
  destruct (final_wf_seen mh frames) as [Hwf _].
  destruct (update_log_spec _ dets Hwf) as [_ _ _ Hmh Hma _].
  rewrite Hmh, Hma. exact IH.
Qed.

Lemma update_age_bound (st : ObjectTracker) (detections : list Detection) (k : Z)
  (t' : Track) :
  wf st -> In (k, t') (tracks (fst (update st detections))) -> age t' <= max_age st.
Proof.
  intros Hwf. rewrite update_fst. cbn [fst]. unfold update_log.
  assert (Hpre : exists st1 created,
             match tracks st with
             | [] => create_all st [] detections
             | _ :: _ => _associate_detections st detections
             end = (st1, created) /\ wf st1 /\ max_age st1 = max_age st).
  { destruct (tracks st) as [|e d] eqn:Htr.
    - eexists _, _. split; [apply create_all_spec; exact Hwf|].
      pose proof (create_all_wf detections st [] Hwf) as Hwf1.
      rewrite create_all_spec in Hwf1 by exact Hwf. split; [exact Hwf1 | reflexivity].
    - destruct (associate_spec st detections Hwf) as [Hwf1 _ _ _ Hma _].
      destruct (_associate_detections st detections) as [st1 created]. eauto. }
  destruct Hpre as (st1 & created & Heq & Hwf1 & Hma). unfold create_all in Heq.
  rewrite Heq. cbn [fst]. rewrite cleanup_filter by apply Hwf1.
  intros Hin. apply filter_In in Hin as [_ Hle]. apply Z.leb_le in Hle.
  simpl in Hle. now rewrite <- Hma.
Qed.

Lemma stored_bounds (mh : nat) (frames : list (list Detection)) (k : Z) (t : Track) :
  In (k, t) (tracks (final (init mh) frames)) -> track_bounds mh t.
Proof.
  revert k t. induction frames as [|dets frames IH] using rev_ind; [intros k t []|].
  rewrite final_snoc. destruct (final_wf_seen mh frames) as [Hwf _].
  destruct (final_params mh frames) as [Hmh Hma].
  intros k t' Hin.
  pose proof (update_age_bound _ _ _ _ Hwf Hin) as Hage. rewrite Hma in Hage.
  destruct (update_origin _ _ _ _ Hwf Hin) as [det _ _ ->|t Ht ->|t det Ht _ _ ->];
    unfold track_bounds in *; rewrite ?Hmh in *.
  - cbn [fresh_track history age hits]. rewrite deque_append_len. cbn [length]. lia.
  - specialize (IH k t Ht). cbn [snd age_incr history age hits] in *. lia.
  - specialize (IH k t Ht). cbn [snd update_fields history age hits] in *.
    rewrite deque_append_len. lia.
Qed.

(** X5.  Over any sequence of calls, every stored track has a position
    history within the capacity (and not empty, unless the capacity is
    0), an age between 0 and 30, and at least one hit. *)
Theorem tracks_within_bounds (mh : nat) (frames : list (list Detection)) :
  List.Forall (fun kv => track_bounds mh (snd kv)) (tracks (final (init mh) frames)).
Proof.
  apply List.Forall_forall. intros [k t] Hin. now apply (stored_bounds mh frames k).
Qed.

Lemma aged_by_add (n m : Z) (t : Track) : aged_by m (aged_by n t) = aged_by (n + m) t.
Proof. unfold aged_by. simpl. f_equal. lia. Qed.

Lemma aged_filter (n : Z) (l : list (Z * Track)) :
  0 <= n ->
  List.filter (fun kv => Z.leb (age (snd kv)) 30)
    (map (fun kv => (fst kv, aged_by 1 (snd kv)))
       (List.filter (fun kv => Z.leb (age (snd kv)) 30)
          (map (fun kv => (fst kv, aged_by n (snd kv))) l)))
  = List.filter (fun kv => Z.leb (age (snd kv)) 30)
      (map (fun kv => (fst kv, aged_by (n + 1) (snd kv))) l).
Proof.
  intros Hn. induction l as [|[k t] l IH]; [reflexivity|].
  cbn [map List.filter fst snd].
  destruct (Z.leb_spec (age (aged_by n t)) 30) as [H1|H1]; cbn [map List.filter fst snd].
  - rewrite aged_by_add.
    destruct (Z.leb_spec (age (aged_by (n + 1) t)) 30); now rewrite IH.
  - destruct (Z.leb_spec (age (aged_by (n + 1) t)) 30) as [H2|H2]; [|exact IH].
    simpl in H1, H2. lia.
Qed.

Lemma final_repeat_snoc (mh : nat) (frames : list (list Detection)) (n : nat) :
  final (init mh) (frames ++ repeat [] (S n))
  = fst (update (final (init mh) (frames ++ repeat [] n)) []).
Proof.
  rewrite <- final_snoc, <- app_assoc. do 2 f_equal.
  change [[]] with (repeat (@nil Detection) 1). rewrite <- repeat_app.
  f_equal. lia.
Qed.

(** X6.  Frames without detections only age the tracks: after [n] of them
    the tracker holds the tracks it had whose age, [n] frames older, is
    still at most 30; after 31 no track is left. *)
Theorem empty_frames_age_out (mh : nat) (frames : list (list Detection)) (n : nat) :
  tracks (final (init mh) (frames ++ repeat [] n))
    = List.filter (fun kv => Z.leb (age (snd kv)) 30)
        (map (fun kv => (fst kv, aged_by (Z.of_nat n) (snd kv)))
             (tracks (final (init mh) frames))) /\
  tracks (final (init mh) (frames ++ repeat [] (31 + n))) = [].
Proof.
  assert (Hgen : forall m,
    tracks (final (init mh) (frames ++ repeat [] m))
    = List.filter (fun kv => Z.leb (age (snd kv)) 30)
        (map (fun kv => (fst kv, aged_by (Z.of_nat m) (snd kv)))
             (tracks (final (init mh) frames)))).
  { induction m as [|m IH].
    - simpl. rewrite app_nil_r.
      assert (Hb : List.Forall (fun kv => track_bounds mh (snd kv))
                               (tracks (final (init mh) frames)))
        by (apply List.Forall_forall; intros [k t] Hin; now apply (stored_bounds mh frames k)).
      induction (tracks (final (init mh) frames)) as [|[k t] l IHl]; [reflexivity|].
      apply List.Forall_cons_iff in Hb as [(_ & _ & Ha & _) Hb]. cbn [snd] in Ha.
      cbn [map List.filter fst snd].
      replace (aged_by (Z.of_nat 0) t) with t by (destruct t; unfold aged_by; simpl; f_equal; lia).
      match goal with
      | |- context [Z.leb ?a ?b] => destruct (Z.leb_spec a b) as [_|Hgt]; [|lia]
      end.
      now rewrite <- IHl by exact Hb.
    - rewrite final_repeat_snoc.
      destruct (final_wf_seen mh (frames ++ repeat [] m)) as [[Hnd _] _].
      destruct (final_params mh (frames ++ repeat [] m)) as [_ Hma].
      rewrite (update_nil _ Hnd), Hma, IH.
      rewrite aged_filter by lia. now rewrite Nat2Z.inj_succ. }
  split; [apply Hgen|]. rewrite Hgen. clear Hgen.
  assert (Hb : List.Forall (fun kv => track_bounds mh (snd kv))
                           (tracks (final (init mh) frames)))
    by (apply List.Forall_forall; intros [k t] Hin; now apply (stored_bounds mh frames k)).
  induction (tracks (final (init mh) frames)) as [|[k t] l IHl]; [reflexivity|].
  apply List.Forall_cons_iff in Hb as [(_ & _ & Ha & _) Hb]. cbn [snd] in Ha.
  cbn [map List.filter fst snd].
  match goal with
  | |- context [Z.leb ?a ?b] => destruct (Z.leb_spec a b) as [Hle|_]
  end.
  - simpl in Hle. lia.
  - now apply IHl.
Qed.

Lemma In_key_unique {V} (d : list (Z * V)) (k : Z) (v v' : V) :
  List.NoDup (dict_keys d) -> In (k, v) d -> In (k, v') d -> v = v'.
Proof.
  intros Hnd H1 H2. apply (dict_get_In k v d Hnd) in H1. apply (dict_get_In k v' d Hnd) in H2.
  congruence.
Qed.

(** X7.  [update] never changes the class of a track, whatever the class
    of the detection matched to it; nor its id, and its hits never
    decrease. *)
Theorem class_id_fixed (mh : nat) (frames : list (list Detection))
  (detections : list Detection) (k : Z) (t t' : Track) :
  In (k, t) (tracks (final (init mh) frames)) ->
  In (k, t') (tracks (final (init mh) (frames ++ [detections]))) ->
  class_id t' = class_id t /\ id t' = id t /\ hits t <= hits t'.
Proof.
  intros Hin Hin'. rewrite final_snoc in Hin'.
  destruct (final_wf_seen mh frames) as [Hwf _].
  destruct (update_origin _ _ _ _ Hwf Hin') as [det _ Hk _|t0 Ht ->|t0 det Ht _ _ ->].
  - destruct Hwf as [_ Hlt]. apply Hlt in Hin. lia.
  - rewrite (In_key_unique _ _ _ _ (proj1 Hwf) Hin Ht). simpl. lia.
  - rewrite (In_key_unique _ _ _ _ (proj1 Hwf) Hin Ht). simpl. lia.
Qed.

Lemma class_id_fixed_witness :
  In (1, fresh_track 30 1 person_det) (tracks (final (init 30) [[person_det]])) /\
  In (1, update_fields 30 backpack_det (fresh_track 30 1 person_det))
     (tracks (final (init 30) ([[person_det]] ++ [[backpack_det]]))) /\
  class_id (update_fields 30 backpack_det (fresh_track 30 1 person_det)) = 0.
Proof.
  assert (H1 : In (1, fresh_track 30 1 person_det) (tracks (final (init 30) [[person_det]])))
    by (vm_compute; left; reflexivity).
  assert (H2 : In (1, update_fields 30 backpack_det (fresh_track 30 1 person_det))
                  (tracks (final (init 30) ([[person_det]] ++ [[backpack_det]]))))
    by (vm_compute; left; reflexivity).
  split; [exact H1|]. split; [exact H2|].
  exact (proj1 (class_id_fixed 30 [[person_det]] [backpack_det] 1 _ _ H1 H2)).
Defined.

(** *** Every detection is used once *)

Lemma dict_alter_map {V} (f : V -> V) (k : Z) (d : list (Z * V)) :
  List.NoDup (dict_keys d) ->
  dict_alter f k d
  = map (fun kv => if Z.eqb (fst kv) k then (fst kv, f (snd kv)) else kv) d.
Proof.
  induction d as [|[k' v] d IH]; intros Hnd; [reflexivity|].
  cbn [dict_keys map fst] in Hnd. apply List.NoDup_cons_iff in Hnd as [Hk Hnd].
  cbn [dict_alter map fst snd]. rewrite (Z.eqb_sym k' k).
  destruct (Z.eqb_spec k k') as [->|Hne].
  - f_equal. rewrite <- (map_id d) at 1. apply map_ext_in. intros [k0 v0] Hin.
    cbn [fst snd]. destruct (Z.eqb_spec k0 k') as [->|_]; [|reflexivity].
    exfalso. apply Hk. now apply (in_map fst) in Hin.
  - f_equal. now apply IH.
Qed.

Lemma age_many_map (ks : list Z) (d : list (Z * Track)) :
  List.NoDup ks -> List.NoDup (dict_keys d) ->
  fold_left (fun d k => dict_alter age_incr k d) ks d
  = map (fun kv => if existsb (Z.eqb (fst kv)) ks then (fst kv, age_incr (snd kv)) else kv) d.
Proof.
  revert d. induction ks as [|k0 ks IH]; intros d Hks Hnd; cbn [fold_left existsb].
  - rewrite <- (map_id d) at 1. reflexivity.
  - apply List.NoDup_cons_iff in Hks as [Hk0 Hks].
    rewrite IH by (try rewrite dict_alter_keys; assumption).
    rewrite dict_alter_map by exact Hnd. rewrite map_map. apply map_ext.
    intros [k v]. cbn [fst snd]. destruct (Z.eqb_spec k k0) as [->|Hne]; cbn [fst snd orb].
    + replace (existsb (Z.eqb k0) ks) with false; [reflexivity|].
      symmetry. apply not_true_iff_false. intros H. apply existsb_exists in H as (x & Hx & He).
      apply Z.eqb_eq in He. subst x. contradiction.
    + reflexivity.
Qed.










(** *** The order of the matching loop *)

Lemma triple_leb_antisym (a b : Q * nat * nat) :
  triple_leb a b = true -> triple_leb b a = true ->
  snd (fst a) = snd (fst b) /\ snd a = snd b.
Proof.
  destruct a as [[c1 i1] j1], b as [[c2 i2] j2]. unfold triple_leb. cbn [fst snd].
  rewrite <- (Qcompare_antisym c1 c2).
  destruct (c1 ?= c2)%Q; cbn [CompOpp]; try discriminate.
  destruct (Nat.ltb_spec i1 i2), (Nat.ltb_spec i2 i1); try discriminate; try lia.
  rewrite !Nat.leb_le. lia.
Qed.

Lemma match_step_keep (st : ObjectTracker) (detections : list Detection)
  (ms : MatchState) (entry : Q * nat * nat) (j : nat) (x : Z * Track) :
  List.NoDup (dict_keys (tracks st)) -> match_inv st ms ->
  j ∈ matched_tracks ms -> tracks (m_tracker ms) !! j = Some x ->
  let ms' := match_step detections (dict_keys (tracks st)) ms entry in
  j ∈ matched_tracks ms' /\ tracks (m_tracker ms') !! j = Some x.
Proof.
  intros Hnd Hinv Hj Hx. destruct entry as [[cost det_idx] track_idx].
  cbv zeta. unfold match_step.
  destruct (bool_decide (det_idx ∈ matched_detections ms)
            || bool_decide (track_idx ∈ matched_tracks ms)) eqn:Hseen; [auto|].
  destruct (Qltb cost (7 # 10)); [|auto].
  destruct (dict_keys (tracks st) !! track_idx) as [track_id|] eqn:Hid; [|auto].
  destruct (detections !! det_idx) as [det|]; [|auto].
  apply orb_false_iff in Hseen as [_ Hnot]. apply bool_decide_eq_false in Hnot.
  cbn [matched_tracks m_tracker _update_track tracks]. split; [set_solver|].
  destruct Hinv as (_ & _ & _ & Hkeys & _).
  assert (Htr : exists v, tracks (m_tracker ms) !! track_idx = Some (track_id, v)).
  { rewrite <- Hkeys in Hid. unfold dict_keys in Hid. rewrite lookup_map in Hid.
    destruct (tracks (m_tracker ms) !! track_idx) as [[k0 v]|]; [|discriminate].
    simpl in Hid. injection Hid as ->. eauto. }
  destruct Htr as [v Hv].
  rewrite (dict_alter_insert _ track_id v _ track_idx) by (try rewrite Hkeys; assumption).
  rewrite list_lookup_insert_ne by congruence. exact Hx.
Qed.

Lemma match_loop_keep (st : ObjectTracker) (detections : list Detection)
  (entries : list (Q * nat * nat)) (ms : MatchState) (j : nat) (x : Z * Track) :
  List.NoDup (dict_keys (tracks st)) -> match_inv st ms ->
  j ∈ matched_tracks ms -> tracks (m_tracker ms) !! j = Some x ->
  let ms' := fold_left (match_step detections (dict_keys (tracks st))) entries ms in
  j ∈ matched_tracks ms' /\ tracks (m_tracker ms') !! j = Some x.
Proof.
  intros Hnd. revert ms. induction entries as [|e entries IH]; intros ms Hinv Hj Hx; [auto|].
  cbn [fold_left].
  destruct (match_step_keep st detections ms e j x Hnd Hinv Hj Hx) as [Hj' Hx'].
  apply IH; [now apply match_step_inv | exact Hj' | exact Hx'].
Qed.

Lemma match_loop_best (st : ObjectTracker) (detections : list Detection)
  (i j : nat) (det : Detection) (k : Z) (t : Track)
  (entries : list (Q * nat * nat)) (ms : MatchState) :
  List.NoDup (dict_keys (tracks st)) ->
  detections !! i = Some det -> tracks st !! j = Some (k, t) ->
  Qltb (cost_of st det k) (7 # 10) = true ->
  best_pair st detections i j (cost_of st det k) ->
  StronglySorted triple_le entries ->
  (forall e, In e entries -> valid_entry st detections e) ->
  In (cost_of st det k, i, j) entries ->
  match_inv st ms -> i ∉ matched_detections ms -> j ∉ matched_tracks ms ->
  let ms' := fold_left (match_step detections (dict_keys (tracks st))) entries ms in
  j ∈ matched_tracks ms' /\
  tracks (m_tracker ms') !! j = Some (k, update_fields (max_history st) det t).
Proof.
  intros Hnd Hdet Htr Hcost Hbest. revert ms.
  assert (Hkj : dict_keys (tracks st) !! j = Some k).
  { unfold dict_keys. rewrite lookup_map, Htr. reflexivity. }
  induction entries as [|[[c' i'] j'] entries IH]; intros ms Hsort Hval Hin Hinv Hi Hj;
    [destruct Hin|].
  apply StronglySorted_inv in Hsort as [Hsort Hhead].
  cbn [fold_left].
  destruct (decide (i' = i /\ j' = j)) as [[-> ->]|Hne].
  - (* the pair itself *)
    assert (Hc : c' = cost_of st det k).
    { apply (Hval (c', i, j) (or_introl eq_refl) det k); assumption. }
    subst c'.
    pose proof Hinv as (_ & Hmh & _ & Hkeys & Hpos).
    destruct (Hpos _ _ _ Htr) as (t0 & Ht0 & _ & Hm).
    rewrite bool_decide_eq_false_2 in Hm by exact Hj. subst t0.
    assert (Hstep : match_step detections (dict_keys (tracks st)) ms (cost_of st det k, i, j)
                    = {| m_tracker := _update_track (m_tracker ms) k det;
                         matched_tracks := {[j]} ∪ matched_tracks ms;
                         matched_detections := {[i]} ∪ matched_detections ms |}).
    { unfold match_step.
      rewrite (bool_decide_eq_false_2 _ Hi), (bool_decide_eq_false_2 _ Hj).
      cbn [orb]. now rewrite Hcost, Hkj, Hdet. }
    apply match_loop_keep.
    + exact Hnd.
    + now apply match_step_inv.
    + rewrite Hstep. cbn [matched_tracks]. set_solver.
    + rewrite Hstep. cbn [m_tracker _update_track tracks].
      rewrite (dict_alter_insert _ k t _ j) by (try rewrite Hkeys; assumption).
      rewrite Hmh. apply list_lookup_insert_eq. eapply lookup_lt_Some. exact Ht0.
  - (* another pair, visited before *)
    assert (Hin' : In (cost_of st det k, i, j) entries).
    { destruct Hin as [Heq|Hin]; [|exact Hin].
      injection Heq as _ -> ->. exfalso. apply Hne. auto. }
    assert (Hle : triple_le (c', i', j') (cost_of st det k, i, j)).
    { rewrite List.Forall_forall in Hhead. now apply Hhead. }
    assert (Hfree : (i ∉ matched_detections
                           (match_step detections (dict_keys (tracks st)) ms (c', i', j'))) /\
                    (j ∉ matched_tracks
                           (match_step detections (dict_keys (tracks st)) ms (c', i', j')))).
    { unfold match_step.
      destruct (bool_decide (i' ∈ matched_detections ms)
                || bool_decide (j' ∈ matched_tracks ms)); [auto|].
      destruct (Qltb c' (7 # 10)); [|auto].
      destruct (dict_keys (tracks st) !! j') as [k'|] eqn:Hk'; [|auto].
      destruct (detections !! i') as [det'|] eqn:Hd'; [|auto].
      cbn [matched_detections matched_tracks].
      assert (Hboth : i' <> i /\ j' <> j).
      { assert (Htr' : exists t', tracks st !! j' = Some (k', t')).
        { unfold dict_keys in Hk'. rewrite lookup_map in Hk'.
          destruct (tracks st !! j') as [[k0 t0]|]; [|discriminate].
          simpl in Hk'. injection Hk' as ->. eauto. }
        destruct Htr' as [t' Ht'].
        assert (Hc : c' = cost_of st det' k').
        { apply (Hval (c', i', j') (or_introl eq_refl) det' k'); assumption. }
        destruct (Nat.eq_dec i' i) as [Ei|Ei]; [|destruct (Nat.eq_dec j' j) as [Ej|Ej]];
          [| |auto].
        - exfalso. apply Hne.
          assert (Hge : triple_le (cost_of st det k, i, j) (cost_of st det' k', i', j'))
            by (apply (Hbest i' j' det' k' t'); auto).
          rewrite <- Hc in Hge.
          destruct (triple_leb_antisym _ _ Hle Hge) as [H1 H2]. cbn [fst snd] in H1, H2. auto.
        - exfalso. apply Hne.
          assert (Hge : triple_le (cost_of st det k, i, j) (cost_of st det' k', i', j'))
            by (apply (Hbest i' j' det' k' t'); auto).
          rewrite <- Hc in Hge.
          destruct (triple_leb_antisym _ _ Hle Hge) as [H1 H2]. cbn [fst snd] in H1, H2. auto. }
      set_solver. }
    apply IH; try tauto.
    + intros e He. apply Hval. now right.
    + now apply match_step_inv.
Qed.

Lemma flat_costs_In (st : ObjectTracker) (detections : list Detection)
  (i j : nat) (det : Detection) (k : Z) :
  detections !! i = Some det -> dict_keys (tracks st) !! j = Some k ->
  In (cost_of st det k, i, j) (flat_costs_of st detections (dict_keys (tracks st))).
Proof.
  intros Hi Hj. unfold flat_costs_of. apply in_flat_map. exists (i, det).
  split; [now apply enumerate_In|]. apply in_map_iff. exists (j, k).
  split; [reflexivity | now apply enumerate_In].
Qed.

Lemma associate_best (st : ObjectTracker) (detections : list Detection)
  (i j : nat) (det : Detection) (k : Z) (t : Track) :
  wf st -> detections !! i = Some det -> tracks st !! j = Some (k, t) ->
  (3 # 10 < _calculate_iou (det_bbox det) (bbox t))%Q ->
  best_pair st detections i j (cost_of st det k) ->
  In (k, update_fields (max_history st) det t)
     (tracks (fst (_associate_detections st detections))).
Proof.
  intros Hwf Hdet Htr Hiou Hbest. unfold _associate_detections.
  destruct detections as [|det0 dets0]; [discriminate|].
  set (detections := det0 :: dets0) in *.
  assert (Hin0 : In (k, t) (tracks st)) by (apply In_lookup; eauto).
  assert (Hkj : dict_keys (tracks st) !! j = Some k).
  { unfold dict_keys. rewrite lookup_map, Htr. reflexivity. }
  assert (Hcost : Qltb (cost_of st det k) (7 # 10) = true).
  { unfold cost_of. rewrite (dict_get_In k t) by (try apply Hwf; assumption).
    apply Qltb_lt. lra. }
  set (ms := fold_left (match_step _ _) _ _).
  assert (Hinv : match_inv st ms).
  { apply match_loop_inv; [apply Hwf | apply match_inv_init]. }
  assert (Hms : j ∈ matched_tracks ms /\
                tracks (m_tracker ms) !! j
                = Some (k, update_fields (max_history st) det t)).
  { subst ms. apply (match_loop_best st detections i j det k t); try assumption.
    - apply Hwf.
    - apply sort_costs_sorted.
    - apply flat_costs_valid.
    - apply (Permutation_in _ (Permutation_sym (sort_costs_perm _))).
      now apply flat_costs_In.
    - apply match_inv_init.
    - cbn [matched_detections]. set_solver.
    - cbn [matched_tracks]. set_solver. }
  destruct Hms as [Hmj Hmt].
  pose proof (match_inv_wf _ _ Hwf Hinv) as Hwf1.
  rewrite create_step_fold.
  set (ds := map snd _).
  pose proof (create_all_wf ds _ [] Hwf1) as Hwf2.
  rewrite create_all_spec in * by exact Hwf1. cbn [fst snd] in *.
  rewrite age_loop_keys. cbn [tracks].
  assert (Hks : List.NoDup (aged_keys (matched_tracks ms) (enumerate (dict_keys (tracks st)))))
    by (apply aged_keys_NoDup, Hwf).
  rewrite age_many_map by (try exact Hks; apply Hwf2).
  apply in_map_iff. exists (k, update_fields (max_history st) det t). split.
  - cbn [fst snd].
    replace (existsb (Z.eqb k) _) with false; [reflexivity|].
    symmetry. apply not_true_iff_false. intros H. apply existsb_exists in H as (x & Hx & He).
    apply Z.eqb_eq in He. subst x. apply aged_keys_In in Hx as (j' & Hj' & Hn').
    assert (j' = j) by (eapply NoDup_lookup_inj; [apply Hwf | exact Hj' | exact Hkj]).
    subst j'. contradiction.
  - apply in_app_iff. left. apply In_lookup. eauto.
Qed.

(** X1.  The loop of [_associate_detections] takes the pairs in ascending
    order of [(cost, detection position, track position)], so a pair
    that comes before every other pair with the same detection or the
    same track is always matched when its IoU exceeds 0.3: after the
    call the track is stored as updated with that detection. *)
Theorem best_pair_matched (mh : nat) (frames : list (list Detection))
  (detections : list Detection) (i j : nat) (det : Detection) (k : Z) (t : Track) :
  detections !! i = Some det ->
  tracks (final (init mh) frames) !! j = Some (k, t) ->
  (3 # 10 < _calculate_iou (det_bbox det) (bbox t))%Q ->
  best_pair (final (init mh) frames) detections i j
            (cost_of (final (init mh) frames) det k) ->
  In (k, update_fields mh det t)
     (tracks (final (init mh) (frames ++ [detections]))).
Proof.
  intros Hdet Htr Hiou Hbest. rewrite final_snoc.
  destruct (final_wf_seen mh frames) as [Hwf _].
  destruct (final_params mh frames) as [Hmh Hma].
  set (st := final (init mh) frames) in *.
  pose proof (associate_best st detections i j det k t Hwf Hdet Htr Hiou Hbest) as Hin.
  rewrite Hmh in Hin.
  rewrite update_fst. cbn [fst]. unfold update_log.
  destruct (tracks st) as [|e d] eqn:Hts; [discriminate|].
  pose proof (associate_spec st detections Hwf) as [Hwf1 _ _ _ Hma1 _].
  destruct (_associate_detections st detections) as [st1 created].
  cbn [fst snd] in *. rewrite cleanup_filter by apply Hwf1.
  apply filter_In. split; [exact Hin|]. cbn [snd update_fields age].
  rewrite Hma1, Hma. reflexivity.
Qed.

Lemma best_pair_matched_witness :
  In (1, update_fields 30 backpack_det (fresh_track 30 1 person_det))
     (tracks (final (init 30) ([[person_det; other_det]] ++ [next_dets]))).
Proof.
  apply (best_pair_matched 30 [[person_det; other_det]] next_dets 1 0 backpack_det 1
           (fresh_track 30 1 person_det)).
  - reflexivity.
  - vm_compute. reflexivity.
  - vm_compute. reflexivity.
  - intros i' j' det' k' t' Hd Ht Hor. unfold triple_le.
    destruct i' as [|[|i']]; [| |destruct Hor as [Hor|Hor]; [discriminate Hor|]];
      (destruct j' as [|[|j']]; [| |vm_compute in Ht; discriminate Ht]);
      vm_compute in Hd, Ht; try discriminate Hd; try discriminate Hor;
      injection Hd as <-; injection Ht as <- <-; vm_compute; reflexivity.
Defined.

End TrackerLifeFacts.


(** ** Labels and histories of the classifier *)

Module LabelFacts.
Import Tracker Classifier ClassifierSpec ClassifierFacts ClassifierAngle LabelSpec.

(** *** The speed ladder *)

Lemma individual_not_interacting (c : ActivityClassifier) (t : Track) :
  _classify_individual_activity c t <> INTERAGINDO.
Proof.
  unfold _classify_individual_activity.
  destruct (_is_erratic_behavior c (id t)); [discriminate|].
  destruct (Qltb _ stopped_speed_sq); [discriminate|].
  destruct (Qltb _ walking_speed_sq); [discriminate|].
  destruct (Qle_bool _ _); discriminate.
Qed.

(** X9.  Without erratic behaviour the label depends on the speed alone:
    [PARADO] below 2 px/frame, [CORRENDO] from 8 px/frame, [CAMINHANDO]
    in between - the threshold [walking_speed] has no effect; and
    [_classify_individual_activity] never answers [INTERAGINDO]. *)
Theorem speed_ladder (c : ActivityClassifier) (t : Track) :
  _classify_individual_activity c t <> INTERAGINDO /\
  (_is_erratic_behavior c (id t) = true ->
   _classify_individual_activity c t = COMPORTAMENTO_ERRATICO) /\
  (_is_erratic_behavior c (id t) = false ->
   (_classify_individual_activity c t = PARADO <-> (normsq (velocity t) < 4)%Q) /\
   (_classify_individual_activity c t = CAMINHANDO
      <-> (4 <= normsq (velocity t) < 64)%Q) /\
   (_classify_individual_activity c t = CORRENDO <-> (64 <= normsq (velocity t))%Q)).
Proof.
  unfold _classify_individual_activity, stopped_speed_sq, walking_speed_sq, running_speed_sq.
  destruct (_is_erratic_behavior c (id t)).
  { split; [discriminate|]. split; [reflexivity | discriminate]. }
  destruct (Qltb (normsq (velocity t)) 4) eqn:H4;
  destruct (Qltb (normsq (velocity t)) 25) eqn:H25;
  destruct (Qle_bool 64 (normsq (velocity t))) eqn:H64;
    rewrite ?Qltb_lt, ?Qltb_ge in *;
    try (apply Qle_bool_iff in H64);
    try (apply not_true_iff_false in H64; rewrite Qle_bool_iff in H64; apply Qnot_le_lt in H64);
    (split; [discriminate|]); (split; [discriminate|]); intros _;
    repeat split; intros; try discriminate; try reflexivity; try lra.
Qed.

(** *** What [classify] returns *)

Lemma individual_ext (c c' : ActivityClassifier) (t : Track) :
  position_history c = position_history c' ->
  _classify_individual_activity c t = _classify_individual_activity c' t.
Proof.
  intros H. unfold _classify_individual_activity, _is_erratic_behavior. now rewrite H.
Qed.

Lemma classify_fold (tracks ts : list Track) (c : ActivityClassifier)
  (acts : gmap Z Activity) :
  position_history (fst (fold_left (classify_step tracks) ts (c, acts)))
    = position_history c /\
  history_size (fst (fold_left (classify_step tracks) ts (c, acts))) = history_size c /\
  forall k,
    snd (fold_left (classify_step tracks) ts (c, acts)) !! k
    = match last (List.filter (fun t => Z.eqb (id t) k) ts) with
      | Some t => Some (label_of c tracks t)
      | None => acts !! k
      end.
Proof.
  revert c acts. induction ts as [|t ts IH] using rev_ind; intros c acts.
  - simpl. auto.
  - rewrite fold_left_app. cbn [fold_left].
    destruct (IH c acts) as (Hp & Hs & Hk).
    destruct (fold_left (classify_step tracks) ts (c, acts)) as [c1 acts1].
    cbn [fst snd] in *. unfold classify_step. cbn [fst snd position_history history_size].
    split; [exact Hp|]. split; [exact Hs|].
    intros k. rewrite List.filter_app. cbn [List.filter].
    destruct (Z.eqb_spec (id t) k) as [<-|Hne].
    + rewrite last_snoc, lookup_insert_eq. unfold label_of.
      now rewrite (individual_ext c1 c t Hp).
    + rewrite app_nil_r, lookup_insert_ne by exact Hne. apply Hk.
Qed.

Lemma classify_lookup (c : ActivityClassifier) (tracks : list Track) (n k : Z) :
  snd (classify c tracks n) !! k
  = match last (List.filter (fun t => Z.eqb (id t) k) tracks) with
    | Some t =>
        Some (if _check_interactions t tracks then INTERAGINDO
              else _classify_individual_activity (_update_position_history c tracks) t)
    | None => None
    end.
Proof.
  unfold classify.
  destruct (classify_fold tracks tracks (_update_position_history c tracks) ∅) as (_ & _ & Hk).
  rewrite Hk. destruct (last _) as [t|]; [|apply lookup_empty].
  unfold label_of. rewrite bool_decide_eq_true_2 by apply individual_not_interacting.
  reflexivity.
Qed.

Lemma last_filter_Some {A} (p : A -> bool) (l : list A) :
  is_Some (last (List.filter p l)) <-> exists x, In x l /\ p x = true.
Proof.
  split.
  - intros [x Hx]. exists x. apply filter_In.
    apply last_Some in Hx as [l' Hx]. rewrite Hx. apply in_app_iff. right. now left.
  - intros (x & Hx & Hp). assert (Hin : In x (List.filter p l)) by now apply filter_In.
    destruct (List.filter p l) as [|y l'] using rev_ind; [destruct Hin|].
    rewrite last_snoc. eauto.
Qed.

Lemma classify_dom (c : ActivityClassifier) (tracks : list Track) (n k : Z) :
  is_Some (snd (classify c tracks n) !! k) <-> In k (map id tracks).
Proof.
  rewrite classify_lookup, in_map_iff.
  destruct (last (List.filter (fun t => Z.eqb (id t) k) tracks)) as [t|] eqn:Hl.
  - assert (Hs : is_Some (last (List.filter (fun t => Z.eqb (id t) k) tracks)))
      by (rewrite Hl; eauto).
    apply last_filter_Some in Hs as (x & Hx & Hp). apply Z.eqb_eq in Hp.
    split; [eauto | intros _; eauto].
  - split; [intros [x Hx]; discriminate|]. intros (x & Hk & Hx).
    assert (Hs : is_Some (last (List.filter (fun t => Z.eqb (id t) k) tracks))).
    { apply last_filter_Some. exists x. split; [exact Hx | now apply Z.eqb_eq]. }
    rewrite Hl in Hs. destruct Hs as [y Hy]. discriminate.
Qed.

(** X10.  [classify] labels exactly the ids of its input: the label of an id
    is the one computed for the last track carrying it -
    [INTERAGINDO] if [_check_interactions] holds for that track, its
    individual label otherwise - and ids not in the input get none. *)
Theorem classify_labels (c : ActivityClassifier) (tracks : list Track) (n k : Z) :
  snd (classify c tracks n) !! k
  = match last (List.filter (fun t => Z.eqb (id t) k) tracks) with
    | Some t =>
        Some (if _check_interactions t tracks then INTERAGINDO
              else _classify_individual_activity (_update_position_history c tracks) t)
    | None => None
    end /\
  (is_Some (snd (classify c tracks n) !! k) <-> In k (map id tracks)).
Proof. split; [apply classify_lookup | apply classify_dom]. Qed.

(** *** Interactions *)

Lemma last_with_id (tracks : list Track) (t : Track) :
  List.NoDup (map id tracks) -> In t tracks ->
  last (List.filter (fun t' => Z.eqb (id t') (id t)) tracks) = Some t.
Proof.
  induction tracks as [|u tracks IH]; intros Hnd Ht; [destruct Ht|].
  simpl in Hnd. apply List.NoDup_cons_iff in Hnd as [Hu Hnd]. cbn [List.filter].
  destruct Ht as [->|Ht].
  - rewrite Z.eqb_refl, filter_none; [reflexivity|].
    intros x Hx. apply Z.eqb_neq. intros Heq. apply Hu. rewrite <- Heq. now apply in_map.
  - destruct (Z.eqb_spec (id u) (id t)) as [Heq|_]; [|now apply IH].
    exfalso. apply Hu. rewrite Heq. now apply in_map.
Qed.

Lemma check_interactions_true (t : Track) (all_tracks : list Track) :
  _check_interactions t all_tracks = true <->
  class_id t = 0 /\
  exists other, In other all_tracks /\ id other <> id t /\ class_id other = 0 /\
    (distsq (bbox_center (bbox t)) (bbox_center (bbox other)) < interaction_distance_sq)%Q.
Proof.
  unfold _check_interactions. rewrite existsb_exists. split.
  - intros (other & Hin & Hc).
    destruct (Z.eqb_spec (id other) (id t)); [discriminate|].
    destruct (Z.eqb_spec (class_id t) 0); [|discriminate].
    destruct (Z.eqb_spec (class_id other) 0); [|discriminate].
    simpl in Hc. apply Qltb_lt in Hc. eauto 6.
  - intros (Ht & other & Hin & Hid & Ho & Hd). exists other. split; [exact Hin|].
    destruct (Z.eqb_spec (id other) (id t)); [contradiction|].
    rewrite Ht, Ho. simpl. now apply Qltb_lt.
Qed.

(** X11.  Two persons of a frame with different ids and centres less than
    100 px apart are both found interacting, whatever their individual
    labels, and [classify] labels both [INTERAGINDO] (ids of the frame
    pairwise different); a track that is not a person never is. *)
Theorem interaction_is_mutual (c : ActivityClassifier) (tracks : list Track) (n : Z)
  (a b : Track) :
  List.NoDup (map id tracks) -> In a tracks -> In b tracks ->
  class_id a = 0 -> class_id b = 0 -> id a <> id b ->
  (distsq (bbox_center (bbox a)) (bbox_center (bbox b)) < interaction_distance_sq)%Q ->
  snd (classify c tracks n) !! id a = Some INTERAGINDO /\
  snd (classify c tracks n) !! id b = Some INTERAGINDO /\
  (forall t, class_id t <> 0 -> _check_interactions t tracks = false).
Proof.
  intros Hnd Ha Hb Hca Hcb Hid Hd.
  rewrite !classify_lookup, (last_with_id tracks a Hnd Ha), (last_with_id tracks b Hnd Hb).
  assert (Hia : _check_interactions a tracks = true).
  { apply check_interactions_true. split; [exact Hca|]. exists b. auto. }
  assert (Hib : _check_interactions b tracks = true).
  { apply check_interactions_true. split; [exact Hcb|]. exists a.
    repeat split; auto. now rewrite AnomalyFacts.distsq_sym. }
  rewrite Hia, Hib. repeat split.
  intros t Ht. apply not_true_iff_false. intros H.
  apply check_interactions_true in H as [H _]. contradiction.
Qed.

Lemma interaction_is_mutual_witness :
  snd (classify init near_pair 0) !! 1 = Some INTERAGINDO /\
  snd (classify init near_pair 0) !! 2 = Some INTERAGINDO.
Proof.
  assert (Hnd : List.NoDup (map id near_pair)).
  { repeat constructor; simpl; intuition discriminate. }
  destruct (interaction_is_mutual init near_pair 0
              (person_at 1 100 100 (0, 0)%Q) (person_at 2 150 100 (3, 0)%Q) Hnd)
    as (Ha & Hb & _); simpl; auto; try discriminate; try reflexivity.
Defined.

(** *** Bounded histories *)

Lemma position_update_bounded (tracks : list Track) (c : ActivityClassifier) :
  (1 <= history_size c)%nat -> histories_bounded c ->
  histories_bounded (_update_position_history c tracks) /\
  history_size (_update_position_history c tracks) = history_size c.
Proof.
  revert c. induction tracks as [|t tracks IH]; intros c Hs Hb; [auto|].
  unfold _update_position_history in *. cbn [fold_left].
  set (c1 := mkClassifier _ _ _).
  destruct (IH c1) as [Hb1 Hs1]; [exact Hs | | split; [exact Hb1 | exact Hs1]].
  destruct Hb as [Hp Ha]. split; [|exact Ha].
  intros k ps. unfold c1. cbn [position_history history_size].
  destruct (decide (id t = k)) as [<-|Hne].
  - rewrite lookup_insert_eq. intros [= <-]. rewrite deque_append_len. lia.
  - rewrite lookup_insert_ne by exact Hne. apply Hp.
Qed.

Lemma classify_fold_bounded (tracks ts : list Track) (c : ActivityClassifier)
  (acts : gmap Z Activity) :
  (1 <= history_size c)%nat -> histories_bounded c ->
  histories_bounded (fst (fold_left (classify_step tracks) ts (c, acts))) /\
  history_size (fst (fold_left (classify_step tracks) ts (c, acts))) = history_size c.
Proof.
  revert c acts. induction ts as [|t ts IH]; intros c acts Hs Hb; [auto|].
  cbn [fold_left]. unfold classify_step at 2 4.
  match goal with |- context [<[id t := ?a]> acts] => set (act := a) end.
  set (c1 := mkClassifier _ _ _).
  destruct (IH c1 (<[id t := act]> acts)) as [Hb1 Hs1];
    [exact Hs | | split; [exact Hb1 | exact Hs1]].
  destruct Hb as [Hp Ha]. split; [exact Hp|].
  intros k l. unfold c1. cbn [activity_history history_size].
  destruct (decide (id t = k)) as [<-|Hne].
  - rewrite lookup_insert_eq. intros [= <-]. rewrite deque_append_len. lia.
  - rewrite lookup_insert_ne by exact Hne. apply Ha.
Qed.

(** X12.  Over any sequence of [classify] calls on a new classifier, every
    position history and every activity history holds between 1 and 30
    entries. *)
Theorem histories_stay_bounded (n : Z) (frames : list (list Track)) :
  histories_bounded (classifier_after init n frames) /\
  history_size (classifier_after init n frames) = 30%nat.
Proof.
  assert (Hgen : forall c m, (1 <= history_size c)%nat -> histories_bounded c ->
            histories_bounded (classifier_after c m frames) /\
            history_size (classifier_after c m frames) = history_size c).
  { induction frames as [|tracks frames IH]; intros c m Hs Hb; [auto|].
    cbn [classifier_after]. unfold classify.
    destruct (position_update_bounded tracks c Hs Hb) as [Hb1 Hs1].
    destruct (classify_fold_bounded tracks tracks (_update_position_history c tracks) ∅)
      as [Hb2 Hs2]; [rewrite Hs1; exact Hs | exact Hb1 |].
    rewrite Hs1 in Hs2.
    destruct (IH _ (m + 1) ltac:(rewrite Hs2; exact Hs) Hb2) as [Hb3 Hs3].
    split; [exact Hb3 | now rewrite Hs3]. }
  apply Hgen; [simpl; lia|].
  split; intros k l H; simpl in H; rewrite lookup_empty in H; discriminate.
Qed.

(** *** Steady motion *)

Lemma steps_sum (v : Vec) (ps : list Vec) :
  constant_step v ps ->
  forall m i a b, ps !! i = Some a -> ps !! (i + m)%nat = Some b ->
    (fst b - fst a == inject_Z (Z.of_nat m) * fst v)%Q /\
    (snd b - snd a == inject_Z (Z.of_nat m) * snd v)%Q.
Proof.
  intros Hc. induction m as [|m IH]; intros i a b Ha Hb.
  - rewrite Nat.add_0_r, Ha in Hb. injection Hb as <-. simpl. split; ring.
  - pose proof (lookup_lt_Some _ _ _ Hb) as Hlt0.
    assert (Hlt : (i + m < length ps)%nat) by (eapply Nat.lt_trans; [|exact Hlt0]; lia).
    apply lookup_lt_is_Some in Hlt as [b' Hb'].
    destruct (IH i a b' Ha Hb') as [Hx Hy].
    replace (i + S m)%nat with (S (i + m)) in Hb by lia.
    destruct (Hc _ _ _ Hb' Hb) as [Sx Sy].
    rewrite Nat2Z.inj_succ, <- Z.add_1_r, inject_Z_plus.
    change (inject_Z 1) with 1%Q. split; nra.
Qed.

Lemma same_direction_no_change (d1 d2 : Vec) (X Y : Q) :
  (fst d1 == X)%Q -> (snd d1 == Y)%Q -> (fst d2 == X)%Q -> (snd d2 == Y)%Q ->
  direction_change_exceeded d1 d2 = false.
Proof.
  intros H1 H2 H3 H4. unfold direction_change_exceeded, dot, normsq.
  apply orb_false_iff. split; apply Qltb_ge; rewrite H1, H2, H3, H4.
  - nra.
  - assert (0 <= (X * X + Y * Y) * (X * X + Y * Y))%Q by nra. lra.
Qed.

(** X13.  A track whose recorded positions advance by the same vector at
    every step - steady motion in a straight line, or standing still -
    is never found erratic, however long its history. *)
Theorem steady_motion_not_erratic (c : ActivityClassifier) (k : Z) (ps : list Vec)
  (v : Vec) :
  position_history c !! k = Some ps -> constant_step v ps ->
  _is_erratic_behavior c k = false.
Proof.
  intros Hps Hc. apply not_true_iff_false. intros H.
  apply erratic_iff in H as (ps' & Hps' & _ & Hcount). rewrite Hps in Hps'.
  injection Hps' as <-. unfold count_changes in Hcount.
  rewrite filter_none in Hcount; [simpl in Hcount; lia|].
  intros i Hi. apply in_seq in Hi as [_ Hi]. unfold window_size in Hi.
  assert (Ha : is_Some (ps !! i)) by (apply lookup_lt_is_Some; lia).
  assert (Hb : is_Some (ps !! (i + 4)%nat)) by (apply lookup_lt_is_Some; lia).
  assert (Hc' : is_Some (ps !! (i + 5)%nat)) by (apply lookup_lt_is_Some; lia).
  assert (Hd : is_Some (ps !! (i + 9)%nat)) by (apply lookup_lt_is_Some; lia).
  destruct Ha as [a Ha], Hb as [b Hb], Hc' as [c' Hc'], Hd as [d Hd].
  rewrite (window_pair_spec ps i a b c' d Ha Hb Hc' Hd).
  destruct (steps_sum v ps Hc 4 i a b Ha Hb) as [Hx1 Hy1].
  replace (i + 9)%nat with (i + 5 + 4)%nat in Hd by lia.
  destruct (steps_sum v ps Hc 4 (i + 5) c' d Hc' Hd) as [Hx2 Hy2].
  rewrite (same_direction_no_change (vsub b a) (vsub d c') _ _ Hx1 Hy1 Hx2 Hy2).
  apply andb_false_r.
Qed.

Lemma steady_motion_not_erratic_witness :
  _is_erratic_behavior (with_history straight_path) 1 = false.
Proof.
  apply (steady_motion_not_erratic (with_history straight_path) 1 straight_path (3, 1)%Q).
  - reflexivity.
  - intros i a b Ha Hb. unfold straight_path in Ha, Hb.
    do 20 (destruct i as [|i];
           [simpl in Ha, Hb;
            first [discriminate
                  | injection Ha as <-; injection Hb as <-; split; reflexivity]|]).
    simpl in Ha. discriminate.
Defined.

(** *** Angle differences *)

(** X14.  For two angles in [[-180, 180]], as [_calculate_direction] returns
    them, [_angle_difference] lies in [[0, 180]]; it does not depend on
    the order of its arguments. *)
Theorem angle_difference_range (a1 a2 : Q) :
  (_angle_difference a1 a2 == _angle_difference a2 a1)%Q /\
  ((-180 <= a1 <= 180)%Q -> (-180 <= a2 <= 180)%Q ->
   (0 <= _angle_difference a1 a2 <= 180)%Q).
Proof.
  assert (Hsym : (Qabs (a1 - a2) == Qabs (a2 - a1))%Q)
    by (rewrite (Qabs_Qminus a1 a2); reflexivity).
  pose proof (Qabs_nonneg (a1 - a2)) as Hpos.
  unfold _angle_difference. split.
  - destruct (Qltb 180 (Qabs (a1 - a2))) eqn:E1; destruct (Qltb 180 (Qabs (a2 - a1))) eqn:E2;
      rewrite ?Qltb_lt, ?Qltb_ge in *; try lra.
  - intros H1 H2.
    assert (Hle : (Qabs (a1 - a2) <= 360)%Q) by (apply Qabs_Qle_condition; lra).
    destruct (Qltb 180 (Qabs (a1 - a2))) eqn:E1; rewrite ?Qltb_lt, ?Qltb_ge in *; lra.
Qed.

Lemma angle_difference_range_witness :
  (0 <= _angle_difference 170 (-170) <= 180)%Q /\ (_angle_difference 170 (-170) == 20)%Q.
Proof.
  split; [|reflexivity].
  apply (proj2 (angle_difference_range 170 (-170))); split; discriminate.
Defined.

End LabelFacts.


(** ** Track states, records and statistics of the anomaly detector *)

Module AnomalyStateFacts.
Import Tracker Classifier Anomaly AnomalySpec TrackerFacts AnomalyFacts.
Import Statistics AnomalyStateSpec.

(** *** The state refresh *)

Lemma state_step_refreshed (timestamp : Q) (d : AnomalyDetector) (track : Track) :
  track_states (state_step timestamp d track) !! id track
  = Some (refreshed timestamp track (track_states d !! id track)).
Proof. unfold state_step. cbn [track_states]. now rewrite lookup_insert_eq. Qed.

Lemma purge_step_self (timestamp : Q) (d : AnomalyDetector) (k : Z) :
  track_states (purge_step timestamp d k) !! k
  = match track_states d !! k with
    | Some s => if stale timestamp s then None else Some s
    | None => None
    end.
Proof.
  unfold purge_step, stale. destruct (track_states d !! k) as [s|] eqn:Hs; [|exact Hs].
  destruct (Qltb 5 _); [|exact Hs]. cbn [track_states]. apply lookup_delete_eq.
Qed.

Lemma purge_fold_self (timestamp : Q) (l : list Z) (d : AnomalyDetector) (k : Z) :
  List.NoDup l -> In k l ->
  track_states (fold_left (purge_step timestamp) l d) !! k
  = track_states (purge_step timestamp d k) !! k.
Proof.
  revert d. induction l as [|a l IH]; intros d Hnd Hin; [destruct Hin|].
  apply List.NoDup_cons_iff in Hnd as [Ha Hnd]. cbn [fold_left].
  destruct (Z.eq_dec a k) as [->|Hne].
  - now apply purge_fold_other.
  - destruct Hin as [Heq|Hin]; [contradiction|].
    rewrite IH by assumption. rewrite !purge_step_self.
    rewrite purge_step_other by congruence. reflexivity.
Qed.

Lemma map_keys_NoDup {V} (m : gmap Z V) : List.NoDup (map fst (map_to_list m)).
Proof. apply NoDup_ListNoDup. apply (NoDup_fst_map_to_list m). Qed.

Lemma map_keys_In {V} (m : gmap Z V) (k : Z) :
  In k (map fst (map_to_list m)) <-> is_Some (m !! k).
Proof.
  rewrite in_map_iff. split.
  - intros ([k' v] & <- & Hin). apply list_elem_of_In, elem_of_map_to_list in Hin. eauto.
  - intros [v Hv]. exists (k, v). split; [reflexivity|].
    now apply list_elem_of_In, elem_of_map_to_list.
Qed.

(** X15.  What [_update_track_states] leaves under each id.  For the id of a
    track of the frame (ids pairwise different): the refreshed entry,
    never purged.  For any other id: the old entry, unless it is stale
    (more than 5 s since [last_seen]), in which case it is deleted. *)
Theorem update_track_states_lookup (d : AnomalyDetector) (tracks : list Track)
  (timestamp : Q) (k : Z) :
  (forall track, List.NoDup (map id tracks) -> In track tracks -> id track = k ->
     track_states (_update_track_states d tracks timestamp) !! k
     = Some (refreshed timestamp track (track_states d !! k))) /\
  (~ In k (map id tracks) ->
     track_states (_update_track_states d tracks timestamp) !! k
     = match track_states d !! k with
       | Some s => if stale timestamp s then None else Some s
       | None => None
       end).
Proof.
  unfold _update_track_states. split.
  - intros track Hnd Hin <-. rewrite purge_fold_other.
    + clear -Hnd Hin. revert d. induction tracks as [|t tracks IH]; intros d; [destruct Hin|].
      simpl in Hnd. apply List.NoDup_cons_iff in Hnd as [Ht Hnd]. cbn [fold_left].
      destruct Hin as [->|Hin].
      * rewrite state_fold_other by exact Ht. apply state_step_refreshed.
      * rewrite IH by assumption. rewrite state_step_other; [reflexivity|].
        intros Heq. apply Ht. rewrite <- Heq. now apply in_map.
    + intros Hrm. apply filter_In in Hrm as [_ Hrm].
      apply negb_true_iff, bool_decide_eq_false in Hrm. apply Hrm.
      apply elem_of_list_to_set, list_elem_of_In, in_map. exact Hin.
  - intros Hk.
    set (d1 := fold_left (state_step timestamp) tracks d).
    assert (H1 : track_states d1 !! k = track_states d !! k)
      by now apply state_fold_other.
    set (l := List.filter _ _).
    assert (Hl : List.NoDup l).
    { subst l. apply List.NoDup_filter, map_keys_NoDup. }
    destruct (track_states d !! k) as [s|] eqn:Hs.
    + rewrite purge_fold_self, purge_step_self, H1; [reflexivity | exact Hl |].
      subst l. apply filter_In. split.
      * apply map_keys_In. rewrite H1. eauto.
      * apply negb_true_iff, bool_decide_eq_false. intros Hin. apply Hk.
        apply elem_of_list_to_set, list_elem_of_In in Hin. exact Hin.
    + rewrite purge_fold_other; [now rewrite H1|].
      subst l. intros Hin. apply filter_In in Hin as [Hin _].
      apply map_keys_In in Hin. rewrite H1 in Hin. destruct Hin; discriminate.
Qed.

Lemma update_track_states_lookup_witness :
  track_states (_update_track_states init [suitcase] 11) !! 5
    = Some (refreshed 11 suitcase (track_states init !! 5)) /\
  track_states (_update_track_states (run_detect init luggage_frames) [] 11) !! 5 = None.
Proof.
  assert (Hnd : List.NoDup (map id [suitcase])) by (repeat constructor; intros []).
  split.
  - exact (proj1 (update_track_states_lookup init [suitcase] 11 5) suitcase Hnd
             (or_introl eq_refl) eq_refl).
  - rewrite (proj2 (update_track_states_lookup (run_detect init luggage_frames) [] 11 5));
      [vm_compute; reflexivity | intros []].
Defined.

(** *** Entries that survive a call *)

Lemma state_step_keeps (timestamp : Q) (d : AnomalyDetector) (track : Track) (k : Z)
  (s : TrackState) :
  track_states d !! k = Some s ->
  exists s', track_states (state_step timestamp d track) !! k = Some s' /\
    initial_position s' = initial_position s /\ first_seen s' = first_seen s /\
    (max_distance s <= max_distance s')%Q.
Proof.
  intros Hs. destruct (Z.eq_dec k (id track)) as [->|Hne].
  - rewrite state_step_refreshed, Hs. eexists. split; [reflexivity|].
    cbn [refreshed default initial_position first_seen max_distance].
    repeat split. apply Q.le_max_l.
  - rewrite state_step_other by exact Hne. exists s. repeat split; [exact Hs | lra].
Qed.

Lemma state_fold_keeps (timestamp : Q) (tracks : list Track) (d : AnomalyDetector)
  (k : Z) (s : TrackState) :
  track_states d !! k = Some s ->
  exists s', track_states (fold_left (state_step timestamp) tracks d) !! k = Some s' /\
    initial_position s' = initial_position s /\ first_seen s' = first_seen s /\
    (max_distance s <= max_distance s')%Q.
Proof.
  revert d s. induction tracks as [|t tracks IH]; intros d s Hs; cbn [fold_left].
  - exists s. repeat split; [exact Hs | lra].
  - destruct (state_step_keeps timestamp d t k s Hs) as (s1 & Hs1 & Hi1 & Hf1 & Hm1).
    destruct (IH _ _ Hs1) as (s2 & Hs2 & Hi2 & Hf2 & Hm2).
    exists s2. split; [exact Hs2|]. rewrite Hi2, Hf2. repeat split; try assumption. lra.
Qed.

Lemma purge_fold_sub (timestamp : Q) (l : list Z) (d : AnomalyDetector) (k : Z)
  (s : TrackState) :
  track_states (fold_left (purge_step timestamp) l d) !! k = Some s ->
  track_states d !! k = Some s.
Proof.
  revert d. induction l as [|a l IH]; intros d H; cbn [fold_left] in H; [exact H|].
  apply IH in H. destruct (Z.eq_dec k a) as [->|Hne].
  - rewrite purge_step_self in H. destruct (track_states d !! a) as [s0|]; [|discriminate].
    destruct (stale timestamp s0); [discriminate | exact H].
  - now rewrite purge_step_other in H.
Qed.

(** X16.  An entry that is there before and after a [detect] call keeps its
    initial position and [first_seen], and its recorded maximum
    distance does not decrease. *)
Theorem entry_kept_monotone (d : AnomalyDetector) (now : Q) (tracks : list Track)
  (activities : gmap Z Activity) (frame_number : Z) (timestamp : Q) (k : Z)
  (s s' : TrackState) :
  track_states d !! k = Some s ->
  track_states (fst (detect d now tracks activities frame_number timestamp)) !! k
    = Some s' ->
  initial_position s' = initial_position s /\ first_seen s' = first_seen s /\
  (max_distance s <= max_distance s')%Q.
Proof.
  intros Hs Hs'. rewrite detect_states in Hs'. unfold _update_track_states in Hs'.
  apply purge_fold_sub in Hs'.
  destruct (state_fold_keeps timestamp tracks d k s Hs) as (s1 & Hs1 & H).
  rewrite Hs1 in Hs'. injection Hs' as <-. exact H.
Qed.

Lemma entry_kept_monotone_witness :
  track_states (run_detect init luggage_frames) !! 5 = Some (refreshed 0 suitcase None) /\
  track_states (fst (detect_frame (run_detect init luggage_frames) luggage_later)) !! 5
    = Some (refreshed 11 suitcase (Some (refreshed 0 suitcase None))) /\
  first_seen (refreshed 11 suitcase (Some (refreshed 0 suitcase None)))
    = first_seen (refreshed 0 suitcase None).
Proof.
  assert (H1 : track_states (run_detect init luggage_frames) !! 5
               = Some (refreshed 0 suitcase None)) by (vm_compute; reflexivity).
  assert (H2 : track_states (fst (detect_frame (run_detect init luggage_frames)
                                               luggage_later)) !! 5
               = Some (refreshed 11 suitcase (Some (refreshed 0 suitcase None))))
    by (vm_compute; reflexivity).
  split; [exact H1|]. split; [exact H2|].
  exact (proj1 (proj2 (entry_kept_monotone (run_detect init luggage_frames) 11 [suitcase]
                         {[5 := PARADO]} 330 11 5 _ _ H1 H2))).
Defined.

(** *** The two maps of the detector *)

Lemma state_step_detector_inv (timestamp : Q) (d : AnomalyDetector) (track : Track) :
  detector_inv d -> detector_inv (state_step timestamp d track).
Proof.
  intros (Hs & Hdom & Hlen). unfold detector_inv, state_step.
  cbn [Anomaly.history_size track_states velocity_history].
  split; [exact Hs|]. split.
  - intros k. destruct (Z.eq_dec (id track) k) as [<-|Hne].
    + rewrite !lookup_insert_eq. split; eauto.
    + rewrite !lookup_insert_ne by exact Hne. apply Hdom.
  - intros k vs. destruct (Z.eq_dec (id track) k) as [<-|Hne].
    + rewrite lookup_insert_eq. intros [= <-]. rewrite deque_append_len, Hs. lia.
    + rewrite lookup_insert_ne by exact Hne. apply Hlen.
Qed.

Lemma purge_step_detector_inv (timestamp : Q) (d : AnomalyDetector) (tid : Z) :
  detector_inv d -> detector_inv (purge_step timestamp d tid).
Proof.
  intros Hinv. unfold purge_step.
  destruct (track_states d !! tid) as [s|]; [|exact Hinv].
  destruct (Qltb 5 _); [|exact Hinv].
  destruct Hinv as (Hs & Hdom & Hlen).
  unfold detector_inv. cbn [Anomaly.history_size track_states velocity_history].
  split; [exact Hs|]. split.
  - intros k. destruct (Z.eq_dec tid k) as [<-|Hne].
    + rewrite !lookup_delete_eq. split; intros [x Hx]; discriminate.
    + rewrite !lookup_delete_ne by exact Hne. apply Hdom.
  - intros k vs Hk. apply lookup_delete_Some in Hk as [_ Hk]. exact (Hlen k vs Hk).
Qed.

Lemma update_states_detector_inv (d : AnomalyDetector) (tracks : list Track)
  (timestamp : Q) :
  detector_inv d -> detector_inv (_update_track_states d tracks timestamp).
Proof.
  intros Hd. unfold _update_track_states.
  assert (H1 : detector_inv (fold_left (state_step timestamp) tracks d)).
  { revert d Hd. induction tracks as [|t l IHl]; intros d0 H0; [exact H0|].
    cbn [fold_left]. apply IHl. now apply state_step_detector_inv. }
  revert H1. generalize (fold_left (state_step timestamp) tracks d). intros d1 H1.
  generalize (List.filter
                (fun tid => negb (bool_decide (tid ∈ (list_to_set (map id tracks) : gset Z))))
                (map fst (map_to_list (track_states d1)))).
  intros l. revert d1 H1.
  induction l as [|t l IHl]; intros d0 H0; [exact H0|].
  cbn [fold_left]. apply IHl. now apply purge_step_detector_inv.
Qed.

Lemma detect_detector_inv (d : AnomalyDetector) (now : Q) (tracks : list Track)
  (activities : gmap Z Activity) (frame_number : Z) (timestamp : Q) :
  detector_inv d ->
  detector_inv (fst (detect d now tracks activities frame_number timestamp)).
Proof.
  intros Hd. apply (update_states_detector_inv d tracks timestamp) in Hd.
  exact Hd.
Qed.

(** X17.  Over any sequence of [detect] calls on a new detector, the ids with
    a velocity history are the ids with a state entry, and every
    velocity history holds between 1 and 10 samples. *)
Theorem detector_maps_agree (frames : list Frame) :
  detector_inv (run_detect init frames).
Proof.
  induction frames as [|fr frames IH] using rev_ind.
  - split; [reflexivity|]. split.
    + intros k. unfold run_detect, init. cbn [fold_left track_states velocity_history].
      rewrite !lookup_empty. split; intros [x Hx]; discriminate.
    + intros k vs Hk. unfold run_detect, init in Hk.
      cbn [fold_left velocity_history] in Hk. rewrite lookup_empty in Hk. discriminate.
  - unfold run_detect in *. rewrite fold_left_app. cbn [fold_left].
    unfold detect_frame. now apply detect_detector_inv.
Qed.

(** *** The records of one call *)

Lemma nearby_group (tracks : list Track) (checked : gset Z) (i : nat) (person1 : Track) :
  let people := List.filter (fun t => Z.eqb (class_id t) 0) tracks in
  people !! i = Some person1 ->
  (3 <= length (nearby_of people checked i person1))%nat ->
  crowd_group tracks (nearby_of people checked i person1).
Proof.
  intros people Hi Hlen. split; [exact Hlen|].
  assert (Hpeople : forall p, In p people -> In p tracks /\ class_id p = 0).
  { intros p Hp. apply filter_In in Hp as [Hp Hc]. split; [exact Hp|].
    now apply Z.eqb_eq. }
  intros p Hp. unfold nearby_of in Hp |- *. cbn [head].
  destruct Hp as [<-|Hp].
  - destruct (Hpeople person1) as [H1 H2]; [eapply In_lookup; eauto|].
    repeat split; try assumption. exists person1. auto.
  - apply in_map_iff in Hp as ([j p2] & Heq & Hin). cbn [snd] in Heq. subst p2.
    apply filter_In in Hin as [Hin Hc]. apply enumerate_In in Hin. cbn [fst snd] in Hin.
    destruct (Hpeople p) as [H1 H2]; [eapply In_lookup; eauto|].
    repeat split; try assumption. exists person1. split; [reflexivity|]. right.
    destruct (Nat.eqb i j || bool_decide (id p ∈ checked)); [discriminate|].
    now apply Qltb_lt in Hc.
Qed.

Lemma crowding_groups (tracks : list Track) (frame_number : Z) (timestamp : Q) :
  Forall (fun r => exists nearby, r = crowd_record frame_number timestamp nearby /\
                     crowd_group tracks nearby)
         (_check_crowding tracks frame_number timestamp).
Proof.
  unfold _check_crowding.
  set (people := List.filter _ tracks).
  destruct (Nat.ltb (length people) crowding_count); [constructor|].
  assert (Hgen : forall es acc,
             (forall e, In e es -> people !! fst e = Some (snd e)) ->
             Forall (fun r => exists nearby, r = crowd_record frame_number timestamp nearby /\
                                crowd_group tracks nearby) (snd acc) ->
             Forall (fun r => exists nearby, r = crowd_record frame_number timestamp nearby /\
                                crowd_group tracks nearby)
                    (snd (fold_left (crowd_step people frame_number timestamp) es acc))).
  { induction es as [|e es IH]; intros acc Hes Hacc; cbn [fold_left]; [exact Hacc|].
    apply IH; [intros e' He'; apply Hes; now right|].
    specialize (Hes e (or_introl eq_refl)).
    destruct acc as [checked found], e as [i person1]. cbn [fst snd] in *.
    unfold crowd_step. destruct (bool_decide (id person1 ∈ checked)); [exact Hacc|].
    destruct (Nat.leb_spec crowding_count (length (nearby_of people checked i person1)))
      as [Hlen|Hlen]; [|exact Hacc].
    cbn [snd]. apply Forall_app. split; [exact Hacc|]. constructor; [|constructor].
    exists (nearby_of people checked i person1). split; [reflexivity|].
    now apply nearby_group. }
  apply Hgen; [|constructor].
  intros [i p] Hin. now apply enumerate_In.
Qed.

Lemma records_of_frame (d : AnomalyDetector) (now : Q) (tracks : list Track)
  (activities : gmap Z Activity) (frame_number : Z) (timestamp : Q) :
  Forall (record_of_frame tracks frame_number timestamp)
         (snd (detect d now tracks activities frame_number timestamp)).
Proof.
  unfold detect. cbn [snd]. apply Forall_app. split.
  - apply List.Forall_forall. intros a Ha.
    apply in_flat_map in Ha as (track & Htr & Ha).
    destruct a as [r|r].
    + apply track_rules_In in Ha as [Hr Hc].
      unfold record_of_frame. rewrite Hr. cbn.
      repeat split; try (intros Hty; rewrite Hty in Hc; discriminate Hc).
      exists track. split; [exact Htr | reflexivity].
    + exfalso. unfold track_rules in Ha. rewrite !in_app_iff in Ha.
      repeat destruct Ha as [Ha|Ha];
        match type of Ha with In _ (if ?b then _ else _) => destruct b end;
        simpl in Ha; intuition discriminate.
  - apply List.Forall_forall. intros a Ha.
    apply in_map_iff in Ha as (r & <- & Hr).
    pose proof (crowding_groups tracks frame_number timestamp) as Hg.
    rewrite List.Forall_forall in Hg. destruct (Hg r Hr) as (nearby & -> & Hgroup).
    unfold record_of_frame. cbn. repeat split; try discriminate.
    exists nearby. split; [reflexivity | exact Hgroup].
Qed.

(** X18.  Every record returned by [detect] carries the frame number and the
    timestamp of the call and the severity of its type; a per-track
    record describes a track of the frame, a crowd record a group of at
    least three persons of the frame that are all less than 80 px from
    the first; no record has the type [DIRECAO_PROIBIDA].  This holds
    for every call of a sequence. *)
Theorem records_describe_frame (d : AnomalyDetector) (frames : list Frame) :
  Forall2 (fun fr out => Forall (record_of_frame (f_tracks fr) (f_number fr) (f_timestamp fr))
                                out)
          frames (outputs d frames).
Proof.
  revert d. induction frames as [|fr frames IH]; intros d; cbn [outputs]; constructor.
  - apply records_of_frame.
  - apply IH.
Qed.

(** *** No crowd is missed *)

Lemma three_members {A} (l : list A) (a b c : A) :
  In a l -> In b l -> In c l -> a <> b -> a <> c -> b <> c -> (3 <= length l)%nat.
Proof.
  intros Ha Hb Hc Hab Hac Hbc.
  change 3%nat with (length [a; b; c]). apply List.NoDup_incl_length.
  - repeat constructor; cbn [In]; intuition congruence.
  - intros x [<-|[<-|[<-|[]]]]; assumption.
Qed.

Lemma two_members {A} (l : list A) (a b : A) :
  In a l -> In b l -> a <> b -> (2 <= length l)%nat.
Proof.
  intros Ha Hb Hab.
  change 2%nat with (length [a; b]). apply List.NoDup_incl_length.
  - repeat constructor; cbn [In]; intuition congruence.
  - intros x [<-|[<-|[]]]; assumption.
Qed.

Lemma crowd_fold_nonempty (people : list Track) (frame_number : Z) (timestamp : Q)
  (es : list (nat * Track)) (acc : gset Z * list CrowdAnomaly) :
  snd acc <> [] ->
  snd (fold_left (crowd_step people frame_number timestamp) es acc) <> [].
Proof.
  revert acc. induction es as [|[i p] es IH]; intros [checked found] H; [exact H|].
  cbn [fold_left]. apply IH. unfold crowd_step.
  destruct (bool_decide (id p ∈ checked)); [exact H|].
  destruct (Nat.leb _ _); [|exact H]. cbn [snd] in *.
  intros Hn. apply app_eq_nil in Hn as [_ Hn]. discriminate.
Qed.

Lemma crowd_fold_checked (people : list Track) (frame_number : Z) (timestamp : Q)
  (es : list (nat * Track)) (acc : gset Z * list CrowdAnomaly) :
  (snd acc = [] -> fst acc = ∅) ->
  snd (fold_left (crowd_step people frame_number timestamp) es acc) = [] ->
  fst (fold_left (crowd_step people frame_number timestamp) es acc) = ∅.
Proof.
  revert acc. induction es as [|[i p] es IH]; intros [checked found] H; [exact H|].
  cbn [fold_left]. apply IH. unfold crowd_step.
  destruct (bool_decide (id p ∈ checked)); [exact H|].
  destruct (Nat.leb _ _); [|exact H]. cbn [fst snd] in *.
  intros Hn. apply app_eq_nil in Hn as [_ Hn]. discriminate.
Qed.

Lemma crowd_seed_found (people : list Track) (frame_number : Z) (timestamp : Q)
  (i : nat) (p q r : Track) :
  people !! i = Some p -> In q people -> In r people ->
  id q <> id p -> id r <> id p -> id q <> id r ->
  within80 p q -> within80 p r ->
  snd (fold_left (crowd_step people frame_number timestamp) (enumerate people) (∅, [])) <> [].
Proof.
  intros Hi Hq Hr Hqp Hrp Hqr Hwq Hwr.
  assert (Hin : In (i, p) (enumerate people)) by now apply enumerate_In.
  apply in_split in Hin as (es1 & es2 & ->). rewrite fold_left_app. cbn [fold_left].
  set (acc1 := fold_left _ es1 _).
  destruct (snd acc1) as [|r0 found] eqn:Hfound.
  - assert (Hch : fst acc1 = ∅) by (apply crowd_fold_checked; [reflexivity | exact Hfound]).
    apply crowd_fold_nonempty. destruct acc1 as [checked found']. cbn [fst snd] in *.
    subst checked found'. unfold crowd_step.
    rewrite bool_decide_eq_false_2 by set_solver.
    replace (Nat.leb crowding_count (length (nearby_of people ∅ i p))) with true.
    + cbn [snd]. discriminate.
    + symmetry. apply Nat.leb_le. unfold crowding_count, nearby_of. cbn [length].
      apply le_n_S. rewrite length_map.
      apply In_lookup in Hq as [jq Hjq], Hr as [jr Hjr].
      apply (two_members _ (jq, q) (jr, r)).
      * apply filter_In. split; [now apply enumerate_In|].
        destruct (Nat.eqb_spec i jq) as [->|_]; [congruence|].
        rewrite bool_decide_eq_false_2 by set_solver. cbn [orb]. now apply Qltb_lt.
      * apply filter_In. split; [now apply enumerate_In|].
        destruct (Nat.eqb_spec i jr) as [->|_]; [congruence|].
        rewrite bool_decide_eq_false_2 by set_solver. cbn [orb]. now apply Qltb_lt.
      * congruence.
  - apply crowd_fold_nonempty.
    apply (crowd_fold_nonempty people frame_number timestamp [(i, p)] acc1).
    rewrite Hfound. discriminate.
Qed.

(** X19.  [_check_crowding] reports at least one crowd exactly when some
    person of the frame has two other persons less than 80 px away
    (the ids of the frame being pairwise different). *)
Theorem crowd_never_missed (tracks : list Track) (frame_number : Z) (timestamp : Q) :
  List.NoDup (map id tracks) ->
  (_check_crowding tracks frame_number timestamp <> [] <->
   exists p q r, In p tracks /\ In q tracks /\ In r tracks /\
     class_id p = 0 /\ class_id q = 0 /\ class_id r = 0 /\
     id q <> id p /\ id r <> id p /\ id q <> id r /\
     within80 p q /\ within80 p r).
Proof.
  intros Hnd. split.
  - intros Hne. destruct (_check_crowding tracks frame_number timestamp) as [|rec l] eqn:Hc;
      [contradiction|].
    assert (Hin : In rec (_check_crowding tracks frame_number timestamp))
      by (rewrite Hc; now left).
    pose proof (crowding_groups tracks frame_number timestamp) as Hg.
    rewrite List.Forall_forall in Hg. destruct (Hg rec Hin) as (nearby & -> & Hlen & Hgroup).
    pose proof (proj2 (crowding_inv tracks frame_number timestamp) Hnd _ Hin) as Hndr.
    cbn [crowd_record involved_tracks] in Hndr.
    destruct nearby as [|p [|q [|r rest]]]; cbn [length] in Hlen; try lia.
    cbn [map] in Hndr.
    apply List.NoDup_cons_iff in Hndr as [Hp Hndr].
    apply List.NoDup_cons_iff in Hndr as [Hq _].
    destruct (Hgroup p) as (Hpt & Hpc & _); [now left|].
    destruct (Hgroup q) as (Hqt & Hqc & s & Hs & Hq'); [right; now left|].
    destruct (Hgroup r) as (Hrt & Hrc & s' & Hs' & Hr'); [right; right; now left|].
    cbn [head] in Hs, Hs'. injection Hs as <-. injection Hs' as <-.
    assert (Hqp : id q <> id p) by (intros E; apply Hp; rewrite <- E; now left).
    assert (Hrp : id r <> id p) by (intros E; apply Hp; rewrite <- E; right; now left).
    assert (Hqr : id q <> id r) by (intros E; apply Hq; rewrite E; now left).
    exists p, q, r. repeat split; try assumption.
    + destruct Hq' as [->|H]; [contradiction | exact H].
    + destruct Hr' as [->|H]; [contradiction | exact H].
  - intros (p & q & r & Hp & Hq & Hr & Hpc & Hqc & Hrc & Hqp & Hrp & Hqr & Hwq & Hwr).
    unfold _check_crowding.
    set (people := List.filter (fun t => class_id t =? 0) tracks).
    assert (Hpp : In p people) by (apply filter_In; split; [exact Hp | now apply Z.eqb_eq]).
    assert (Hqq : In q people) by (apply filter_In; split; [exact Hq | now apply Z.eqb_eq]).
    assert (Hrr : In r people) by (apply filter_In; split; [exact Hr | now apply Z.eqb_eq]).
    assert (Hlen : (3 <= length people)%nat).
    { apply (three_members people p q r); try assumption; congruence. }
    destruct (Nat.ltb_spec (length people) crowding_count) as [Hlt|_];
      [unfold crowding_count in Hlt; lia|].
    apply In_lookup in Hpp as [i Hi].
    now apply (crowd_seed_found people frame_number timestamp i p q r).
Qed.

Lemma crowd_never_missed_witness :
  List.NoDup (map id crowd_frame) /\ _check_crowding crowd_frame 7 (7 # 30) <> [].
Proof.
  assert (Hnd : List.NoDup (map id crowd_frame)).
  { repeat constructor; simpl; intuition discriminate. }
  split; [exact Hnd|].
  apply (proj2 (crowd_never_missed crowd_frame 7 (7 # 30) Hnd)).
  exists person_a, person_b, person_c.
  repeat split; try (now (repeat (try (left; reflexivity); right)));
    try reflexivity; try discriminate.
Defined.

(** *** The log and its statistics *)

Lemma state_fold_anomalies (timestamp : Q) (tracks : list Track) (d : AnomalyDetector) :
  anomalies (fold_left (state_step timestamp) tracks d) = anomalies d.
Proof.
  revert d. induction tracks as [|t l IH]; intros d; cbn [fold_left]; [reflexivity|].
  now rewrite IH.
Qed.

Lemma purge_fold_anomalies (timestamp : Q) (l : list Z) (d : AnomalyDetector) :
  anomalies (fold_left (purge_step timestamp) l d) = anomalies d.
Proof.
  revert d. induction l as [|t l IH]; intros d; cbn [fold_left]; [reflexivity|].
  rewrite IH. unfold purge_step. destruct (track_states d !! t); [|reflexivity].
  now destruct (Qltb 5 _).
Qed.

Lemma detect_anomalies (d : AnomalyDetector) (now : Q) (tracks : list Track)
  (activities : gmap Z Activity) (frame_number : Z) (timestamp : Q) :
  anomalies (fst (detect d now tracks activities frame_number timestamp))
  = anomalies d ++ snd (detect d now tracks activities frame_number timestamp).
Proof.
  unfold detect. cbn [fst snd anomalies]. f_equal.
  unfold _update_track_states. now rewrite purge_fold_anomalies, state_fold_anomalies.
Qed.

(** X20.  The log only grows: after any sequence of calls it is the old log
    followed by the lists the calls returned, in order. *)
Theorem log_collects_outputs (d : AnomalyDetector) (frames : list Frame) :
  anomalies (run_detect d frames) = anomalies d ++ concat (outputs d frames).
Proof.
  revert d. induction frames as [|fr frames IH]; intros d.
  - unfold run_detect. simpl. now rewrite app_nil_r.
  - unfold run_detect in *. cbn [fold_left outputs concat]. rewrite IH.
    unfold detect_frame at 1. rewrite detect_anomalies, <- app_assoc. reflexivity.
Qed.

Lemma detect_severities (d : AnomalyDetector) (now : Q) (tracks : list Track)
  (activities : gmap Z Activity) (frame_number : Z) (timestamp : Q) :
  severities_fixed (snd (detect d now tracks activities frame_number timestamp)).
Proof.
  intros a Ha. unfold detect in Ha. cbn [snd] in Ha. apply in_app_iff in Ha as [Ha|Ha].
  - apply in_flat_map in Ha as (track & _ & Ha). unfold track_rules in Ha.
    rewrite !in_app_iff in Ha.
    repeat destruct Ha as [Ha|Ha];
      match type of Ha with In _ (if ?b then _ else _) => destruct b end;
      simpl in Ha; try tauto; destruct Ha as [<-|[]]; (split; [reflexivity | discriminate]).
  - apply in_map_iff in Ha as (r & <- & Hr).
    unfold _check_crowding in Hr.
    destruct (Nat.ltb _ crowding_count); [destruct Hr|].
    revert Hr. generalize (enumerate (List.filter (fun t => class_id t =? 0) tracks)).
    intros es.
    assert (Hgen : forall (acc : gset Z * list CrowdAnomaly),
               (forall r, In r (snd acc) ->
                  ca_severity r = severity_of (ca_type r) /\ ca_type r <> DIRECAO_PROIBIDA) ->
               forall r,
                 In r (snd (fold_left (crowd_step (List.filter (fun t => class_id t =? 0) tracks)
                                                  frame_number timestamp) es acc)) ->
                 ca_severity r = severity_of (ca_type r) /\ ca_type r <> DIRECAO_PROIBIDA).
    { induction es as [|e es IH]; intros acc Hacc; cbn [fold_left]; [exact Hacc|].
      apply IH. destruct acc as [checked found], e as [i person1]. unfold crowd_step.
      destruct (bool_decide _); [exact Hacc|]. destruct (Nat.leb _ _); [|exact Hacc].
      cbn [snd] in *. intros r0 Hr0. apply in_app_iff in Hr0 as [Hr0|[<-|[]]];
        [now apply Hacc|]. split; [reflexivity | discriminate]. }
    apply Hgen. intros r0 [].
Qed.

Lemma log_severities (frames : list Frame) :
  severities_fixed (anomalies (run_detect init frames)).
Proof.
  induction frames as [|fr frames IH] using rev_ind.
  - intros a [].
  - unfold run_detect in *. rewrite fold_left_app. cbn [fold_left].
    unfold detect_frame. rewrite detect_anomalies. intros a Ha.
    apply in_app_iff in Ha as [Ha|Ha]; [now apply IH|].
    eapply detect_severities; eauto.
Qed.

Lemma stats_fold (log : list AnomalyRecord) (s0 : Statistics) :
  let s := fold_left stats_step log s0 in
  total_anomalies s = total_anomalies s0 /\
  (forall ty, by_type s ty = (by_type s0 ty + count_type ty log)%nat) /\
  (forall sv, by_severity s sv = (by_severity s0 sv + count_severity sv log)%nat) /\
  timeline s = timeline s0
    ++ map (fun a => (record_timestamp a, record_type a, record_severity a)) log.
Proof.
  revert s0. induction log as [|a log IH]; intros s0; cbn [fold_left].
  - unfold count_type, count_severity. cbn. rewrite app_nil_r.
    repeat split; intros; lia.
  - destruct (IH (stats_step s0 a)) as (Ht & Hty & Hsv & Htl).
    cbv zeta. rewrite Ht, Htl. split; [reflexivity|]. split; [|split].
    + intros ty. rewrite Hty. unfold count_type. cbn [stats_step by_type List.filter].
      destruct (type_eqb ty (record_type a)); cbn [length]; lia.
    + intros sv. rewrite Hsv. unfold count_severity.
      cbn [stats_step by_severity List.filter].
      destruct (severity_eqb sv (record_severity a)); cbn [length]; lia.
    + cbn [stats_step timeline map]. now rewrite <- app_assoc.
Qed.

Lemma count_type_cons (ty : AnomalyType) (a : AnomalyRecord) (log : list AnomalyRecord) :
  count_type ty (a :: log)
  = ((if type_eqb ty (record_type a) then 1 else 0) + count_type ty log)%nat.
Proof.
  unfold count_type. cbn [List.filter]. now destruct (type_eqb ty (record_type a)).
Qed.

Lemma count_severity_cons (sv : Severity) (a : AnomalyRecord) (log : list AnomalyRecord) :
  count_severity sv (a :: log)
  = ((if severity_eqb sv (record_severity a) then 1 else 0) + count_severity sv log)%nat.
Proof.
  unfold count_severity. cbn [List.filter].
  now destruct (severity_eqb sv (record_severity a)).
Qed.

Lemma count_type_sum (log : list AnomalyRecord) :
  sum_over all_types (fun ty => count_type ty log) = length log.
Proof.
  induction log as [|a log IH]; [reflexivity|].
  cbn [length]. rewrite <- IH. unfold sum_over, all_types, count_type.
  cbn [fold_right List.filter].
  destruct (record_type a); cbn [type_eqb length]; lia.
Qed.

Lemma count_severity_sum (log : list AnomalyRecord) :
  sum_over all_severities (fun sv => count_severity sv log) = length log.
Proof.
  induction log as [|a log IH]; [reflexivity|].
  cbn [length]. rewrite <- IH. unfold sum_over, all_severities, count_severity.
  cbn [fold_right List.filter].
  destruct (record_severity a); cbn [severity_eqb length]; lia.
Qed.

Lemma count_by_severity (log : list AnomalyRecord) :
  severities_fixed log ->
  count_severity ALTA log
    = (count_type VELOCIDADE_ANORMAL log + count_type OBJETO_ABANDONADO log)%nat /\
  count_severity BAIXA log
    = (count_type PARADA_PROLONGADA log + count_type MOVIMENTO_REVERSO log)%nat /\
  count_severity MEDIA log
    = (count_type MOVIMENTO_SUBITO log + count_type AGLOMERACAO log)%nat /\
  count_type DIRECAO_PROIBIDA log = 0%nat.
Proof.
  induction log as [|a log IH]; intros Hfix; [repeat split|].
  destruct IH as (H1 & H2 & H3 & H4); [intros b Hb; apply Hfix; now right|].
  destruct (Hfix a (or_introl eq_refl)) as [Hs Hd].
  rewrite !count_type_cons, !count_severity_cons, Hs, H1, H2, H3, H4.
  destruct (record_type a); try contradiction; cbn; repeat split; lia.
Qed.

(** X21.  After any sequence of [detect] calls on a new detector,
    [get_statistics] is consistent with the log: the counts by type
    and the counts by severity each add up to [total_anomalies], the
    timeline lists the log in order, each severity count is the sum of
    the counts of the types of that severity, and [DIRECAO_PROIBIDA]
    counts 0. *)
Theorem statistics_consistent (frames : list Frame) :
  let log := anomalies (run_detect init frames) in
  let s := get_statistics (run_detect init frames) in
  total_anomalies s = length log /\
  sum_over all_types (by_type s) = total_anomalies s /\
  sum_over all_severities (by_severity s) = total_anomalies s /\
  timeline s = map (fun a => (record_timestamp a, record_type a, record_severity a)) log /\
  by_severity s ALTA = (by_type s VELOCIDADE_ANORMAL + by_type s OBJETO_ABANDONADO)%nat /\
  by_severity s BAIXA = (by_type s PARADA_PROLONGADA + by_type s MOVIMENTO_REVERSO)%nat /\
  by_severity s MEDIA = (by_type s MOVIMENTO_SUBITO + by_type s AGLOMERACAO)%nat /\
  by_type s DIRECAO_PROIBIDA = 0%nat.
Proof.
  intros log s.
  destruct (stats_fold log {| total_anomalies := length log; by_type := fun _ => 0%nat;
                              by_severity := fun _ => 0%nat; timeline := [] |})
    as (Ht & Hty & Hsv & Htl).
  change (fold_left stats_step log _) with s in Ht, Hty, Hsv, Htl.
  cbn [total_anomalies by_type by_severity timeline app Nat.add] in Ht, Hty, Hsv, Htl.
  destruct (count_by_severity log (log_severities frames)) as (H1 & H2 & H3 & H4).
  rewrite Ht, Htl. split; [reflexivity|].
  split; [|split; [|split; [reflexivity|]]].
  - rewrite <- (count_type_sum log). unfold sum_over, all_types. cbn [fold_right].
    rewrite !Hty. reflexivity.
  - rewrite <- (count_severity_sum log). unfold sum_over, all_severities. cbn [fold_right].
    rewrite !Hsv. reflexivity.
  - rewrite !Hty, !Hsv. auto.
Qed.

(** *** Sudden movement *)

Lemma fold_Qmax_lt (c : Q) (rest : list Q) (a : Q) :
  (c < fold_left Qmax rest a)%Q <-> exists x, In x (a :: rest) /\ (c < x)%Q.
Proof.
  revert a. induction rest as [|b rest IH]; intros a; cbn [fold_left].
  - split; [intros H; exists a; split; [now left | exact H]|].
    intros (x & [<-|[]] & H). exact H.
  - rewrite IH. split.
    + intros (x & [<-|Hx] & H).
      * apply Q.max_lt_iff in H as [H|H]; [exists a | exists b]; split; auto.
        now left. right; now left.
      * exists x. split; [right; now right | exact H].
    + intros (x & [<-|[<-|Hx]] & H).
      * exists (Qmax a b). split; [now left|]. apply Q.max_lt_iff. now left.
      * exists (Qmax a b). split; [now left|]. apply Q.max_lt_iff. now right.
      * exists x. split; [now right | exact H].
Qed.

Lemma consecutive_In {A} (l : list A) (a b : A) :
  In (a, b) (consecutive l) <-> exists i, l !! i = Some a /\ l !! S i = Some b.
Proof.
  induction l as [|x l IH]; [split; [intros [] | intros (i & H & _); discriminate]|].
  destruct l as [|y l].
  - split; [intros []|]. intros (i & _ & H). destruct i; discriminate.
  - cbn [consecutive]. split.
    + intros [[= <- <-]|H]; [exists 0%nat; split; reflexivity|].
      apply IH in H as (i & H1 & H2). exists (S i). split; assumption.
    + intros ([|i] & H1 & H2).
      * injection H1 as <-. injection H2 as <-. now left.
      * right. apply IH. exists i. split; assumption.
Qed.

(** X22.  [_check_sudden_movement] answers True exactly when the velocity
    history of the id holds at least three samples and two consecutive
    ones differ by more than 10 px/frame. *)
Theorem sudden_movement_iff (d : AnomalyDetector) (k : Z) :
  _check_sudden_movement d k = true <->
  exists vs i v1 v2,
    velocity_history d !! k = Some vs /\ (3 <= length vs)%nat /\
    vs !! i = Some v1 /\ vs !! S i = Some v2 /\
    (sudden_acceleration_sq < normsq (vsub v2 v1))%Q.
Proof.
  unfold _check_sudden_movement.
  destruct (velocity_history d !! k) as [vs|];
    [|split; [discriminate | intros (? & ? & ? & ? & H & _); discriminate]].
  destruct (Nat.ltb_spec (length vs) 3) as [Hlt|Hge].
  { split; [discriminate|]. intros (? & ? & ? & ? & [= <-] & H & _). lia. }
  assert (Hacc : forall x,
             In x (map (fun '(v1, v2) => normsq (vsub v2 v1)) (consecutive vs)) <->
             exists i v1 v2, vs !! i = Some v1 /\ vs !! S i = Some v2 /\
                             x = normsq (vsub v2 v1)).
  { intros x. rewrite in_map_iff. split.
    - intros ([v1 v2] & <- & Hin). apply consecutive_In in Hin as (i & H1 & H2).
      exists i, v1, v2. auto.
    - intros (i & v1 & v2 & H1 & H2 & ->). exists (v1, v2). split; [reflexivity|].
      apply consecutive_In. eauto. }
  destruct (map _ (consecutive vs)) as [|a rest] eqn:Hm.
  - split; [discriminate|]. intros (? & i & v1 & v2 & [= <-] & _ & H1 & H2 & _).
    exfalso. apply (proj2 (Hacc (normsq (vsub v2 v1)))). exists i, v1, v2. auto.
  - rewrite Qltb_lt, fold_Qmax_lt. split.
    + intros (x & Hx & Hlt). apply Hacc in Hx as (i & v1 & v2 & H1 & H2 & ->).
      exists vs, i, v1, v2. auto.
    + intros (? & i & v1 & v2 & [= <-] & _ & H1 & H2 & Hlt).
      exists (normsq (vsub v2 v1)). split; [|exact Hlt]. apply Hacc.
      exists i, v1, v2. auto.
Qed.

(** *** Abandoned objects *)

(** X23.  Whenever a call reports [OBJETO_ABANDONADO] for an id, it reports
    [PARADA_PROLONGADA] for the same id as well, and the id belongs to
    a track of the frame that is not a person and is labelled
    [PARADO]. *)
Theorem abandoned_implies_prolonged (d : AnomalyDetector) (now : Q) (tracks : list Track)
  (activities : gmap Z Activity) (frame_number : Z) (timestamp : Q) (k : Z) :
  fires OBJETO_ABANDONADO k (snd (detect d now tracks activities frame_number timestamp)) ->
  fires PARADA_PROLONGADA k (snd (detect d now tracks activities frame_number timestamp)) /\
  exists track, In track tracks /\ id track = k /\ class_id track <> 0 /\
    activities !! k = Some PARADO.
Proof.
  intros H. apply fires_detect in H as (track & Htr & Hk & Hc).
  cbn [rule_check] in Hc. unfold _check_abandoned_object in Hc.
  destruct (Z.eqb_spec (class_id track) 0) as [|Hcls]; [discriminate|].
  destruct (bool_decide (activities !! id track = Some PARADO)) eqn:Hact;
    [|discriminate]. cbn [negb] in Hc.
  split.
  - apply fires_detect. exists track. split; [exact Htr|]. split; [exact Hk|].
    cbn [rule_check]. unfold _check_prolonged_stop. rewrite Hact. cbn [negb].
    destruct (track_states _ !! id track) as [s|]; [|discriminate].
    destruct (stopped_since s) as [since|]; [|discriminate].
    apply Qltb_lt in Hc. apply Qltb_lt.
    unfold object_abandoned_time in Hc. unfold stopped_duration. lra.
  - exists track. repeat split; try assumption.
    apply bool_decide_eq_true in Hact. now rewrite <- Hk.
Qed.

Lemma abandoned_implies_prolonged_witness :
  fires OBJETO_ABANDONADO 5 (snd (detect_frame (run_detect init luggage_frames) luggage_later)) /\
  fires PARADA_PROLONGADA 5 (snd (detect_frame (run_detect init luggage_frames) luggage_later)).
Proof.
  assert (H : fires OBJETO_ABANDONADO 5
                (snd (detect_frame (run_detect init luggage_frames) luggage_later))).
  { eexists. split; [|split].
    - vm_compute. right. left. reflexivity.
    - reflexivity.
    - reflexivity. }
  split; [exact H|].
  exact (proj1 (abandoned_implies_prolonged (run_detect init luggage_frames) 11 [suitcase]
                  {[5 := PARADO]} 330 11 5 H)).
Defined.

End AnomalyStateFacts.


(** ** The processing loop of main.py *)

Module MainFacts.
Import Tracker Classifier Anomaly TrackerSpec AnomalySpec TrackerFacts AnomalyFacts.
Import ClassifierAngle LabelFacts Statistics AnomalyStateSpec AnomalyStateFacts.
Import Main MainSpec.

Lemma update_returns (st : ObjectTracker) (detections : list Detection) :
  wf st ->
  wf (fst (update st detections)) /\
  List.NoDup (map id (snd (update st detections))) /\
  Forall (fun t => 3 <= hits t) (snd (update st detections)).
Proof.
  intros Hwf. rewrite update_fst. cbn [fst snd]. rewrite update_log_active.
  destruct (update_log_spec _ detections Hwf) as [Hwf' _ _ _ _ _].
  split; [exact Hwf'|]. destruct Hwf' as [Hnd Hid].
  set (st' := fst (fst (update_log st detections))) in *. split.
  - unfold _get_active_tracks, dict_values. apply filter_map_NoDup.
    replace (map id (map snd (tracks st'))) with (dict_keys (tracks st')); [exact Hnd|].
    unfold dict_keys. rewrite map_map. apply map_ext_in. intros [k t] Hin.
    simpl. symmetry. now apply Hid.
  - apply List.Forall_forall. intros t Ht. now apply active_In in Ht.
Qed.

Lemma In_crowd_records (r : CrowdAnomaly) (l : list AnomalyRecord) :
  In (Crowd r) l <-> In r (crowd_records l).
Proof.
  unfold crowd_records. rewrite in_flat_map. split.
  - intros H. exists (Crowd r). split; [exact H | now left].
  - intros ([r'|r'] & Hin & Hr); [destruct Hr|]. destruct Hr as [->|[]]. exact Hin.
Qed.

Lemma crowd_labels (c : ActivityClassifier) (n : Z) (tracks : list Track)
  (frame_number : Z) (timestamp : Q) (r : CrowdAnomaly) (k : Z) :
  List.NoDup (map id tracks) ->
  In r (_check_crowding tracks frame_number timestamp) -> In k (involved_tracks r) ->
  snd (classify c tracks n) !! k = Some INTERAGINDO.
Proof.
  intros Hnd Hr Hk.
  pose proof (crowding_groups tracks frame_number timestamp) as Hg.
  rewrite List.Forall_forall in Hg. destruct (Hg r Hr) as (nearby & Heq & Hlen & Hgroup).
  pose proof (proj2 (crowding_inv tracks frame_number timestamp) Hnd r Hr) as Hndr.
  subst r. cbn [crowd_record involved_tracks] in Hk, Hndr.
  apply in_map_iff in Hk as (p & <- & Hp).
  destruct nearby as [|seed [|q rest]]; [destruct Hp | simpl in Hlen; lia|].
  assert (Hpartner : exists other, In other tracks /\ id other <> id p /\
            class_id other = 0 /\
            (distsq (bbox_center (bbox p)) (bbox_center (bbox other))
             < interaction_distance_sq)%Q).
  { cbn [map] in Hndr. apply List.NoDup_cons_iff in Hndr as [Hseed Hndr].
    assert (Hfar : forall x, In x (q :: rest) ->
              In x tracks /\ class_id x = 0 /\ id x <> id seed /\ within80 seed x).
    { intros x Hx. destruct (Hgroup x (or_intror Hx)) as (Hxt & Hxc & s & Hs & Hcase).
      injection Hs as <-. repeat split; try assumption.
      - intros Heq. apply Hseed. rewrite <- Heq. now apply (in_map id (q :: rest)).
      - destruct Hcase as [->|Hw]; [|exact Hw].
        exfalso. apply Hseed. now apply (in_map id (q :: rest)). }
    destruct Hp as [<-|Hp].
    - destruct (Hfar q (or_introl eq_refl)) as (Hqt & Hqc & Hqid & Hw).
      exists q. repeat split; try assumption.
      unfold within80, crowding_distance_sq in Hw. unfold interaction_distance_sq. lra.
    - destruct (Hfar p Hp) as (Hpt & Hpc & Hpid & Hw).
      destruct (Hgroup seed (or_introl eq_refl)) as (Hst & Hsc & _).
      exists seed. repeat split; try assumption; [congruence|].
      unfold within80, crowding_distance_sq in Hw. unfold interaction_distance_sq.
      rewrite distsq_sym. lra. }
  destruct (Hgroup p Hp) as (Hpt & Hpc & _).
  rewrite classify_lookup, (last_with_id tracks p Hnd Hpt).
  replace (_check_interactions p tracks) with true; [reflexivity|].
  symmetry. apply check_interactions_true. split; [exact Hpc | exact Hpartner].
Qed.

Lemma not_stopped_no_prolonged (d : AnomalyDetector) (now : Q) (tracks : list Track)
  (activities : gmap Z Activity) (frame_number : Z) (timestamp : Q) (k : Z) :
  activities !! k <> Some PARADO ->
  ~ fires PARADA_PROLONGADA k (snd (detect d now tracks activities frame_number timestamp)).
Proof.
  intros Hact H. apply fires_detect in H as (track & _ & Hk & Hc).
  cbn [rule_check] in Hc. unfold _check_prolonged_stop in Hc. rewrite Hk in Hc.
  rewrite bool_decide_eq_false_2 in Hc by exact Hact. discriminate.
Qed.

Lemma same_id_same_track (tracks : list Track) (a b : Track) :
  List.NoDup (map id tracks) -> In a tracks -> In b tracks -> id a = id b -> a = b.
Proof.
  induction tracks as [|t tracks IH]; intros Hnd Ha Hb Hid; [destruct Ha|].
  cbn [map] in Hnd. apply List.NoDup_cons_iff in Hnd as [Ht Hnd].
  destruct Ha as [->|Ha], Hb as [->|Hb]; [reflexivity | | |now apply IH].
  - exfalso. apply Ht. rewrite Hid. now apply in_map.
  - exfalso. apply Ht. rewrite <- Hid. now apply in_map.
Qed.

Lemma label_of_track (c : ActivityClassifier) (n : Z) (tracks : list Track) (t : Track) :
  List.NoDup (map id tracks) -> In t tracks ->
  snd (classify c tracks n) !! id t
  = Some (if _check_interactions t tracks then INTERAGINDO
          else _classify_individual_activity (_update_position_history c tracks) t).
Proof. intros Hnd Ht. now rewrite classify_lookup, (last_with_id tracks t Hnd Ht). Qed.

Lemma fast_label (c : ActivityClassifier) (t : Track) :
  (high_speed_sq < normsq (velocity t))%Q ->
  _classify_individual_activity c t = CORRENDO \/
  _classify_individual_activity c t = COMPORTAMENTO_ERRATICO.
Proof.
  intros Hv. unfold high_speed_sq in Hv. unfold _classify_individual_activity.
  destruct (_is_erratic_behavior c (id t)); [now right|].
  destruct (Qltb _ stopped_speed_sq) eqn:H4.
  { apply Qltb_lt in H4. unfold stopped_speed_sq in H4. lra. }
  destruct (Qltb _ walking_speed_sq) eqn:H25.
  { apply Qltb_lt in H25. unfold walking_speed_sq in H25. lra. }
  destruct (Qle_bool running_speed_sq _) eqn:H64; [now left|].
  exfalso. apply not_true_iff_false in H64. apply H64. apply Qle_bool_iff.
  unfold running_speed_sq. lra.
Qed.

Lemma stopped_label (c : ActivityClassifier) (t : Track) :
  _classify_individual_activity c t = PARADO -> (normsq (velocity t) < 4)%Q.
Proof.
  unfold _classify_individual_activity.
  destruct (_is_erratic_behavior c (id t)); [discriminate|].
  destruct (Qltb _ stopped_speed_sq) eqn:H4; [intros _; now apply Qltb_lt in H4|].
  destruct (Qltb _ walking_speed_sq); [discriminate|].
  destruct (Qle_bool _ _); discriminate.
Qed.

Lemma speed_labels (c : ActivityClassifier) (n : Z) (d : AnomalyDetector) (now : Q)
  (tracks : list Track) (frame_number : Z) (timestamp : Q) (k : Z) :
  List.NoDup (map id tracks) ->
  let activities := snd (classify c tracks n) in
  let out := snd (detect d now tracks activities frame_number timestamp) in
  (fires VELOCIDADE_ANORMAL k out ->
   activities !! k = Some CORRENDO \/ activities !! k = Some COMPORTAMENTO_ERRATICO \/
   activities !! k = Some INTERAGINDO) /\
  (fires PARADA_PROLONGADA k out ->
   activities !! k = Some PARADO /\
   (exists track, In track tracks /\ id track = k /\ (normsq (velocity track) < 4)%Q) /\
   ~ fires VELOCIDADE_ANORMAL k out).
Proof.
  intros Hnd activities out. subst out.
  assert (Hfast : fires VELOCIDADE_ANORMAL k
                    (snd (detect d now tracks activities frame_number timestamp)) ->
                  exists track, In track tracks /\ id track = k /\
                    (high_speed_sq < normsq (velocity track))%Q).
  { intros H. apply fires_detect in H as (track & Htr & Hk & Hc).
    exists track. repeat split; try assumption. now apply Qltb_lt in Hc. }
  split.
  - intros H. destruct (Hfast H) as (track & Htr & <- & Hv). unfold activities.
    rewrite (label_of_track c n tracks track Hnd Htr).
    destruct (_check_interactions track tracks); [auto|].
    destruct (fast_label (_update_position_history c tracks) track Hv) as [->| ->]; auto.
  - intros H. apply fires_detect in H as (track & Htr & <- & Hc).
    cbn [rule_check] in Hc. unfold _check_prolonged_stop in Hc.
    destruct (bool_decide (activities !! id track = Some PARADO)) eqn:Hact; [|discriminate].
    apply bool_decide_eq_true in Hact.
    assert (Hslow : (normsq (velocity track) < 4)%Q).
    { unfold activities in Hact. rewrite (label_of_track c n tracks track Hnd Htr) in Hact.
      destruct (_check_interactions track tracks); [discriminate|].
      injection Hact as Hact. now apply stopped_label in Hact. }
    split; [exact Hact|]. split; [eauto|].
    intros Hf. destruct (Hfast Hf) as (track' & Htr' & Hid & Hv).
    rewrite (same_id_same_track tracks track' track Hnd Htr' Htr Hid) in Hv.
    unfold high_speed_sq in Hv. lra.
Qed.

Lemma loop_body_spec (fps : Q) (a : VideoAnalyzer) (n : Z) (i : FrameInput) :
  wf (detector a) -> ~ (fps == 0)%Q ->
  exists a' fd, loop_body fps a n i = Some (a', fd) /\
    wf (detector a') /\ detector a' = fst (update (detector a) (in_detections i)) /\
    fd_frame fd = n /\ frame_consistent fps fd /\ crowd_labelled fd /\
    speed_consistent fd.
Proof.
  intros Hwf Hfps. unfold loop_body.
  destruct (Qeq_bool fps 0) eqn:E; [apply Qeq_bool_iff in E; contradiction|].
  destruct (update_returns (detector a) (in_detections i) Hwf) as (Hwf' & Hnd & Hhits).
  destruct (update (detector a) (in_detections i)) as [tracker tracks].
  cbn [fst snd] in Hwf', Hnd, Hhits.
  pose proof (classify_dom (classifier a) tracks n) as Hdom.
  pose proof (fun r k => crowd_labels (classifier a) n tracks n (inject_Z n / fps) r k Hnd)
    as Hlab.
  pose proof (fun k => speed_labels (classifier a) n (anomaly_detector a) (in_now i) tracks
                         n (inject_Z n / fps) k Hnd) as Hsp.
  cbv zeta in Hsp.
  destruct (classify (classifier a) tracks n) as [c activities].
  cbn [snd] in Hdom, Hlab, Hsp.
  pose proof (records_of_frame (anomaly_detector a) (in_now i) tracks activities n
                (inject_Z n / fps)) as Hrec.
  pose proof (detect_crowd_records (anomaly_detector a) (in_now i) tracks activities n
                (inject_Z n / fps)) as Hcr.
  pose proof (fun k => not_stopped_no_prolonged (anomaly_detector a) (in_now i) tracks
                         activities n (inject_Z n / fps) k) as Hno.
  destruct (detect (anomaly_detector a) (in_now i) tracks activities n (inject_Z n / fps))
    as [ad anomalies]. cbn [fst snd] in Hrec, Hcr, Hno, Hsp.
  eexists _, _. split; [reflexivity|]. cbn.
  split; [exact Hwf'|]. split; [reflexivity|]. split; [reflexivity|].
  split; [|split].
  - repeat split; try assumption; apply Hdom.
  - intros r k Hr Hk. cbn in Hr |- *. apply In_crowd_records in Hr. rewrite Hcr in Hr.
    pose proof (Hlab r k Hr Hk) as Hl. split; [exact Hl|].
    apply Hno. rewrite Hl. discriminate.
  - intros k. exact (Hsp k).
Qed.

Lemma process_spec (fps : Q) (frames : list FrameInput) (a : VideoAnalyzer) (n : Z) :
  wf (detector a) -> ~ (fps == 0)%Q ->
  exists a' fds, process fps a n frames = Some (a', fds) /\
    detector a' = final (detector a) (map in_detections frames) /\
    map fd_frame fds = ids_from n (length frames) /\
    Forall (frame_consistent fps) fds /\ Forall crowd_labelled fds /\
    Forall speed_consistent fds.
Proof.
  intros Hwf Hfps. revert a n Hwf.
  induction frames as [|i frames IH]; intros a n Hwf.
  - exists a, []. repeat split; constructor.
  - cbn [process].
    destruct (loop_body_spec fps a n i Hwf Hfps)
      as (a1 & fd & -> & Hwf1 & Hd1 & Hn & Hc & Hl & Hs).
    destruct (IH a1 (n + 1) Hwf1) as (a2 & fds & -> & Hd2 & Hns & Hcs & Hls & Hss).
    exists a2, (fd :: fds). split; [reflexivity|]. split; [|split; [|split; [|split]]].
    + rewrite Hd2, Hd1. reflexivity.
    + cbn [map length ids_from]. now rewrite Hn, Hns.
    + now constructor.
    + now constructor.
    + now constructor.
Qed.

Lemma process_no_fps (frames : list FrameInput) (fps : Q) (a : VideoAnalyzer) (n : Z) :
  (fps == 0)%Q -> frames <> [] -> process fps a n frames = None.
Proof.
  intros Hfps Hne. destruct frames as [|i frames]; [contradiction|].
  cbn [process]. unfold loop_body. apply Qeq_bool_iff in Hfps. now rewrite Hfps.
Qed.

(** X24.  The loop of [analyze_video], started with a new tracker, fails
    (division by zero in the timestamp) exactly when [fps] is 0 and
    there is a frame.  Otherwise it processes every frame, numbering
    them from 0 with timestamp [frame_number / fps];
    in each frame the tracks handed to the classifier and to the
    anomaly detector have pairwise different ids and at least three
    hits, the activities label exactly these tracks, and every anomaly
    describes tracks of the frame with the frame's number and
    timestamp. *)
Theorem analyze_video_frames (fps : Q) (frames : list FrameInput) :
  match analyze_video fps (Tracker.init 30) frames with
  | Some (a, fds) =>
      (frames = [] \/ ~ (fps == 0)%Q) /\
      detector a = final (Tracker.init 30) (map in_detections frames) /\
      map fd_frame fds = ids_from 0 (length frames) /\
      Forall (frame_consistent fps) fds
  | None => (fps == 0)%Q /\ frames <> []
  end.
Proof.
  unfold analyze_video. destruct (Qeq_dec fps 0) as [Hz|Hnz].
  - destruct frames as [|i frames].
    + cbn. repeat split; auto.
    + rewrite process_no_fps by (auto; discriminate). split; [exact Hz | discriminate].
  - destruct (process_spec fps frames (mkAnalyzer (Tracker.init 30) Classifier.init Anomaly.init)
                0 (wf_init 30) Hnz) as (a & fds & -> & Hd & Hn & Hc & _ & _).
    repeat split; auto.
Qed.

(** X25.  In the loop of [analyze_video], whenever the anomalies of a frame
    include an [AGLOMERACAO] record, every track the record lists is
    labelled [INTERAGINDO] in that frame, and no [PARADA_PROLONGADA] is
    reported for it in that frame. *)
Theorem crowd_members_interacting (fps : Q) (frames : list FrameInput) :
  match analyze_video fps (Tracker.init 30) frames with
  | Some (_, fds) => Forall crowd_labelled fds
  | None => (fps == 0)%Q
  end.
Proof.
  unfold analyze_video. destruct (Qeq_dec fps 0) as [Hz|Hnz].
  - destruct frames as [|i frames]; [constructor|].
    rewrite process_no_fps by (auto; discriminate). exact Hz.
  - destruct (process_spec fps frames (mkAnalyzer (Tracker.init 30) Classifier.init Anomaly.init)
                0 (wf_init 30) Hnz) as (a & fds & -> & _ & _ & _ & Hl & _).
    exact Hl.
Qed.

(** X26.  In the loop of [analyze_video], a track reported with
    [VELOCIDADE_ANORMAL] is labelled [CORRENDO], [COMPORTAMENTO_ERRATICO]
    or [INTERAGINDO] in that frame; a track reported with
    [PARADA_PROLONGADA] is labelled [PARADO], moves at less than
    2 px/frame, and is not reported with [VELOCIDADE_ANORMAL] in the
    same frame. *)
Theorem labels_agree_with_speed_anomalies (fps : Q) (frames : list FrameInput) :
  match analyze_video fps (Tracker.init 30) frames with
  | Some (_, fds) => Forall speed_consistent fds
  | None => (fps == 0)%Q
  end.
Proof.
  unfold analyze_video. destruct (Qeq_dec fps 0) as [Hz|Hnz].
  - destruct frames as [|i frames]; [constructor|].
    rewrite process_no_fps by (auto; discriminate). exact Hz.
  - destruct (process_spec fps frames (mkAnalyzer (Tracker.init 30) Classifier.init Anomaly.init)
                0 (wf_init 30) Hnz) as (a & fds & -> & _ & _ & _ & _ & Hs).
    exact Hs.
Qed.

End MainFacts.
